(** * infomodels/database: DDL statement filtering, transactional execution
      and verified bulk load

    A shallow embedding of [database.go] and [load.go].  Go strings are byte
    sequences and are modelled by [string]; Go's [int] is modelled by [Z];
    an [error] value is modelled by its message and [nil] by [None]; a
    run-time panic is a separate outcome ([Panic]). *)

From Stdlib Require Import ZArith Ascii String List Bool Lia.
From Stdlib Require Import DecimalString.
From stdpp Require Import gmap strings.
Import ListNotations.

Local Open Scope Z_scope.

(** ** Outcomes of Go calls *)

(** An [error] is represented by the text [Error()] returns. *)
Definition error : Type := string.

(** A call either returns normally or panics with a message. *)
Inductive result (A : Type) : Type :=
| Ok (a : A)
| Panic (msg : string).
Arguments Ok {A} a.
Arguments Panic {A} msg.

Definition bind_result {A B} (r : result A) (k : A -> result B) : result B :=
  match r with
  | Ok a => k a
  | Panic m => Panic m
  end.

(** ** The part of Go's [strings] and [fmt] packages the program uses *)

Module GoStrings.

Definition len (s : string) : Z := Z.of_nat (String.length s).

(** [strings.HasPrefix(s, prefix)] *)
Definition HasPrefix (s pre : string) : bool := String.prefix pre s.

(** [s[n:]] for [n] within bounds; the empty string beyond. *)
Fixpoint drop (n : nat) (s : string) : string :=
  match n, s with
  | O, _ => s
  | S k, String _ s' => drop k s'
  | S _, EmptyString => EmptyString
  end.

Fixpoint take (n : nat) (s : string) : string :=
  match n, s with
  | S k, String c s' => String c (take k s')
  | _, _ => EmptyString
  end.

(** [strings.HasSuffix(s, suffix)] *)
Definition HasSuffix (s suf : string) : bool :=
  (String.length suf <=? String.length s)%nat
  && String.eqb (drop (String.length s - String.length suf) s) suf.

(** Position of the first occurrence of [sub] in [s], counted from the
    start of [s]. *)
Fixpoint index_from (sub s : string) : option nat :=
  if HasPrefix s sub then Some O
  else match s with
       | EmptyString => None
       | String _ s' => option_map S (index_from sub s')
       end.

(** [strings.Index(s, substr)]: the first position, or [-1]. *)
Definition Index (s sub : string) : Z :=
  match index_from sub s with
  | Some i => Z.of_nat i
  | None => -1
  end.

(** [strings.Contains(s, substr)] is [Index(s, substr) >= 0]. *)
Definition Contains (s sub : string) : bool := 0 <=? Index s sub.

(** The pieces of [s] between occurrences of a non-empty [sep]; [skip]
    counts the bytes of a separator still to be passed over. *)
Fixpoint split_go (sep : string) (skip : nat) (s : string) : list string :=
  match s with
  | EmptyString => [EmptyString]
  | String c s' =>
      match skip with
      | S k => split_go sep k s'
      | O =>
          if HasPrefix s sep
          then EmptyString :: split_go sep (String.length sep - 1) s'
          else match split_go sep O s' with
               | p :: ps => String c p :: ps
               | [] => [String c EmptyString]
               end
      end
  end.

Fixpoint explode (s : string) : list string :=
  match s with
  | EmptyString => []
  | String c s' => String c EmptyString :: explode s'
  end.

(** [strings.Split(s, sep)].  With an empty separator Go cuts after each
    UTF-8 sequence; the program only calls it with [";"] and ["."], and
    the empty case is given here byte by byte. *)
Definition Split (s sep : string) : list string :=
  match sep with
  | EmptyString => explode s
  | _ => split_go sep O s
  end.

(** [strings.Replace(s, old, new, n)] for a non-empty [old]: the first
    [n] non-overlapping occurrences are replaced, all of them when [n]
    is negative. *)
Fixpoint replace_go (old new : string) (n : option nat) (skip : nat)
    (s : string) : string :=
  match s with
  | EmptyString => EmptyString
  | String c s' =>
      match skip with
      | S k => replace_go old new n k s'
      | O =>
          match n with
          | Some O => s
          | _ =>
              if HasPrefix s old
              then new +:+ replace_go old new (option_map Nat.pred n)
                             (String.length old - 1) s'
              else String c (replace_go old new n O s')
          end
      end
  end.

Definition Replace (s old new : string) (n : Z) : string :=
  match old with
  | EmptyString => s
  | _ => replace_go old new (if n <? 0 then None else Some (Z.to_nat n)) O s
  end.

(** [strings.Join(elems, sep)] *)
Fixpoint Join (elems : list string) (sep : string) : string :=
  match elems with
  | [] => EmptyString
  | [e] => e
  | e :: rest => e +:+ sep +:+ Join rest sep
  end.

Definition string_rev (s : string) : string :=
  string_of_list_ascii (rev (list_ascii_of_string s)).

(** The six ASCII white-space bytes: tab, newline, vertical tab, form
    feed, carriage return and space. *)
Definition asciiSpace (c : ascii) : bool :=
  let n := nat_of_ascii c in
  ((9 <=? n) && (n <=? 13) || (n =? 32))%nat.

Definition bytes (l : list nat) : string :=
  string_of_list_ascii (map ascii_of_nat l).

(** UTF-8 encodings of the white-space runes beyond ASCII
    ([unicode.IsSpace]): U+0085, U+00A0, U+1680, U+2000..U+200A, U+2028,
    U+2029, U+202F, U+205F and U+3000. *)
Definition unicodeSpace : list string :=
  map bytes
    ([[194; 133]; [194; 160]; [225; 154; 128]]
     ++ map (fun k => [226; 128; k])
          [128; 129; 130; 131; 132; 133; 134; 135; 136; 137; 138]
     ++ [[226; 128; 168]; [226; 128; 169]; [226; 128; 175];
         [226; 129; 159]; [227; 128; 128]])%nat%list.

(** Length of the white-space rune [s] starts with, if any. *)
Definition space_prefix (seqs : list string) (s : string) : option nat :=
  match s with
  | EmptyString => None
  | String c _ =>
      if asciiSpace c then Some 1%nat
      else option_map String.length
             (List.find (fun q => HasPrefix s q) seqs)
  end.

Fixpoint trim_go (seqs : list string) (skip : nat) (s : string) : string :=
  match s with
  | EmptyString => EmptyString
  | String _ s' =>
      match skip with
      | S k => trim_go seqs k s'
      | O =>
          match space_prefix seqs s with
          | Some n => trim_go seqs (n - 1) s'
          | None => s
          end
      end
  end.

Definition TrimLeftSpace (s : string) : string := trim_go unicodeSpace O s.

Definition TrimRightSpace (s : string) : string :=
  string_rev (trim_go (map string_rev unicodeSpace) O (string_rev s)).

(** [strings.TrimSpace(s)]: leading and trailing white-space runes are
    removed. *)
Definition TrimSpace (s : string) : string :=
  TrimRightSpace (TrimLeftSpace s).

Definition LF : ascii := ascii_of_nat 10.
Definition newline : string := String LF EmptyString.
Definition dquote : string := String (ascii_of_nat 34) EmptyString.

(** [bytes.Count(b, sep)] for the one-byte separator [c]. *)
Fixpoint Count (s : string) (c : ascii) : Z :=
  match s with
  | EmptyString => 0
  | String a s' => (if Ascii.eqb a c then 1 else 0) + Count s' c
  end.

(** [b[len(b)-1]], with [d] for an empty [b]. *)
Fixpoint last_byte (s : string) (d : ascii) : ascii :=
  match s with
  | EmptyString => d
  | String a s' => last_byte s' a
  end.

(** Go's [int] on the 64-bit platforms the program runs on: arithmetic
    wraps around. *)
Definition int_wrap (z : Z) : Z := (z + 2 ^ 63) mod 2 ^ 64 - 2 ^ 63.

(** The [%d] verb of [fmt]. *)
Definition itoa (z : Z) : string := NilZero.string_of_int (Z.to_int z).

(** *** Notions used to state facts about trimming *)

Fixpoint all_bytes (p : ascii -> bool) (s : string) : bool :=
  match s with
  | EmptyString => true
  | String c s' => p c && all_bytes p s'
  end.

(** Bytes of white-space runes: ASCII white space, or a byte of a
    multi-byte sequence. *)
Definition high (c : ascii) : bool := (128 <=? nat_of_ascii c)%nat.
Definition spacey (c : ascii) : bool := asciiSpace c || high c.

(** Every sequence is non-empty and made of bytes from 128 up. *)
Definition high_seqs (seqs : list string) : bool :=
  forallb (fun q => negb (String.eqb q EmptyString) && all_bytes high q) seqs.

End GoStrings.
Import GoStrings.

(** [parts[i]] on a slice: a panic when [i] is out of range. *)
Definition index_slice {A} (l : list A) (i : nat) : result A :=
  match nth_error l i with
  | Some a => Ok a
  | None =>
      Panic ("runtime error: index out of range [" +:+ itoa (Z.of_nat i)
             +:+ "] with length " +:+ itoa (Z.of_nat (length l)))
  end.

(** * database.go *)

(** ** External packages, as interfaces *)

(** The [regexp] package.  [FindStringSubmatch] gives [None] for Go's [nil]
    and otherwise the whole match followed by the text of each capture
    group. *)
Class RegexpLib := {
  Regexp : Type;
  Compile : string -> Regexp + error;
  quote : string -> string;
  FindStringSubmatch : Regexp -> string -> option (list string);
  MatchString : Regexp -> string -> bool;
}.

(** [regexp.MustCompile] panics where [regexp.Compile] fails. *)
Definition MustCompile `{RegexpLib} (str : string) : result Regexp :=
  match Compile str with
  | inl re => Ok re
  | inr e => Panic ("regexp: Compile(" +:+ quote str +:+ "): " +:+ e)
  end.

(** An HTTP response: the status code and what [ioutil.ReadAll] makes of
    the body. *)
Record Response := {
  StatusCode : Z;
  ReadAll_Body : string + error;
}.

(** A [*sql.DB] handle. *)
Record sqlDB := { dsn : string }.

(** What the process finds outside itself: the schema service behind
    [http.Get], [http.StatusText], the scheme [url.Parse] finds, and the
    database driver behind [sql.Open], [Ping], [Begin] and [Commit]. *)
Record World := {
  http_Get : string -> Response + error;
  http_StatusText : Z -> string;
  url_Parse_Scheme : string -> string + error;
  sql_Open : string -> string -> sqlDB + error;
  db_Ping : sqlDB -> option error;
  db_Begin : sqlDB -> option error;
  tx_Commit : option error;
}.

Definition pedsnetMinorVersionSupported : string := "2.2".
Definition pedsnetVocabTablesPat : string :=
  "^(?:vocabulary|concept|concept_ancestor|concept_class|concept_relationship|concept_synonym|domain|drug_strength|relationship|source_to_concept_map)$".
Definition defaultDmsaUrl : string :=
  "https://data-models-sqlalchemy.research.chop.edu/".

Definition joinUrlPath (base path : string) : string :=
  let baseHasTrailingSlash := HasSuffix base "/" in
  let pathHasLeadingSlash := HasPrefix path "/" in
  if (baseHasTrailingSlash && negb pathHasLeadingSlash)
     || (negb baseHasTrailingSlash && pathHasLeadingSlash)
  then base +:+ path
  else if negb baseHasTrailingSlash && negb pathHasLeadingSlash
  then base +:+ "/" +:+ path
  else base +:+ drop 1 path.

Definition openDatabase (w : World) (driverName databaseUrl : string)
  : option sqlDB * option error :=
  match sql_Open w driverName databaseUrl with
  | inr err => (None, Some ("Error opening " +:+ databaseUrl +:+ ": " +:+ err))
  | inl db =>
      match db_Ping w db with
      | Some err => (None, Some ("Error opening " +:+ databaseUrl +:+ ": " +:+ err))
      | None => (Some db, None)
      end
  end.

(** The message of the format check in [isValidModelVersion]. *)
Definition versionFormatError (version : string) : error :=
  "Model version must look like X.Y.Z, not '" +:+ version +:+ "'".

(** [isValidModelVersion]: the package variable [cachedIsValidVersion] is
    passed in and handed back with the two results. *)
Definition isValidModelVersion (w : World) (cachedIsValidVersion : option bool)
    (model version dmsaUrl : string) : (bool * option error) * option bool :=
  match cachedIsValidVersion with
  | Some b => ((b, None), cachedIsValidVersion)
  | None =>
      let parts := Split version "." in
      if negb (length parts =? 3)%nat
      then ((false, Some (versionFormatError version)), None)
      else
        match http_Get w dmsaUrl with
        | inr err =>
            ((false, Some ("Cannot access data-models-sqlalchemy web service at "
                           +:+ dmsaUrl +:+ ": " +:+ err)), None)
        | inl response =>
            if negb (StatusCode response =? 200)
            then ((false, Some ("Data-models-sqlalchemy web service (" +:+ dmsaUrl
                                +:+ ") returned error response: "
                                +:+ http_StatusText w (StatusCode response))), None)
            else
              let url := joinUrlPath dmsaUrl
                           ("/" +:+ model +:+ "/" +:+ version +:+ "/ddl/postgresql/tables/") in
              match http_Get w url with
              | inr err =>
                  ((false, Some ("Cannot access data-models-sqlalchemy web service at "
                                 +:+ url +:+ ": " +:+ err)), None)
              | inl response =>
                  if negb (StatusCode response =? 200)
                  then ((false, None), None)
                  else ((true, None), Some true)
              end
        end
  end.

Section WithRegexp.
Context `{RL : RegexpLib}.

Record Database := {
  Model : string;
  ModelVersion : string;
  DatabaseUrl : string;
  Schema : string;
  DmsaUrl : string;
  db : option sqlDB;
  driverName : string;
  includeTables : option Regexp;
  excludeTables : option Regexp;
}.

Definition checkModelAndVersion (w : World) (cache : option bool) (d : Database)
  : option error * option bool :=
  match isValidModelVersion w cache (Model d) (ModelVersion d) (DmsaUrl d) with
  | ((_, Some err), cache') => (Some err, cache')
  | ((isValid, None), cache') =>
      if negb isValid
      then (Some ("Invalid version '" +:+ ModelVersion d +:+ "' of model '"
                  +:+ Model d +:+ "', according to " +:+ DmsaUrl d), cache')
      else (None, cache')
  end.

Record normalPatternsType := { table : string }.

Record mapPatternsType := {
  tableCreate : string;
  entityCreate : string;
  entityDrop : string;
}.

(** The [patterns interface{}] argument holds one of the two types. *)
Inductive patternsType :=
| normalPatterns (pat : normalPatternsType)
| mapPatterns (pat : mapPatternsType).

(** The work-around applied to one fetched statement. *)
Definition kludge (stmt : string) : string :=
  if Contains stmt "version_history"
  then if Contains stmt "CREATE TABLE"
       then Replace stmt "dms_version VARCHAR(16)" "dms_version VARCHAR(50)" 1
       else stmt
  else stmt.

Fixpoint rawDmsaSql_loop (stmts sqlStrings : list string) : list string :=
  match stmts with
  | [] => sqlStrings
  | stmt :: rest => rawDmsaSql_loop rest (sqlStrings ++ [kludge stmt])
  end.

(** The address [rawDmsaSql] fetches. *)
Definition ddlUrl (d : Database) (ddlOperator ddlOperand : string) : string :=
  joinUrlPath (DmsaUrl d)
    ("/" +:+ Model d +:+ "/" +:+ ModelVersion d +:+ "/" +:+ ddlOperator
     +:+ "/postgresql/" +:+ ddlOperand +:+ "/").

Definition rawDmsaSql (w : World) (d : Database) (ddlOperator ddlOperand : string)
  : list string * option error :=
  let url := ddlUrl d ddlOperator ddlOperand in
  match http_Get w url with
  | inr err => ([], Some ("Error getting " +:+ url +:+ ": " +:+ err))
  | inl response =>
      if negb (StatusCode response =? 200)
      then ([], Some ("Data-models-sqlalchemy web service (" +:+ url
                      +:+ ") returned error: "
                      +:+ http_StatusText w (StatusCode response)))
      else
        match ReadAll_Body response with
        | inr err => ([], Some ("Error reading body from " +:+ url +:+ ": " +:+ err))
        | inl bodyString =>
            let stmts := Split bodyString ";" in
            (rawDmsaSql_loop stmts [], None)
        end
  end.

(** The loop of [dmsaSqlMap]; it returns as soon as a statement gives a
    table name and no entity name. *)
Fixpoint dmsaSqlMap_loop (patterns : mapPatternsType)
    (tableCreatePattern entityCreatePattern : Regexp) (stmts : list string)
    (m : gmap string string) : result (gmap string string * option error) :=
  match stmts with
  | [] => Ok (m, None)
  | stmt :: rest =>
      let continue := dmsaSqlMap_loop patterns tableCreatePattern entityCreatePattern rest in
      if negb (Contains stmt "version_history")
      then
        match FindStringSubmatch tableCreatePattern stmt with
        | Some tableMatches =>
            bind_result (index_slice tableMatches 1) (fun table =>
            match FindStringSubmatch entityCreatePattern stmt with
            | None =>
                Ok (m, Some ("patterns.entityCreate `" +:+ entityCreate patterns
                             +:+ "` is non-empty but does not match against `"
                             +:+ stmt +:+ "`"))
            | Some entityMatches =>
                bind_result (index_slice entityMatches 1) (fun entity =>
                continue (<[entity := table]> m))
            end)
        | None => continue m
        end
      else continue m
  end.

Definition dmsaSqlMap (w : World) (d : Database) (ddlOperator ddlOperand : string)
    (patterns : mapPatternsType) : result (gmap string string * option error) :=
  match rawDmsaSql w d ddlOperator ddlOperand with
  | (_, Some err) => Ok (∅, Some err)
  | (stmts, None) =>
      bind_result (MustCompile (tableCreate patterns)) (fun tableCreatePattern =>
      bind_result (MustCompile (entityCreate patterns)) (fun entityCreatePattern =>
      dmsaSqlMap_loop patterns tableCreatePattern entityCreatePattern stmts ∅))
  end.

(** Whether the statement, already trimmed, goes into the result, with
    the error the lookup of its entity may leave behind. *)
Definition shouldInclude (d : Database) (pattern : Regexp)
    (entityToTableMap : option (gmap string string)) (stmt : string)
    (err : option error) : result (bool * option error) :=
  if Contains stmt "version_history"
  then Ok (true, err)
  else
    match FindStringSubmatch pattern stmt with
    | None => Ok (false, err)
    | Some submatches =>
        bind_result
          (match entityToTableMap with
           | Some m =>
               bind_result (index_slice submatches 1) (fun entity =>
               match m !! entity with
               | Some table => Ok (table, err)
               | None =>
                   Ok (EmptyString,
                       Some ("Failed to look up table name for entity `" +:+ entity
                             +:+ "` in SQL `" +:+ stmt +:+ "`"))
               end)
           | None =>
               bind_result (index_slice submatches 1) (fun table => Ok (table, err))
           end)
          (fun '(table, err) =>
             match includeTables d with
             | Some inc => Ok (MatchString inc table, err)
             | None =>
                 match excludeTables d with
                 | Some exc => Ok (negb (MatchString exc table), err)
                 | None => Ok (false, err)
                 end
             end)
    end.

Fixpoint dmsaSql_loop (d : Database) (pattern : Regexp)
    (entityToTableMap : option (gmap string string)) (stmts sqlStrings : list string)
    (err : option error) : result (list string * option error) :=
  match stmts with
  | [] => Ok (sqlStrings, err)
  | stmt :: rest =>
      let stmt := TrimSpace stmt in
      bind_result (shouldInclude d pattern entityToTableMap stmt err)
        (fun '(include, err) =>
           dmsaSql_loop d pattern entityToTableMap rest
             (if include then sqlStrings ++ [stmt] else sqlStrings) err)
  end.

(** The type switch of [dmsaSql]: the pattern that finds the table or
    entity name and, for [mapPatternsType], the entity-to-table map; or
    the error building the map ended with. *)
Definition patternSwitch (w : World) (d : Database) (ddlOperand : string)
    (patterns : patternsType)
  : result (option (gmap string string) * Regexp + error) :=
  match patterns with
  | mapPatterns pat =>
      bind_result (dmsaSqlMap w d "ddl" ddlOperand pat) (fun '(m, err) =>
      match err with
      | Some e => Ok (inr e)
      | None =>
          bind_result (MustCompile (entityDrop pat)) (fun pattern =>
          Ok (inl (Some m, pattern)))
      end)
  | normalPatterns pat =>
      bind_result (MustCompile (table pat)) (fun pattern =>
      Ok (inl (None, pattern)))
  end.

Definition dmsaSql (w : World) (d : Database) (ddlOperator ddlOperand : string)
    (patterns : patternsType) : result (list string * option error) :=
  match rawDmsaSql w d ddlOperator ddlOperand with
  | (_, Some err) => Ok ([], Some err)
  | (stmts, None) =>
      bind_result (patternSwitch w d ddlOperand patterns) (fun r =>
      match r with
      | inr e => Ok ([], Some e)
      | inl (entityToTableMap, pattern) =>
          dmsaSql_loop d pattern entityToTableMap stmts [] None
      end)
  end.

(** ** The process state and the database behind the driver *)

(** The SQL engine: what one statement makes of the contents a
    transaction sees, or the error it is refused with. *)
Class SqlEngine := {
  Store : Type;
  sql_exec : Store -> string -> Store + error;
}.
Context `{SE : SqlEngine}.

(** [committed] is what the database holds; [pending] is what the open
    transaction, if any, has made of it; [execd] lists the statements
    handed to [tx.Exec], in order. *)
Record Proc := {
  committed : Store;
  pending : option Store;
  execd : list string;
  stdout : list string;
  stderr : list string;
  cachedIsValidVersion : option bool;
}.

Definition M (A : Type) : Type := Proc -> result A * Proc.

Definition ret {A} (a : A) : M A := fun st => (Ok a, st).

Definition bind {A B} (m : M A) (k : A -> M B) : M B :=
  fun st =>
    match m st with
    | (Ok a, st') => k a st'
    | (Panic p, st') => (Panic p, st')
    end.

Definition lift {A} (r : result A) : M A := fun st => (r, st).

Notation "'let*' x := m 'in' k" := (bind m (fun x => k))
  (at level 10, x pattern, m at level 100, k at level 200, only parsing).

(** A [*sql.Tx] handle. *)
Inductive sqlTx := Tx.

Definition Printf (line : string) : M unit :=
  fun st => (Ok tt, {| committed := committed st; pending := pending st;
                       execd := execd st; stdout := stdout st ++ [line];
                       stderr := stderr st;
                       cachedIsValidVersion := cachedIsValidVersion st |}).

Definition Fprintf_Stderr (line : string) : M unit :=
  fun st => (Ok tt, {| committed := committed st; pending := pending st;
                       execd := execd st; stdout := stdout st;
                       stderr := stderr st ++ [line];
                       cachedIsValidVersion := cachedIsValidVersion st |}).

Definition set_pending (p : option Store) (st : Proc) : Proc :=
  {| committed := committed st; pending := p; execd := execd st;
     stdout := stdout st; stderr := stderr st;
     cachedIsValidVersion := cachedIsValidVersion st |}.

Definition ErrTxDone : error :=
  "sql: transaction has already been committed or rolled back".

(** [db.Begin()] *)
Definition Begin (w : World) (d : sqlDB) : M (option sqlTx * option error) :=
  fun st =>
    match db_Begin w d with
    | Some err => (Ok (None, Some err), st)
    | None => (Ok (Some Tx, None), set_pending (Some (committed st)) st)
    end.

(** [tx.Exec(sql)] *)
Definition Exec (sql : string) : M (option error) :=
  fun st =>
    match pending st with
    | None => (Ok (Some ErrTxDone), st)
    | Some s =>
        let st := {| committed := committed st; pending := pending st;
                     execd := execd st ++ [sql]; stdout := stdout st;
                     stderr := stderr st;
                     cachedIsValidVersion := cachedIsValidVersion st |} in
        match sql_exec s sql with
        | inl s' => (Ok None, set_pending (Some s') st)
        | inr err => (Ok (Some err), st)
        end
    end.

(** [tx.Rollback()] *)
Definition Rollback : M (option error) :=
  fun st =>
    match pending st with
    | None => (Ok (Some ErrTxDone), st)
    | Some _ => (Ok None, set_pending None st)
    end.

(** [tx.Commit()] *)
Definition Commit (w : World) : M (option error) :=
  fun st =>
    match pending st with
    | None => (Ok (Some ErrTxDone), st)
    | Some s =>
        match tx_Commit w with
        | Some err => (Ok (Some err), set_pending None st)
        | None =>
            (Ok None, {| committed := s; pending := None; execd := execd st;
                         stdout := stdout st; stderr := stderr st;
                         cachedIsValidVersion := cachedIsValidVersion st |})
        end
    end.

(** ** Transactions *)

(** The deferred function of [transact]: a panic has become an error;
    an error rolls back, anything else commits. *)
Definition transact_deferred (w : World) (tx : option sqlTx) (err : option error)
  : M (option error) :=
  match err with
  | Some e =>
      match tx with
      | Some _ => let* _ := Rollback in ret (Some e)
      | None => ret (Some e)
      end
  | None =>
      match tx with
      | Some _ => Commit w
      | None => ret None
      end
  end.

Definition transact (w : World) (db : option sqlDB)
    (txFunc : option sqlTx -> M (option error)) : M (option error) :=
  fun st =>
    match
      (match db with
       | Some h => Begin w h st
       | None => (Ok (None, None), st)
       end)
    with
    | (Panic p, st1) => (Panic p, st1)
    | (Ok (_, Some err), st1) => (Ok (Some err), st1)
    | (Ok (tx, None), st1) =>
        match txFunc tx st1 with
        | (Ok err, st2) => transact_deferred w tx err st2
        | (Panic p, st2) => transact_deferred w tx (Some p) st2
        end
    end.

Definition executeSQL (tx : option sqlTx) (sql : string) : M (option error) :=
  let sql := TrimSpace sql in
  match tx with
  | None =>
      let* _ := Printf (sql +:+ ";" +:+ newline) in ret None
  | Some _ =>
      let* err := Exec sql in
      match err with
      | Some err => ret (Some ("Error executing SQL: " +:+ sql +:+ ": " +:+ err))
      | None => ret None
      end
  end.

(** The final loop of [operateOnTables]. *)
Fixpoint executeAll (tx : option sqlTx) (stmts : list string) : M (option error) :=
  match stmts with
  | [] => ret None
  | stmt :: rest =>
      let* err := executeSQL tx stmt in
      match err with
      | Some err => ret (Some ("Error executing SQL: `" +:+ stmt +:+ "`: " +:+ err))
      | None => executeAll tx rest
      end
  end.

Definition operateOnTables (w : World) (d : Database)
    (ddlOperation ddlOperand : string) (patterns : patternsType)
    (tx : option sqlTx) : M (option error) :=
  let* (stmts, err) := lift (dmsaSql w d ddlOperation ddlOperand patterns) in
  match err with
  | Some err => ret (Some err)
  | None =>
      if negb (String.eqb (Schema d) EmptyString)
      then
        if String.eqb (driverName d) "postgres"
        then
          let* err := executeSQL tx ("SET search_path TO " +:+ Schema d) in
          match err with
          | Some err => ret (Some err)
          | None => executeAll tx stmts
          end
        else ret (Some "Schemas are currently supported only for PostgreSQL")
      else executeAll tx stmts
  end.

Definition driverNameFromUrl (w : World) (urlString : string) : string * option error :=
  match url_Parse_Scheme w urlString with
  | inr err => (EmptyString, Some ("Invalid URL '" +:+ urlString +:+ "': " +:+ err))
  | inl scheme =>
      if String.eqb scheme "postgres" || String.eqb scheme "postgresql"
      then ("postgres", None)
      else (EmptyString, Some ("Unsupported database scheme '" +:+ scheme +:+ "'"))
  end.

Definition versionMatchesMinorVersion (version referenceMinorVersion : string)
  : result bool :=
  let parts := Split version "." in
  bind_result (index_slice parts 0) (fun p0 =>
  bind_result (index_slice parts 1) (fun p1 =>
  Ok (String.eqb (p0 +:+ "." +:+ p1) referenceMinorVersion))).

(** The warning both model aliases share. *)
Definition warnMinorVersion (modelVersion : string) : M unit :=
  let* matches :=
    lift (versionMatchesMinorVersion modelVersion pedsnetMinorVersionSupported) in
  if negb matches
  then Fprintf_Stderr ("WARNING: this code only supports the "
                       +:+ pedsnetMinorVersionSupported
                       +:+ " version series for the pedsnet model")
  else ret tt.

Definition compileOptional (what pat : string) : (option Regexp) * option error :=
  if negb (String.eqb pat EmptyString)
  then match Compile pat with
       | inl re => (Some re, None)
       | inr err => (None, Some ("Invalid " +:+ what +:+ " regexp string '" +:+ pat
                                 +:+ "': " +:+ err))
       end
  else (None, None).

Definition with_cache {A} (f : option bool -> A * option bool) : M A :=
  fun st =>
    let '(a, c) := f (cachedIsValidVersion st) in
    (Ok a, {| committed := committed st; pending := pending st;
              execd := execd st; stdout := stdout st; stderr := stderr st;
              cachedIsValidVersion := c |}).

Definition Open (w : World)
    (model modelVersion databaseUrl schema dmsaUrl includeTablesPat excludeTablesPat : string)
  : M (option Database * option error) :=
  let dmsaUrl := if String.eqb dmsaUrl EmptyString then defaultDmsaUrl else dmsaUrl in
  let* (model, includeTablesPat, excludeTablesPat) :=
    (if String.eqb model "pedsnet-core"
     then
       if String.eqb excludeTablesPat EmptyString
       then let* _ := warnMinorVersion modelVersion in
            ret ("pedsnet", includeTablesPat, pedsnetVocabTablesPat)
       else ret ("pedsnet", includeTablesPat, excludeTablesPat)
     else if String.eqb model "pedsnet-vocab"
     then
       if String.eqb includeTablesPat EmptyString
       then let* _ := warnMinorVersion modelVersion in
            ret ("pedsnet", pedsnetVocabTablesPat, excludeTablesPat)
       else ret ("pedsnet", includeTablesPat, excludeTablesPat)
     else ret (model, includeTablesPat, excludeTablesPat)) in
  match compileOptional "includeTablesPat" includeTablesPat with
  | (_, Some err) => ret (None, Some err)
  | (includeTables, None) =>
      match compileOptional "excludeTablesPat" excludeTablesPat with
      | (_, Some err) => ret (None, Some err)
      | (excludeTables, None) =>
          let d := {| Model := model; ModelVersion := modelVersion;
                      DatabaseUrl := databaseUrl; Schema := schema;
                      DmsaUrl := dmsaUrl; db := None; driverName := EmptyString;
                      includeTables := includeTables;
                      excludeTables := excludeTables |} in
          let* err := with_cache (fun c => checkModelAndVersion w c d) in
          match err with
          | Some err => ret (None, Some err)
          | None =>
              match driverNameFromUrl w databaseUrl with
              | (_, Some err) => ret (None, Some err)
              | (driver, None) =>
                  match openDatabase w driver databaseUrl with
                  | (_, Some err) => ret (None, Some err)
                  | (h, None) =>
                      ret (Some {| Model := model; ModelVersion := modelVersion;
                                   DatabaseUrl := databaseUrl; Schema := schema;
                                   DmsaUrl := dmsaUrl; db := h; driverName := driver;
                                   includeTables := includeTables;
                                   excludeTables := excludeTables |}, None)
                  end
              end
          end
      end
  end.

(** ** The six DDL operations *)

Definition ddlOperation (w : World) (d : Database) (operator operand : string)
    (patterns : patternsType) : M (option error) :=
  if String.eqb (driverName d) "postgres"
  then transact w (db d) (operateOnTables w d operator operand patterns)
  else ret (Some ("Unsupported database driver: " +:+ driverName d)).

Definition CreateTables (w : World) (d : Database) : M (option error) :=
  ddlOperation w d "ddl" "tables"
    (normalPatterns {| table := "CREATE TABLE.* (\w+) \(" |}).

Definition CreateIndexes (w : World) (d : Database) : M (option error) :=
  ddlOperation w d "ddl" "indexes"
    (normalPatterns {| table := "ON (\w+) \(" |}).

Definition CreateConstraints (w : World) (d : Database) : M (option error) :=
  ddlOperation w d "ddl" "constraints"
    (normalPatterns {| table := "ALTER TABLE (\w+)" |}).

Definition DropTables (w : World) (d : Database) : M (option error) :=
  ddlOperation w d "drop" "tables"
    (normalPatterns {| table := "DROP TABLE.* (\w+)" |}).

Definition DropIndexes (w : World) (d : Database) : M (option error) :=
  ddlOperation w d "drop" "indexes"
    (mapPatterns {| tableCreate := " ON (\w+) \(";
                    entityCreate := "CREATE INDEX (\w+) ON";
                    entityDrop := "DROP INDEX (\w+)" |}).

Definition DropConstraints (w : World) (d : Database) : M (option error) :=
  ddlOperation w d "drop" "constraints"
    (normalPatterns {| table := "ALTER TABLE (\w+)" |}).

(** ** Notions used in the statements *)

(** Every match of the pattern has the text of a first group. *)
Definition has_group (pattern : Regexp) : Prop :=
  forall s m, FindStringSubmatch pattern s = Some m -> (1 < length m)%nat.

(** The decision of the filter on a resolved table name. *)
Definition filterDecision (d : Database) (table : string) : bool :=
  match includeTables d with
  | Some inc => MatchString inc table
  | None =>
      match excludeTables d with
      | Some exc => negb (MatchString exc table)
      | None => false
      end
  end.

(** The resolved table name of a statement, where it has one. *)
Definition resolvedTable (pattern : Regexp) (emap : option (gmap string string))
    (stmt : string) : option string :=
  match FindStringSubmatch pattern stmt with
  | Some submatches =>
      match nth_error submatches 1, emap with
      | Some entity, Some m => m !! entity
      | Some table, None => Some table
      | None, _ => None
      end
  | None => None
  end.

(** Whether [dmsaSql] keeps a statement, already trimmed: a lifecycle
    statement always; another one when a name is found in it and the
    filter lets the table through, the table of an entity that is not in
    the map being the empty name. *)
Definition keeps (d : Database) (pattern : Regexp)
    (emap : option (gmap string string)) (stmt : string) : bool :=
  if Contains stmt "version_history" then true
  else
    match FindStringSubmatch pattern stmt with
    | Some submatches =>
        match nth_error submatches 1, emap with
        | Some entity, Some m => filterDecision d (default EmptyString (m !! entity))
        | Some table, None => filterDecision d table
        | None, _ => false
        end
    | None => false
    end.

(** The contents a transaction reaches by the statements of a list, when
    none of them fails. *)
Fixpoint exec_list (s : Store) (sqls : list string) : option Store :=
  match sqls with
  | [] => Some s
  | q :: rest =>
      match sql_exec s q with
      | inl s' => exec_list s' rest
      | inr _ => None
      end
  end.

(** The directive [operateOnTables] puts before the statements. *)
Definition searchPathStatements (d : Database) : list string :=
  if String.eqb (Schema d) EmptyString then []
  else [("SET search_path TO " +:+ Schema d)%string].

(** The state of an open transaction after more statements. *)
Definition advanced (st : Proc) (s : Store) (sqls : list string) : Proc :=
  {| committed := committed st; pending := Some s;
     execd := (execd st ++ sqls)%list; stdout := stdout st; stderr := stderr st;
     cachedIsValidVersion := cachedIsValidVersion st |}.

(** *** Notions used in further statements *)

(** [d] with another exclude pattern. *)
Definition withExclude (d : Database) (exclude : option Regexp) : Database :=
  {| Model := Model d; ModelVersion := ModelVersion d; DatabaseUrl := DatabaseUrl d;
     Schema := Schema d; DmsaUrl := DmsaUrl d; db := db d; driverName := driverName d;
     includeTables := includeTables d; excludeTables := exclude |}.

(** A creation statement that gives the table [t] to the entity [e]. *)
Definition defines (tp ep : Regexp) (stmt e t : string) : Prop :=
  Contains stmt "version_history" = false
  /\ exists tm em,
       FindStringSubmatch tp stmt = Some tm /\ nth_error tm 1 = Some t
       /\ FindStringSubmatch ep stmt = Some em /\ nth_error em 1 = Some e.

(** A creation statement [dmsaSqlMap] can read: a lifecycle statement, one
    without a table name, or one with an entity name. *)
Definition consistent (tp ep : Regexp) (stmt : string) : Prop :=
  Contains stmt "version_history" = true
  \/ FindStringSubmatch tp stmt = None
  \/ is_Some (FindStringSubmatch ep stmt).

(** The error of [dmsaSqlMap] on a statement it cannot read. *)
Definition entityCreateError (patterns : mapPatternsType) (stmt : string) : error :=
  "patterns.entityCreate `" +:+ entityCreate patterns
  +:+ "` is non-empty but does not match against `" +:+ stmt +:+ "`".

(** The error of [dmsaSql] on an entity the map does not have. *)
Definition lookupError (entity stmt : string) : error :=
  "Failed to look up table name for entity `" +:+ entity +:+ "` in SQL `" +:+ stmt +:+ "`".

(** The entity a statement names when the map does not have it. *)
Definition unmappedEntity (dp : Regexp) (m : gmap string string) (stmt : string)
  : option string :=
  if Contains stmt "version_history" then None
  else
    match FindStringSubmatch dp stmt with
    | Some sub =>
        match nth_error sub 1 with
        | Some e => match m !! e with None => Some e | Some _ => None end
        | None => None
        end
    | None => None
    end.

(** The state after more lines on standard output. *)
Definition printed (st : Proc) (lines : list string) : Proc :=
  {| committed := committed st; pending := pending st; execd := execd st;
     stdout := (stdout st ++ lines)%list; stderr := stderr st;
     cachedIsValidVersion := cachedIsValidVersion st |}.

(** The line [executeSQL] prints for a statement. *)
Definition printedLine (sql : string) : string := TrimSpace sql +:+ ";" +:+ newline.

(** Inside a transaction: nothing committed, nothing printed. *)
Definition inTx (st0 st : Proc) : Prop :=
  committed st = committed st0 /\ is_Some (pending st) /\ stdout st = stdout st0.

(** The model name [Open] goes on with. *)
Definition resolvedModel (model : string) : string :=
  if String.eqb model "pedsnet-core" || String.eqb model "pedsnet-vocab"
  then "pedsnet" else model.

(** The include pattern string: the vocabulary under the vocabulary alias,
    when none is given. *)
Definition resolvedInclude (model includeTablesPat : string) : string :=
  if String.eqb model "pedsnet-vocab" && String.eqb includeTablesPat EmptyString
  then pedsnetVocabTablesPat else includeTablesPat.

(** The exclude pattern string: the vocabulary under the core alias, when
    none is given. *)
Definition resolvedExclude (model excludeTablesPat : string) : string :=
  if String.eqb model "pedsnet-core" && String.eqb excludeTablesPat EmptyString
  then pedsnetVocabTablesPat else excludeTablesPat.

(** The pattern [Open] stores for a pattern string. *)
Definition storedPattern (pat : string) (re : option Regexp) : Prop :=
  match re with
  | None => pat = EmptyString
  | Some r => pat <> EmptyString /\ Compile pat = inl r
  end.

End WithRegexp.

(** * load.go *)

Module Load.

(** ** External packages and the outside world *)

Inductive ioerr :=
| EOF
| IOError (msg : string).

(** What one call of [Read] returns: the bytes put in the buffer and the
    error. *)
Record ReadResult := {
  data : string;
  rerr : option ioerr;
}.

(** An [io.Reader], given by what its successive [Read] calls return; a
    reader that has nothing left reports [io.EOF]. *)
Definition Reader : Type := list ReadResult.

(** A connection opened by [OpenDatabase]. *)
Record Conn := {
  conn_url : string;
  conn_searchPath : string;
}.

(** The outside world of a load: files, the CSV reader, the [PATH], the
    shell, the environment and the database.  [OpenDatabase] and
    [primarySchemaInSearchPath] belong to this package, in files that are
    not at hand; they are taken as given, like the external packages. *)
Record World := {
  os_Open : string -> Reader + error;
  csv_Read : Reader -> list string + error;
  exec_LookPath : string -> string + error;
  pq_ParseURL : string -> string + error;
  primarySchemaInSearchPath : string -> string * option error;
  sh_Run : string -> option (error * string);
  OpenDatabase : string -> string -> Conn + error;
  db_QueryRow_Scan : Conn -> string -> Z + error;
  db_Exec : Conn -> string -> option error;
  os_Getenv : string -> string;
  strconv_Atoi : string -> Z + error;
  path_Join : string -> string -> string;
  fmt_Errorf : string -> error;
}.

(** ** What a load does, as a trace *)

Inductive Level := Info | Warn | Error.

Inductive Event :=
| EvLog (level : Level) (msg : string)
| EvOpenFile (name : string)
| EvLookPath (file : string)
| EvRun (cmdStr : string)
| EvOpenDatabase (url searchPath : string)
| EvQuery (sql : string)
| EvExec (sql : string).

(** A computation with the events it causes, in order. *)
Definition T (A : Type) : Type := A * list Event.

Definition ret {A} (a : A) : T A := (a, []).

Definition bind {A B} (m : T A) (k : A -> T B) : T B :=
  let '(a, t1) := m in
  let '(b, t2) := k a in
  (b, t1 ++ t2).

Definition emit (e : Event) : T unit := (tt, [e]).

Notation "'let*' x := m 'in' k" := (bind m (fun x => k))
  (at level 10, x pattern, m at level 100, k at level 200, only parsing).

Definition log (level : Level) (msg : string) : T unit := emit (EvLog level msg).

Definition open_file (w : World) (fileName : string) : T (Reader + error) :=
  let* _ := emit (EvOpenFile fileName) in ret (os_Open w fileName).

(** ** Counting *)

Definition columnNamesFromCsvFile (w : World) (fileName : string)
  : T (list string * option error) :=
  let* f := open_file w fileName in
  match f with
  | inr err => ret ([], Some err)
  | inl fileReader =>
      match csv_Read w fileReader with
      | inr err =>
          ret ([], Some ("Error reading first row of `" +:+ fileName +:+ "`: " +:+ err))
      | inl record => ret (record, None)
      end
  end.

(** The end of [lineCounter]: a last line without its newline counts. *)
Definition lineCounter_eof (count : Z) (lastByte : ascii) : T (Z * option error) :=
  if negb (Ascii.eqb lastByte LF)
  then
    let* _ := log Warn ("Last byte in buffer is '"
                        +:+ itoa (Z.of_nat (nat_of_ascii lastByte)) +:+ "'") in
    ret (int_wrap (count + 1), None)
  else ret (count, None).

Fixpoint lineCounter_loop (r : Reader) (count : Z) (lastByte : ascii)
  : T (Z * option error) :=
  match r with
  | [] => lineCounter_eof count lastByte
  | res :: rest =>
      let lastByte := last_byte (data res) lastByte in
      let count := int_wrap (count + Count (data res) LF) in
      match rerr res with
      | Some EOF => lineCounter_eof count lastByte
      | Some (IOError err) => ret (count, Some err)
      | None => lineCounter_loop rest count lastByte
      end
  end.

Definition lineCounter (r : Reader) : T (Z * option error) :=
  lineCounter_loop r 0 LF.

Definition rowsInFile (w : World) (fileName : string) : T (Z * option error) :=
  let* f := open_file w fileName in
  match f with
  | inr err => ret (0, Some err)
  | inl fileReader => lineCounter fileReader
  end.

(** *** What the file holds

    The text a reader delivers up to its end, the error that stops it
    before the end, if any, and the physical lines of a text: the pieces
    between newlines, where an empty piece after the last newline is no
    line. *)

Fixpoint reader_content (r : Reader) : string :=
  match r with
  | [] => EmptyString
  | res :: rest =>
      data res +:+ match rerr res with
                   | None => reader_content rest
                   | Some _ => EmptyString
                   end
  end.

Fixpoint reader_error (r : Reader) : option error :=
  match r with
  | [] => None
  | res :: rest =>
      match rerr res with
      | None => reader_error rest
      | Some EOF => None
      | Some (IOError err) => Some err
      end
  end.

Definition physical_lines (content : string) : list string :=
  let pieces := Split content newline in
  if String.eqb (List.last pieces EmptyString) EmptyString
  then removelast pieces else pieces.

Definition open_database (w : World) (databaseUrl searchPath : string)
  : T (Conn + error) :=
  let* _ := emit (EvOpenDatabase databaseUrl searchPath) in
  ret (OpenDatabase w databaseUrl searchPath).

Definition rowsInTable (w : World) (databaseUrl searchPath table : string)
  : T (Z * option error) :=
  let* c := open_database w databaseUrl searchPath in
  match c with
  | inr err => ret (0, Some err)
  | inl db =>
      let sql := "select count(*) as count from " +:+ table in
      let* _ := emit (EvQuery sql) in
      match db_QueryRow_Scan w db sql with
      | inr err =>
          ret (0, Some ("Can't get count of table `" +:+ table +:+ "` (search_path `"
                        +:+ searchPath +:+ "`): " +:+ err))
      | inl count => ret (count, None)
      end
  end.

Definition analyze (w : World) (databaseUrl schema table : string) : T (option error) :=
  let* c := open_database w databaseUrl EmptyString in
  match c with
  | inr err => ret (Some err)
  | inl db =>
      let sql := "VACUUM FREEZE ANALYZE " +:+ schema +:+ "." +:+ table in
      let* _ := emit (EvExec sql) in
      match db_Exec w db sql with
      | Some err => ret (Some ("Error executing `" +:+ sql +:+ "`: " +:+ err))
      | None => ret None
      end
  end.

(** ** One table *)

Inductive WaitGroup := waitGroup.

Record CopyCommandArgs := {
  DatabaseUrl : string;
  SearchPath : string;
  Table : string;
  CsvFile : string;
  WaitGroup_ : WaitGroup;
}.

(** The shell command line of the copy. *)
Definition copyCmdStr (connectionString primarySchema table columns csvFile : string)
  : string :=
  "psql " +:+ dquote +:+ connectionString +:+ dquote +:+ " -c " +:+ dquote
  +:+ "\COPY " +:+ primarySchema +:+ "." +:+ table +:+ "(" +:+ columns
  +:+ ") FROM '" +:+ csvFile
  +:+ "' (FORMAT csv, HEADER true, ENCODING 'utf-8', FORCE_NULL(" +:+ columns +:+ "))"
  +:+ dquote.

(** The message of a failed row-count check. *)
Definition rowCountError (primarySchema table : string) (actualRows expectedRows : Z)
  : error :=
  "Number of rows in " +:+ primarySchema +:+ "." +:+ table +:+ " ("
  +:+ itoa actualRows +:+ ") does not equal the number of lines ("
  +:+ itoa expectedRows +:+ ") in the input file".

Definition copyCommand (w : World) (databaseUrl searchPath table csvFile : string)
    (wg : WaitGroup) : T (option error) :=
  let* _ := log Info ("Loading " +:+ table +:+ " (search_path: " +:+ searchPath +:+ ")") in
  let* (columnNames, err) := columnNamesFromCsvFile w csvFile in
  match err with
  | Some err => ret (Some err)
  | None =>
  let* _ := emit (EvLookPath "psql") in
  match exec_LookPath w "psql" with
  | inr _ => ret (Some "`psql` binary must be in PATH")
  | inl _ =>
  let columns := Join columnNames ", " in
  match pq_ParseURL w databaseUrl with
  | inr _ => ret (Some ("Invalid database URL: " +:+ databaseUrl))
  | inl connectionString =>
  match primarySchemaInSearchPath w searchPath with
  | (_, Some err) => ret (Some err)
  | (primarySchema, None) =>
  let cmdStr := copyCmdStr connectionString primarySchema table columns csvFile in
  let* _ := emit (EvRun cmdStr) in
  match sh_Run w cmdStr with
  | Some (err, e) =>
      ret (Some ("Error running command with `sh -c`: " +:+ cmdStr +:+ " (STDERR: "
                 +:+ err +:+ ")%!(EXTRA string=" +:+ e +:+ ")"))
  | None =>
  let* (actualRows, err) := rowsInTable w databaseUrl searchPath table in
  match err with
  | Some err =>
      ret (Some ("Load for " +:+ primarySchema +:+ "." +:+ table
                 +:+ " nominally worked, but counting the number of rows failed: "
                 +:+ err))
  | None =>
  let* (expectedRows, err) := rowsInFile w csvFile in
  let expectedRows := int_wrap (expectedRows - 1) in
  match err with
  | Some err =>
      ret (Some ("Load for " +:+ primarySchema +:+ "." +:+ table
                 +:+ " nominally worked, but counting the number of lines in the csv file failed: "
                 +:+ err))
  | None =>
  if negb (actualRows =? expectedRows)
  then
    let err := rowCountError primarySchema table actualRows expectedRows in
    let* _ := log Error ("In copyCommand: " +:+ err) in
    ret (Some err)
  else
    let* _ := log Info ("Loaded " +:+ itoa actualRows +:+ " rows into "
                        +:+ primarySchema +:+ "." +:+ table) in
    let* _ := log Info ("Vacuuming " +:+ primarySchema +:+ "." +:+ table) in
    let* _ := analyze w databaseUrl primarySchema table in
    ret None
  end end end end end end end.

(** *** Notions used in the statements *)

(** The steps of [copyCommand] up to the end of the copy subprocess all
    went well; [primarySchema] is the schema it loads into and [cmdStr]
    the command line it ran. *)
Definition copySucceeds (w : World) (databaseUrl searchPath table csvFile : string)
    (primarySchema cmdStr : string) : Prop :=
  exists reader columnNames path connectionString,
    os_Open w csvFile = inl reader
    /\ csv_Read w reader = inl columnNames
    /\ exec_LookPath w "psql" = inl path
    /\ pq_ParseURL w databaseUrl = inl connectionString
    /\ primarySchemaInSearchPath w searchPath = (primarySchema, None)
    /\ cmdStr = copyCmdStr connectionString primarySchema table
                  (Join columnNames ", ") csvFile
    /\ sh_Run w cmdStr = None.

Definition countSql (table : string) : string :=
  "select count(*) as count from " +:+ table.

Definition vacuumSql (primarySchema table : string) : string :=
  "VACUUM FREEZE ANALYZE " +:+ primarySchema +:+ "." +:+ table.

Definition psqlMissing : error := "`psql` binary must be in PATH".

(** What [copyCommand] does once both counts are there. *)
Definition verdict (w : World) (databaseUrl primarySchema table : string)
    (actualRows expectedRows : Z) : T (option error) :=
  if negb (actualRows =? expectedRows)
  then
    (Some (rowCountError primarySchema table actualRows expectedRows),
     [EvLog Error ("In copyCommand: "
                   +:+ rowCountError primarySchema table actualRows expectedRows)])
  else
    (None,
     [EvLog Info ("Loaded " +:+ itoa actualRows +:+ " rows into "
                  +:+ primarySchema +:+ "." +:+ table);
      EvLog Info ("Vacuuming " +:+ primarySchema +:+ "." +:+ table)]
     ++ snd (analyze w databaseUrl primarySchema table))%list.

(** The events of a task before it starts the copy. *)
Definition before_copy (e : Event) : bool :=
  match e with
  | EvLog _ _ | EvOpenFile _ | EvLookPath _ => true
  | _ => false
  end.

(** ** The worker pool *)

(** The receiver of [load], as far as [load] reads it. *)
Record Database := {
  Database_DatabaseUrl : string;
  Database_SearchPath : string;
}.

(** [datadirectory.DataDirectory] *)
Record DataDirectory := {
  RecordMaps : list (gmap string string);
  DirPath : string;
}.

(** [m[key]] on a Go map: the empty string for a missing key. *)
Definition map_get (m : gmap string string) (key : string) : string :=
  default EmptyString (m !! key).

(** How a run ends: [load] returns, or every goroutine is blocked. *)
Inductive Outcome :=
| Returned (err : option error)
| Deadlock.

(** The capacity of the [taskErrors] channel. *)
Definition taskErrorsCap : nat := 100.

Definition numJobsError : error :=
  "DATABASE_LOAD_JOBS environment variable has invalid positive integer".

(** The number of workers: 4, or what [DATABASE_LOAD_JOBS] says. *)
Definition numJobs (w : World) : Z * option error :=
  let numJobsStr := os_Getenv w "DATABASE_LOAD_JOBS" in
  if negb (String.eqb numJobsStr EmptyString)
  then match strconv_Atoi w numJobsStr with
       | inr _ => (0, Some numJobsError)
       | inl n => if negb (0 <? n) then (n, Some numJobsError) else (n, None)
       end
  else (4, None).

(** The tasks put on the [tasks] channel, in manifest order. *)
Definition loadTasks (w : World) (d : Database) (datadirectory : DataDirectory)
  : list CopyCommandArgs :=
  map (fun m =>
         {| DatabaseUrl := Database_DatabaseUrl d;
            SearchPath := Database_SearchPath d;
            Table := map_get m "table";
            CsvFile := path_Join w (DirPath datadirectory) (map_get m "filename");
            WaitGroup_ := waitGroup |})
      (RecordMaps datadirectory).

(** The workers: every task is taken once and run by [copyCommand]; the
    errors reach the [taskErrors] channel in the order the tasks finish.
    [finished] gives that order, as positions in the task list; the events
    of one task are kept together in the trace. *)
Fixpoint runWorkers (w : World) (tasks : list CopyCommandArgs) (finished : list nat)
  : T (list error) :=
  match finished with
  | [] => ret []
  | i :: rest =>
      let* err :=
        match nth_error tasks i with
        | Some args =>
            copyCommand w (DatabaseUrl args) (SearchPath args) (Table args)
              (CsvFile args) (WaitGroup_ args)
        | None => ret None
        end in
      let* errs := runWorkers w tasks rest in
      ret (match err with Some e => e :: errs | None => errs end)
  end.

Fixpoint masterError_loop (taskErrors : list error) (masterError : string) : string :=
  match taskErrors with
  | [] => masterError
  | err :: rest => masterError_loop rest (masterError +:+ err +:+ newline)
  end.

(** [load].  A worker that finds the [taskErrors] channel full waits for
    a receiver, and there is none before all workers are done: with more
    errors than the channel holds the run never returns. *)
Definition load (w : World) (d : Database) (datadirectory : DataDirectory)
    (finished : list nat) : T Outcome :=
  match numJobs w with
  | (_, Some err) => ret (Returned (Some err))
  | (_, None) =>
      let* taskErrors := runWorkers w (loadTasks w d datadirectory) finished in
      if (taskErrorsCap <? length taskErrors)%nat
      then ret Deadlock
      else
        let masterError := masterError_loop taskErrors EmptyString in
        let masterError :=
          if negb (String.eqb masterError EmptyString)
          then masterError +:+ newline else masterError in
        if negb (String.eqb masterError EmptyString)
        then ret (Returned (Some (fmt_Errorf w masterError)))
        else ret (Returned None)
  end.

(** The exported [Load]. *)
Definition Load_ (w : World) (d : Database) (dataDirectory : DataDirectory)
    (finished : list nat) : T Outcome :=
  load w d dataDirectory finished.

(** ** Notions used in further statements *)

(** Events that only write to the log. *)
Definition is_log (e : Event) : bool :=
  match e with
  | EvLog _ _ => true
  | _ => false
  end.

(** [copyCommand] on the arguments of a task. *)
Definition runTask (w : World) (args : CopyCommandArgs) : T (option error) :=
  copyCommand w (DatabaseUrl args) (SearchPath args) (Table args) (CsvFile args)
    (WaitGroup_ args).

(** ** Version shorthand *)

Definition versionToShorthand (version : string) : result (string * option error) :=
  let parts := Split version "." in
  if negb (length parts =? 2)%nat && negb (length parts =? 3)%nat
  then Ok (EmptyString,
           Some ("Version string must be like X.Y or X.Y.Z, not '" +:+ version +:+ "'"))
  else
    bind_result (index_slice parts 0) (fun p0 =>
    bind_result (index_slice parts 1) (fun p1 =>
    Ok (p0 +:+ p1, None))).

Definition databaseName (modelVersion : string) : result (string * option error) :=
  bind_result (versionToShorthand modelVersion) (fun '(shortVersion, err) =>
  match err with
  | Some err => Ok (shortVersion, Some err)
  | None => Ok ("pedsnet_dcc_v" +:+ shortVersion, None)
  end).

End Load.

(** * A regular-expression engine for the examples

    The theorems below hold for every implementation of [RegexpLib].  The
    examples run the program on concrete statements, with this backtracking
    matcher for the part of the syntax the patterns of [database.go] use:
    literals, [.], [\w], [\d], escaped punctuation, [*], [+], [?], [|],
    [^], [$], capturing groups and [(?:...)].  The first match from the
    left is returned, with greedy repetition. *)

Module MiniRE.

Inductive re :=
| Empty
| Lit (c : ascii)
| AnyChar
| Word
| Digit
| Bol
| Eol
| Seq (r1 r2 : re)
| Alt (r1 r2 : re)
| Star (r : re)
| Plus (r : re)
| Opt (r : re)
| Group (n : nat) (r : re).

Definition between (lo hi : nat) (c : ascii) : bool :=
  let n := nat_of_ascii c in ((lo <=? n) && (n <=? hi))%nat.

Definition is_digit (c : ascii) : bool := between 48 57 c.

Definition is_word (c : ascii) : bool :=
  is_digit c || between 65 90 c || between 97 122 c || (nat_of_ascii c =? 95)%nat.

Definition is_punct (c : ascii) : bool :=
  between 33 47 c || between 58 64 c || between 91 96 c || between 123 126 c.

(** Positions where each group began and ended, latest first. *)
Definition caps : Type := list (nat * (nat * nat)).

Definition one (p : ascii -> bool) (s : list ascii) (pos : nat) (cs : caps)
    (k : list ascii -> nat -> caps -> option caps) : option caps :=
  match s with
  | c :: s' => if p c then k s' (S pos) cs else None
  | [] => None
  end.

Definition or_else (a : option caps) (b : unit -> option caps) : option caps :=
  match a with
  | Some c => Some c
  | None => b tt
  end.

Fixpoint run (r : re) (s : list ascii) (pos : nat) (cs : caps)
    (k : list ascii -> nat -> caps -> option caps) {struct r} : option caps :=
  let repeat (body : re) :=
    fix star (fuel : nat) (s : list ascii) (pos : nat) (cs : caps) : option caps :=
      match fuel with
      | O => k s pos cs
      | S f =>
          or_else
            (run body s pos cs
               (fun s' pos' cs' =>
                  if (length s' <? length s)%nat then star f s' pos' cs' else None))
            (fun _ => k s pos cs)
      end in
  match r with
  | Empty => k s pos cs
  | Lit c => one (Ascii.eqb c) s pos cs k
  | AnyChar => one (fun c => negb (Ascii.eqb c LF)) s pos cs k
  | Word => one is_word s pos cs k
  | Digit => one is_digit s pos cs k
  | Bol => if (pos =? 0)%nat then k s pos cs else None
  | Eol => match s with [] => k s pos cs | _ => None end
  | Seq r1 r2 => run r1 s pos cs (fun s' pos' cs' => run r2 s' pos' cs' k)
  | Alt r1 r2 => or_else (run r1 s pos cs k) (fun _ => run r2 s pos cs k)
  | Star body => repeat body (length s) s pos cs
  | Plus body =>
      run body s pos cs (fun s' pos' cs' => repeat body (length s') s' pos' cs')
  | Opt body => or_else (run body s pos cs k) (fun _ => k s pos cs)
  | Group n body =>
      run body s pos cs (fun s' pos' cs' => k s' pos' ((n, (pos, pos')) :: cs'))
  end.

(** The first start position, from the left, at which [r] matches. *)
Fixpoint search (r : re) (s : list ascii) (pos : nat) : option caps :=
  match run r s pos [] (fun _ pos' cs => Some ((O, (pos, pos')) :: cs)) with
  | Some cs => Some cs
  | None =>
      match s with
      | [] => None
      | _ :: s' => search r s' (S pos)
      end
  end.

Fixpoint lookup_cap (cs : caps) (n : nat) : option (nat * nat) :=
  match cs with
  | [] => None
  | (m, span) :: rest => if (m =? n)%nat then Some span else lookup_cap rest n
  end.

Definition cap_text (s : string) (cs : caps) (n : nat) : string :=
  match lookup_cap cs n with
  | Some (b, e) => take (e - b) (drop b s)
  | None => EmptyString
  end.

(** A compiled pattern: the expression and the number of its groups. *)
Record compiled := {
  expr : re;
  NumSubexp : nat;
}.

Definition find (c : compiled) (s : string) : option (list string) :=
  match search (expr c) (list_ascii_of_string s) O with
  | Some cs => Some (map (cap_text s cs) (seq 0 (S (NumSubexp c))))
  | None => None
  end.

(** *** Parsing a pattern *)

Definition parsed : Type := re * list ascii * nat.

Definition parse_atom (alt : list ascii -> nat -> option parsed)
    (s : list ascii) (g : nat) : option parsed :=
  match s with
  | "("%char :: "?"%char :: ":"%char :: s' =>
      match alt s' g with
      | Some (r, ")"%char :: s'', g') => Some (r, s'', g')
      | _ => None
      end
  | "("%char :: s' =>
      match alt s' (S g) with
      | Some (r, ")"%char :: s'', g') => Some (Group (S g) r, s'', g')
      | _ => None
      end
  | "\"%char :: c :: s' =>
      if Ascii.eqb c "w" then Some (Word, s', g)
      else if Ascii.eqb c "d" then Some (Digit, s', g)
      else if is_punct c then Some (Lit c, s', g)
      else None
  | "."%char :: s' => Some (AnyChar, s', g)
  | "^"%char :: s' => Some (Bol, s', g)
  | "$"%char :: s' => Some (Eol, s', g)
  | c :: s' =>
      if existsb (Ascii.eqb c) ["*"; "+"; "?"; ")"; "|"; "["; "]"; "{"; "}"; "\"]%char
      then None
      else Some (Lit c, s', g)
  | [] => None
  end.

Fixpoint postfix (r : re) (s : list ascii) : re * list ascii :=
  match s with
  | "*"%char :: s' => postfix (Star r) s'
  | "+"%char :: s' => postfix (Plus r) s'
  | "?"%char :: s' => postfix (Opt r) s'
  | _ => (r, s)
  end.

Fixpoint parse_alt (fuel : nat) (s : list ascii) (g : nat) {struct fuel}
  : option parsed :=
  match fuel with
  | O => None
  | S f =>
      let fix parse_seq (n : nat) (s : list ascii) (g : nat) {struct n}
        : option parsed :=
        match n with
        | O => None
        | S n' =>
            match s with
            | [] => Some (Empty, s, g)
            | c :: _ =>
                if Ascii.eqb c ")" || Ascii.eqb c "|"
                then Some (Empty, s, g)
                else
                  match parse_atom (parse_alt f) s g with
                  | None => None
                  | Some (r, s1, g1) =>
                      let '(r, s2) := postfix r s1 in
                      match parse_seq n' s2 g1 with
                      | Some (r2, s3, g3) => Some (Seq r r2, s3, g3)
                      | None => None
                      end
                  end
            end
        end in
      match parse_seq fuel s g with
      | Some (r1, "|"%char :: s1, g1) =>
          match parse_alt f s1 g1 with
          | Some (r2, s2, g2) => Some (Alt r1 r2, s2, g2)
          | None => None
          end
      | other => other
      end
  end.

Definition compile (pat : string) : compiled + error :=
  let s := list_ascii_of_string pat in
  match parse_alt (S (length s)) s O with
  | Some (r, [], g) => inl {| expr := r; NumSubexp := g |}
  | _ => inr ("error parsing regexp: `" +:+ pat +:+ "`")
  end.

End MiniRE.

#[export] Instance miniRegexp : RegexpLib := {|
  Regexp := MiniRE.compiled;
  Compile := MiniRE.compile;
  quote := fun s => "`" +:+ s +:+ "`";
  FindStringSubmatch := MiniRE.find;
  MatchString := fun re s => match MiniRE.find re s with Some _ => true | None => false end;
|}.


(** * A small world for the examples *)

Module Example.

(** An engine that keeps the statements applied so far and refuses one
    it has applied already. *)
#[export] Instance listEngine : SqlEngine := {|
  Store := list string;
  sql_exec := fun s q =>
    if existsb (String.eqb q) s
    then inr ("relation already exists: " +:+ q)
    else inl (s ++ [q])%list;
|}.

Definition compiled (pat : string) : MiniRE.compiled :=
  match MiniRE.compile pat with
  | inl c => c
  | inr _ => {| MiniRE.expr := MiniRE.Empty; MiniRE.NumSubexp := 0 |}
  end.

(** A schema service with the given pages; every other address is not
    found. *)
Definition service (pages : list (string * string)) : World := {|
  http_Get := fun url =>
    match List.find (fun p => String.eqb (fst p) url) pages with
    | Some p => inl {| StatusCode := 200; ReadAll_Body := inl (snd p) |}
    | None => inl {| StatusCode := 404; ReadAll_Body := inl EmptyString |}
    end;
  http_StatusText := fun code => if code =? 404 then "Not Found" else "OK";
  url_Parse_Scheme := fun _ => inl "postgres";
  sql_Open := fun _ url => inl {| dsn := url |};
  db_Ping := fun _ => None;
  db_Begin := fun _ => None;
  tx_Commit := None;
|}.

Definition tablesUrl : string := "http://dmsa/pedsnet/2.2.0/ddl/postgresql/tables/".

(** Five statements, the third repeating the first. *)
Definition tablesDdl : string :=
  "CREATE TABLE person (id INT);
CREATE TABLE visit (id INT);
CREATE TABLE person (id INT);
CREATE TABLE concept (id INT);
CREATE TABLE version_history (dms_version VARCHAR(16))".

Definition world : World := service [(tablesUrl, tablesDdl)].

Definition database (include exclude : option MiniRE.compiled) : Database := {|
  Model := "pedsnet";
  ModelVersion := "2.2.0";
  DatabaseUrl := "postgres://localhost/dcc";
  Schema := EmptyString;
  DmsaUrl := "http://dmsa/";
  db := Some {| dsn := "postgres://localhost/dcc" |};
  driverName := "postgres";
  includeTables := include;
  excludeTables := exclude;
|}.

Definition createTablesPatterns : patternsType :=
  normalPatterns {| table := "CREATE TABLE.* (\w+) \(" |}.

Definition start : Proc := {|
  committed := [];
  pending := None;
  execd := [];
  stdout := [];
  stderr := [];
  cachedIsValidVersion := None;
|}.

(** *** A load *)

Definition personCsv : string := "id,name
1,Ann
2,Bob
".

Definition loadWorld (psqlFound : bool) (rows : Z) (vacuumFails : bool) : Load.World := {|
  Load.os_Open := fun name =>
    if String.eqb name "/data/person.csv"
    then inl [ {| Load.data := personCsv; Load.rerr := None |};
               {| Load.data := EmptyString; Load.rerr := Some Load.EOF |} ]
    else inr ("open " +:+ name +:+ ": no such file or directory");
  Load.csv_Read := fun _ => inl ["id"; "name"];
  Load.exec_LookPath := fun file =>
    if psqlFound then inl ("/usr/bin/" +:+ file)
    else inr ("exec: " +:+ file +:+ ": executable file not found in $PATH");
  Load.pq_ParseURL := fun _ => inl "dbname=dcc host=localhost";
  Load.primarySchemaInSearchPath := fun searchPath =>
    (List.hd EmptyString (Split searchPath ","), None);
  Load.sh_Run := fun _ => None;
  Load.OpenDatabase := fun url searchPath =>
    inl {| Load.conn_url := url; Load.conn_searchPath := searchPath |};
  Load.db_QueryRow_Scan := fun _ _ => inl rows;
  Load.db_Exec := fun _ _ => if vacuumFails then Some "disk full" else None;
  Load.os_Getenv := fun _ => EmptyString;
  Load.strconv_Atoi := fun _ => inr "invalid syntax";
  Load.path_Join := fun dir name => dir +:+ "/" +:+ name;
  Load.fmt_Errorf := fun format => format;
|}.

Definition vocabulary : MiniRE.compiled := compiled pedsnetVocabTablesPat.

Definition url : string := "postgres://localhost/dcc".
Definition csv : string := "/data/person.csv".

Definition personReader : Load.Reader :=
  [ {| Load.data := personCsv; Load.rerr := None |};
    {| Load.data := EmptyString; Load.rerr := Some Load.EOF |} ].

Definition personCmd : string :=
  Load.copyCmdStr "dbname=dcc host=localhost" "dcc" "person" "id, name" csv.

(** *** Indexes *)

Definition indexesUrl : string := "http://dmsa/pedsnet/2.2.0/ddl/postgresql/indexes/".

Definition dropIndexesUrl : string := "http://dmsa/pedsnet/2.2.0/drop/postgresql/indexes/".

Definition indexesDdl : string :=
  "CREATE INDEX idx_person_id ON person (id);
CREATE INDEX idx_concept_code ON concept (code)".

Definition dropIndexesSql : string :=
  "DROP INDEX idx_person_id;
DROP INDEX idx_concept_code".

(** The drops of a later release, with an index the creation page does
    not have. *)
Definition staleDropIndexesSql : string :=
  "DROP INDEX idx_person_id;
DROP INDEX idx_concept_code;
DROP INDEX idx_visit_id".

(** A schema service that answers at its root and has the table and
    index pages. *)
Definition indexWorld (drops : string) : World :=
  service [("http://dmsa/", "data-models-sqlalchemy"); (tablesUrl, tablesDdl);
           (indexesUrl, indexesDdl); (dropIndexesUrl, drops)].

Definition dropIndexesPatterns : mapPatternsType :=
  {| tableCreate := " ON (\w+) \(";
     entityCreate := "CREATE INDEX (\w+) ON";
     entityDrop := "DROP INDEX (\w+)" |}.

Definition tableOfIndex : MiniRE.compiled := compiled " ON (\w+) \(".
Definition createdIndex : MiniRE.compiled := compiled "CREATE INDEX (\w+) ON".
Definition droppedIndex : MiniRE.compiled := compiled "DROP INDEX (\w+)".

(** The map the creation page gives. *)
Definition indexTables : gmap string string :=
  <["idx_concept_code" := "concept"]> (<["idx_person_id" := "person"]> ∅).

(** A database value without a connection. *)
Definition dryDatabase : Database := {|
  Model := "pedsnet";
  ModelVersion := "2.2.0";
  DatabaseUrl := "postgres://localhost/dcc";
  Schema := "dcc";
  DmsaUrl := "http://dmsa/";
  db := None;
  driverName := "postgres";
  includeTables := Some (compiled "^person$");
  excludeTables := None;
|}.

(** The process after a first successful [Open]. *)
Definition opened : Proc := {|
  committed := [];
  pending := None;
  execd := [];
  stdout := [];
  stderr := [];
  cachedIsValidVersion := Some true;
|}.

(** The person file, cut elsewhere. *)
Definition personReader' : Load.Reader :=
  [ {| Load.data := "id,name
1,An"; Load.rerr := None |};
    {| Load.data := "n
2,Bob
"; Load.rerr := Some Load.EOF |} ].

(** The person file on a failing disk. *)
Definition brokenReader : Load.Reader :=
  [ {| Load.data := "id,name
1,Ann"; Load.rerr := None |};
    {| Load.data := "
2,B"; Load.rerr := Some (Load.IOError "read /data/person.csv: input/output error") |} ].

(** A manifest with the person file and a file that is not there. *)
Definition manifest : Load.DataDirectory := {|
  Load.RecordMaps := [ {[ "table" := "person"; "filename" := "person.csv" ]};
                       {[ "table" := "visit"; "filename" := "visit.csv" ]} ];
  Load.DirPath := "/data";
|}.

End Example.

(** * Facts about the string functions *)

#[local] Arguments String.append !s1 s2 : simpl nomatch.

Section StringFacts.

Lemma HasPrefix_nil (s : string) : HasPrefix s EmptyString = true.
Proof. destruct s; reflexivity. Qed.

Lemma HasPrefix_cons (c d : ascii) (s p : string) :
  HasPrefix (String c s) (String d p) = true <-> d = c /\ HasPrefix s p = true.
Proof.
  unfold HasPrefix; simpl.
  destruct (ascii_dec d c) as [->|Hne].
  - tauto.
  - split; [discriminate | intros [Hd _]; contradiction].
Qed.

Lemma HasPrefix_iff (s p : string) :
  HasPrefix s p = true <-> exists r, s = (p +:+ r)%string.
Proof.
  revert s. induction p as [|d p IH]; intros s.
  - rewrite HasPrefix_nil. split; [exists s; reflexivity | reflexivity].
  - destruct s as [|c s].
    + split; [discriminate | intros [r Hr]; discriminate].
    + rewrite HasPrefix_cons, IH. split.
      * intros [-> [r ->]]. exists r. reflexivity.
      * intros [r Hr]. simpl in Hr. injection Hr as -> ->. eauto.
Qed.

Lemma append_assoc (a b c : string) : ((a +:+ b) +:+ c = a +:+ (b +:+ c))%string.
Proof. induction a; simpl; congruence. Qed.

Lemma append_nil_r (a : string) : (a +:+ EmptyString = a)%string.
Proof. induction a; simpl; congruence. Qed.

Lemma index_from_unfold (sub s : string) :
  index_from sub s =
  if HasPrefix s sub then Some O
  else match s with
       | EmptyString => None
       | String _ s' => option_map S (index_from sub s')
       end.
Proof. destruct s; reflexivity. Qed.

Lemma index_from_is_Some (sub s : string) :
  is_Some (index_from sub s) <-> exists a b, s = (a +:+ sub +:+ b)%string.
Proof.
  split.
  - induction s as [|c s IH]; rewrite index_from_unfold.
    + destruct (HasPrefix EmptyString sub) eqn:E; [|intros [? [=]]].
      intros _. apply HasPrefix_iff in E as [r ->]. exists EmptyString, r.
      reflexivity.
    + destruct (HasPrefix (String c s) sub) eqn:E.
      * intros _. apply HasPrefix_iff in E as [r ->]. exists EmptyString, r.
        reflexivity.
      * intros H. destruct (index_from sub s); [|destruct H; discriminate].
        destruct IH as (a & b & ->); [eauto|]. exists (String c a), b.
        reflexivity.
  - intros (a & b & ->). induction a as [|c a IH]; rewrite index_from_unfold.
    + assert (E : HasPrefix (sub +:+ b) sub = true) by (apply HasPrefix_iff; eauto).
      simpl. rewrite E. eauto.
    + destruct (HasPrefix _ sub); [eauto|].
      simpl. destruct IH as [i ->]. simpl. eauto.
Qed.

(** [index_from] finds the first occurrence. *)
Lemma index_from_least (sub s a b : string) (i : nat) :
  index_from sub s = Some i -> s = (a +:+ sub +:+ b)%string -> (i <= String.length a)%nat.
Proof.
  revert i a. induction s as [|c s IH]; intros i a; rewrite index_from_unfold.
  - destruct (HasPrefix EmptyString sub); [intros [= <-]; lia | discriminate].
  - destruct (HasPrefix (String c s) sub) eqn:E; [intros [= <-]; lia|].
    destruct (index_from sub s) as [j|]; [|discriminate].
    intros [= <-] Hs. destruct a as [|x a].
    + assert (HasPrefix (String c s) sub = true) by (apply HasPrefix_iff; eauto).
      congruence.
    + simpl in Hs. injection Hs as _ Hs. specialize (IH j a eq_refl Hs). simpl. lia.
Qed.

Lemma Contains_iff (s sub : string) :
  Contains s sub = true <-> exists a b, s = (a +:+ sub +:+ b)%string.
Proof.
  rewrite <- index_from_is_Some. unfold Contains, Index.
  destruct (index_from sub s) as [i|].
  - split; [eauto | intros _; apply Z.leb_le; lia].
  - split; [discriminate | intros [x [=]]].
Qed.

Lemma Contains_false_cons (c : ascii) (s sub : string) :
  Contains (String c s) sub = false ->
  HasPrefix (String c s) sub = false /\ Contains s sub = false.
Proof.
  unfold Contains, Index. rewrite index_from_unfold.
  destruct (HasPrefix (String c s) sub); [simpl; discriminate|].
  destruct (index_from sub s) as [i|]; simpl option_map; cbv iota.
  - intros H. apply Z.leb_gt in H. lia.
  - auto.
Qed.

(** Without a separator in it the string is the only piece. *)
Lemma Split_no_sep (s sep : string) :
  sep <> EmptyString -> Contains s sep = false -> Split s sep = [s].
Proof.
  intros Hsep. unfold Split. destruct sep as [|d sep]; [congruence|].
  induction s as [|c s IH]; intros H; [reflexivity|].
  apply Contains_false_cons in H as [Hp Hc].
  change (split_go (String d sep) 0 (String c s))
    with (if HasPrefix (String c s) (String d sep)
          then EmptyString :: split_go (String d sep) (String.length (String d sep) - 1) s
          else match split_go (String d sep) O s with
               | p :: ps => String c p :: ps
               | [] => [String c EmptyString]
               end).
  rewrite Hp, (IH Hc). reflexivity.
Qed.

Lemma split_go_nonempty (sep : string) (k : nat) (s : string) :
  split_go sep k s <> [].
Proof.
  revert k. induction s as [|c s IH]; intros k; [discriminate|].
  destruct k; [|apply IH].
  change (split_go sep 0 (String c s))
    with (if HasPrefix (String c s) sep
          then EmptyString :: split_go sep (String.length sep - 1) s
          else match split_go sep O s with
               | p :: ps => String c p :: ps
               | [] => [String c EmptyString]
               end).
  destruct (HasPrefix _ sep); [discriminate|].
  destruct (split_go sep 0 s); discriminate.
Qed.

Lemma replace_go_unfold (old new : string) (n : option nat) (c : ascii) (s : string) :
  replace_go old new n O (String c s) =
  match n with
  | Some O => String c s
  | _ =>
      if HasPrefix (String c s) old
      then (new +:+ replace_go old new (option_map Nat.pred n) (String.length old - 1) s)%string
      else String c (replace_go old new n O s)
  end.
Proof. reflexivity. Qed.

Lemma replace_go_done (old new : string) (k : nat) (s : string) :
  replace_go old new (Some O) k s = drop k s.
Proof.
  revert k. induction s as [|c s IH]; intros [|k]; try reflexivity.
  simpl. apply IH.
Qed.

Lemma drop_app (a b : string) : drop (String.length a) (a +:+ b) = b.
Proof. induction a; simpl; auto. Qed.

Lemma length_append (a b : string) :
  String.length (a +:+ b) = (String.length a + String.length b)%nat.
Proof. induction a; simpl; auto. Qed.

(** Where [old] does not occur, nothing is replaced. *)
Lemma Replace_absent (s old new : string) (n : Z) :
  Contains s old = false -> Replace s old new n = s.
Proof.
  unfold Replace. destruct old as [|d old]; [reflexivity|].
  generalize (if n <? 0 then None else Some (Z.to_nat n)). intros m.
  induction s as [|c s IH]; intros H; [reflexivity|].
  apply Contains_false_cons in H as [Hp Hc].
  rewrite replace_go_unfold, Hp, (IH Hc). destruct m as [[|m]|]; reflexivity.
Qed.

(** The first occurrence of [old], and only that one, is replaced. *)
Lemma Replace_first (pre post old new : string) :
  old <> EmptyString ->
  (forall a b, (pre +:+ old +:+ post = a +:+ old +:+ b)%string ->
               (String.length pre <= String.length a)%nat) ->
  Replace (pre +:+ old +:+ post) old new 1 = (pre +:+ new +:+ post)%string.
Proof.
  intros Hold. unfold Replace. destruct old as [|d old]; [congruence|].
  change (if 1 <? 0 then None else Some (Z.to_nat 1)) with (Some 1%nat).
  induction pre as [|c pre IH]; intros Hmin.
  - change (EmptyString +:+ String d old +:+ post)%string
      with (String d (old +:+ post)).
    rewrite replace_go_unfold.
    assert (E : HasPrefix (String d (old +:+ post)) (String d old) = true)
      by (apply HasPrefix_iff; exists post; reflexivity).
    rewrite E. simpl option_map. rewrite replace_go_done.
    replace (String.length (String d old) - 1)%nat with (String.length old)
      by (simpl; lia).
    rewrite drop_app. reflexivity.
  - change (String c pre +:+ String d old +:+ post)%string
      with (String c (pre +:+ String d old +:+ post)).
    rewrite replace_go_unfold.
    destruct (HasPrefix _ (String d old)) eqn:E.
    + apply HasPrefix_iff in E as [r Hr].
      specialize (Hmin EmptyString r Hr). simpl in Hmin. lia.
    + rewrite IH; [reflexivity|].
      intros a b Hab.
      enough (S (String.length pre) <= S (String.length a))%nat by lia.
      apply (Hmin (String c a) b). simpl. f_equal. exact Hab.
Qed.

Lemma append_cons (c : ascii) (a b : string) :
  (String c a +:+ b = String c (a +:+ b))%string.
Proof. reflexivity. Qed.

Lemma all_bytes_cons (p : ascii -> bool) (c : ascii) (s : string) :
  all_bytes p (String c s) = p c && all_bytes p s.
Proof. reflexivity. Qed.

Lemma trim_go_unfold (seqs : list string) (c : ascii) (s : string) :
  trim_go seqs O (String c s) =
  match space_prefix seqs (String c s) with
  | Some n => trim_go seqs (n - 1) s
  | None => String c s
  end.
Proof. reflexivity. Qed.

Lemma take_app (a b : string) : take (String.length a) (a +:+ b) = a.
Proof. induction a; simpl; [destruct b|]; congruence. Qed.

Lemma all_bytes_impl (p q : ascii -> bool) (s : string) :
  (forall c, p c = true -> q c = true) ->
  all_bytes p s = true -> all_bytes q s = true.
Proof.
  intros Hpq. induction s as [|c s IH]; simpl; [auto|].
  rewrite !andb_true_iff. intros [? ?]. auto.
Qed.

Lemma length_cons_pred (c : ascii) (s : string) :
  (String.length (String c s) - 1)%nat = String.length s.
Proof. simpl. lia. Qed.

Lemma space_prefix_spacey (seqs : list string) (c : ascii) (s : string) (n : nat) :
  high_seqs seqs = true ->
  space_prefix seqs (String c s) = Some n ->
  spacey c = true /\ all_bytes spacey (take (n - 1) s) = true.
Proof.
  intros Hseqs. unfold space_prefix. unfold spacey at 1.
  destruct (asciiSpace c) eqn:Ec.
  - intros [= <-]. auto.
  - destruct (find _ seqs) as [q|] eqn:Ef; [|discriminate].
    intros [= <-]. apply find_some in Ef as [Hin Hp].
    unfold high_seqs in Hseqs. rewrite forallb_forall in Hseqs.
    specialize (Hseqs q Hin). apply andb_true_iff in Hseqs as [Hne Hhigh].
    apply HasPrefix_iff in Hp as [r Hr].
    destruct q as [|d q]; [discriminate|].
    simpl in Hr. injection Hr as -> ->.
    simpl in Hhigh. apply andb_true_iff in Hhigh as [Hd Hq].
    rewrite length_cons_pred, take_app. split.
    { unfold high in Hd. unfold high. rewrite Hd. reflexivity. }
    apply (all_bytes_impl high); [|assumption].
    intros x Hx. unfold spacey. rewrite Hx. apply orb_true_r.
Qed.

(** What a trim removes is made of white-space bytes. *)
Lemma trim_go_decomp (seqs : list string) :
  high_seqs seqs = true ->
  forall s skip,
    all_bytes spacey (take skip s) = true ->
    exists w, s = (w +:+ trim_go seqs skip s)%string /\ all_bytes spacey w = true.
Proof.
  intros Hseqs. induction s as [|c s IH]; intros skip Hskip.
  - exists EmptyString. destruct skip; auto.
  - destruct skip as [|k].
    + rewrite trim_go_unfold.
      destruct (space_prefix seqs (String c s)) as [n|] eqn:E.
      * apply space_prefix_spacey in E as [Hc Hn]; [|assumption].
        destruct (IH _ Hn) as (w & Hw & Hall).
        exists (String c w). rewrite append_cons, all_bytes_cons, Hc, Hall, <- Hw.
        auto.
      * exists EmptyString. auto.
    + simpl in Hskip. apply andb_true_iff in Hskip as [Hc Hk].
      destruct (IH _ Hk) as (w & Hw & Hall).
      exists (String c w).
      change (trim_go seqs (S k) (String c s)) with (trim_go seqs k s).
      rewrite append_cons, all_bytes_cons, Hc, Hall, <- Hw. auto.
Qed.

(** An occurrence that starts with another byte survives the removal
    of white-space bytes in front of it. *)
Lemma occurrence_after_prefix (w t a m b : string) (c : ascii) :
  all_bytes spacey w = true ->
  spacey c = false ->
  (w +:+ t = a +:+ String c m +:+ b)%string ->
  exists a', t = (a' +:+ String c m +:+ b)%string.
Proof.
  intros Hw Hc. revert a. induction w as [|x w IH]; intros a H.
  - exists a. exact H.
  - simpl in Hw. apply andb_true_iff in Hw as [Hx Hw].
    destruct a as [|y a]; simpl in H; injection H as -> H.
    + congruence.
    + eauto.
Qed.

Lemma list_ascii_of_string_app (a b : string) :
  list_ascii_of_string (a +:+ b) = (list_ascii_of_string a ++ list_ascii_of_string b)%list.
Proof. induction a; simpl; congruence. Qed.

Lemma string_of_list_ascii_app (l1 l2 : list ascii) :
  string_of_list_ascii (l1 ++ l2) = (string_of_list_ascii l1 +:+ string_of_list_ascii l2)%string.
Proof. induction l1; simpl; congruence. Qed.

Lemma string_rev_app (a b : string) :
  string_rev (a +:+ b) = (string_rev b +:+ string_rev a)%string.
Proof.
  unfold string_rev.
  rewrite list_ascii_of_string_app, rev_app_distr, string_of_list_ascii_app.
  reflexivity.
Qed.

Lemma string_rev_involutive (s : string) : string_rev (string_rev s) = s.
Proof.
  unfold string_rev.
  rewrite list_ascii_of_string_of_list_ascii, rev_involutive.
  apply string_of_list_ascii_of_string.
Qed.

Lemma TrimLeftSpace_occurrence (a m b : string) (c : ascii) :
  spacey c = false ->
  exists a', TrimLeftSpace (a +:+ String c m +:+ b) = (a' +:+ String c m +:+ b)%string.
Proof.
  intros Hc. unfold TrimLeftSpace.
  destruct (trim_go_decomp unicodeSpace eq_refl (a +:+ String c m +:+ b) O eq_refl)
    as (w & Hw & Hall).
  apply (occurrence_after_prefix w _ a m b c Hall Hc). symmetry. exact Hw.
Qed.

Lemma TrimRightSpace_occurrence (a m b m' : string) (c : ascii) :
  string_rev m = String c m' ->
  spacey c = false ->
  exists b', TrimRightSpace (a +:+ m +:+ b) = (a +:+ m +:+ b')%string.
Proof.
  intros Hm Hc. unfold TrimRightSpace.
  set (s := (a +:+ m +:+ b)%string).
  destruct (trim_go_decomp (map string_rev unicodeSpace) eq_refl (string_rev s) O eq_refl)
    as (w & Hw & Hall).
  assert (Hs : string_rev s = (string_rev b +:+ String c m' +:+ string_rev a)%string).
  { unfold s. rewrite !string_rev_app, Hm, append_assoc. reflexivity. }
  rewrite Hs in Hw at 1.
  destruct (occurrence_after_prefix w _ _ _ _ c Hall Hc (eq_sym Hw)) as [a' Ha'].
  rewrite Ha', !string_rev_app, string_rev_involutive, <- Hm, string_rev_involutive.
  rewrite append_assoc. eauto.
Qed.

(** Trimming keeps every occurrence of a text that neither starts nor
    ends with a white-space byte. *)
Lemma TrimSpace_Contains (s m m' : string) (c d : ascii) :
  spacey c = false ->
  string_rev (String c m) = String d m' ->
  spacey d = false ->
  Contains s (String c m) = true ->
  Contains (TrimSpace s) (String c m) = true.
Proof.
  intros Hc Hrev Hd H. apply Contains_iff in H as (a & b & ->).
  unfold TrimSpace.
  destruct (TrimLeftSpace_occurrence a m b c Hc) as [a' ->].
  destruct (TrimRightSpace_occurrence a' (String c m) b m' d Hrev Hd) as [b' ->].
  apply Contains_iff. eauto.
Qed.

Lemma TrimSpace_version_history (s : string) :
  Contains s "version_history" = true ->
  Contains (TrimSpace s) "version_history" = true.
Proof. apply (TrimSpace_Contains s _ "rotsih_noisrev" "v" "y"); reflexivity. Qed.

End StringFacts.

Section Lines.

Lemma split_newline_unfold (c : ascii) (s : string) :
  split_go newline O (String c s) =
  if Ascii.eqb c LF then EmptyString :: split_go newline O s
  else match split_go newline O s with
       | p :: ps => String c p :: ps
       | [] => [String c EmptyString]
       end.
Proof.
  change (split_go newline 0 (String c s))
    with (if HasPrefix (String c s) newline
          then EmptyString :: split_go newline O s
          else match split_go newline O s with
               | p :: ps => String c p :: ps
               | [] => [String c EmptyString]
               end).
  assert (HasPrefix (String c s) newline = Ascii.eqb c LF) as ->; [|reflexivity].
  destruct (Ascii.eqb_spec c LF) as [->|Hne].
  - apply HasPrefix_cons. split; [reflexivity | apply HasPrefix_nil].
  - destruct (HasPrefix (String c s) newline) eqn:E; [|reflexivity].
    apply HasPrefix_cons in E as [E _]. congruence.
Qed.

Lemma split_newline_length (s : string) :
  Z.of_nat (length (split_go newline O s)) = 1 + Count s LF.
Proof.
  induction s as [|c s IH]; [reflexivity|].
  rewrite split_newline_unfold. simpl Count.
  destruct (Ascii.eqb c LF).
  - simpl length. lia.
  - destruct (split_go newline 0 s) eqn:E; simpl length in *; [|lia].
    exfalso. revert E. apply split_go_nonempty.
Qed.

Lemma split_newline_single (s : string) :
  split_go newline O s = [EmptyString] -> s = EmptyString.
Proof.
  destruct s as [|c s]; [reflexivity|].
  rewrite split_newline_unfold. destruct (Ascii.eqb c LF).
  - intros [= H]. exfalso. revert H. apply split_go_nonempty.
  - destruct (split_go newline 0 s); discriminate.
Qed.

Lemma split_newline_last (s : string) (d : ascii) :
  String.eqb (List.last (split_go newline O s) EmptyString) EmptyString =
  match s with
  | EmptyString => true
  | _ => Ascii.eqb (last_byte s d) LF
  end.
Proof.
  revert d. induction s as [|c s IH]; intros d; [reflexivity|].
  rewrite split_newline_unfold. simpl last_byte.
  specialize (IH c).
  destruct (Ascii.eqb c LF) eqn:Ec.
  - destruct (split_go newline 0 s) as [|p ps] eqn:E.
    { exfalso. revert E. apply split_go_nonempty. }
    change (List.last (EmptyString :: p :: ps) EmptyString)
      with (List.last (p :: ps) EmptyString).
    rewrite IH. destruct s; [simpl; exact (eq_sym Ec) | reflexivity].
  - destruct (split_go newline 0 s) as [|p ps] eqn:E.
    { exfalso. revert E. apply split_go_nonempty. }
    destruct ps as [|p' ps].
    + simpl List.last. simpl String.eqb.
      destruct s as [|c' s]; [simpl; auto|].
      rewrite <- IH. simpl List.last.
      destruct p; [|reflexivity].
      apply split_newline_single in E. discriminate.
    + change (List.last (String c p :: p' :: ps) EmptyString)
        with (List.last (p :: p' :: ps) EmptyString).
      rewrite IH. destruct s; [discriminate | reflexivity].
Qed.

(** The count of [lineCounter] is the number of physical lines. *)
Lemma physical_lines_count (s : string) :
  Z.of_nat (length (Load.physical_lines s)) =
  Count s LF + (if Ascii.eqb (last_byte s LF) LF then 0 else 1).
Proof.
  unfold Load.physical_lines, Split, newline. fold newline.
  rewrite (split_newline_last s LF).
  pose proof (split_newline_length s) as Hlen.
  assert (Hrm : forall l : list string, l <> [] ->
            Z.of_nat (length (removelast l)) = Z.of_nat (length l) - 1).
  { intros l Hl. destruct l as [|x l]; [congruence|].
    rewrite (app_removelast_last x Hl) at 2. rewrite length_app. simpl. lia. }
  destruct s as [|c s].
  - reflexivity.
  - destruct (Ascii.eqb (last_byte (String c s) LF) LF).
    + rewrite Hrm by apply split_go_nonempty. lia.
    + lia.
Qed.

End Lines.

(** C8.  Version-to-shorthand conversion: ["2.2"] and ["2.2.3"] both give
    ["22"], ["2"] and ["2.2.3.4"] are rejected with an error, and in
    general a version of two or three dot-separated components gives the
    first two concatenated while any other number of components is an
    error. *)
Theorem versionToShorthand_components :
  Load.versionToShorthand "2.2" = Ok ("22", None)
  /\ Load.versionToShorthand "2.2.3" = Ok ("22", None)
  /\ Load.versionToShorthand "2"
     = Ok (EmptyString, Some "Version string must be like X.Y or X.Y.Z, not '2'")
  /\ Load.versionToShorthand "2.2.3.4"
     = Ok (EmptyString, Some "Version string must be like X.Y or X.Y.Z, not '2.2.3.4'")
  /\ forall version,
       Load.versionToShorthand version =
       match Split version "." with
       | [x; y] | [x; y; _] => Ok ((x +:+ y)%string, None)
       | _ => Ok (EmptyString,
                  Some ("Version string must be like X.Y or X.Y.Z, not '"
                        +:+ version +:+ "'")%string)
       end.
Proof.
  repeat split.
  intros version. unfold Load.versionToShorthand.
  destruct (Split version ".") as [|x [|y [|z [|t l]]]]; reflexivity.
Qed.

Section C10.
Context `{RL : RegexpLib} `{SE : SqlEngine}.

Lemma versionMatchesMinorVersion_panics (version reference : string) :
  Contains version "." = false ->
  versionMatchesMinorVersion version reference
  = Panic "runtime error: index out of range [1] with length 1".
Proof.
  intros H. unfold versionMatchesMinorVersion.
  rewrite (Split_no_sep version "."); [reflexivity | discriminate | exact H].
Qed.

(** C10.  For the model alias [pedsnet-core] with no exclude pattern, and
    for [pedsnet-vocab] with no include pattern, a model version without
    a ["."] makes [Open] panic with an index out of range (index 1 of a
    slice of length 1) instead of returning an error; nothing else has
    happened by then. *)
Theorem Open_panics_on_single_component
    (w : World) (st : Proc)
    (modelVersion databaseUrl schema dmsaUrl includeTablesPat excludeTablesPat : string) :
  Contains modelVersion "." = false ->
  Open w "pedsnet-core" modelVersion databaseUrl schema dmsaUrl includeTablesPat "" st
  = (Panic "runtime error: index out of range [1] with length 1", st)
  /\ Open w "pedsnet-vocab" modelVersion databaseUrl schema dmsaUrl "" excludeTablesPat st
     = (Panic "runtime error: index out of range [1] with length 1", st).
Proof.
  intros H. unfold Open, warnMinorVersion, bind, lift.
  rewrite (versionMatchesMinorVersion_panics _ _ H). split; reflexivity.
Qed.
End C10.

(** C4, as the code has it.  [isValidModelVersion] reports the format error
    exactly when nothing is cached and the version does not have three
    dot-separated components: [X.Y.Z] passes the format check, [X.Y] and
    every other shape is rejected, and a cached answer is returned with no
    check at all. *)
Theorem isValidModelVersion_format (w : World) (cache : option bool)
    (model version dmsaUrl : string) :
  snd (fst (isValidModelVersion w cache model version dmsaUrl))
  = Some (versionFormatError version)
  <-> cache = None /\ length (Split version ".") <> 3%nat.
Proof.
  unfold isValidModelVersion.
  destruct cache as [b|].
  { simpl. split; [discriminate | intros [[=] _]]. }
  destruct (Nat.eqb_spec (length (Split version ".")) 3) as [E|E]; cbn [negb].
  - split; [|tauto]. intros H. exfalso. revert H. unfold versionFormatError.
    destruct (http_Get w dmsaUrl) as [r|e]; [|simpl; discriminate].
    destruct (negb (StatusCode r =? 200)); [simpl; discriminate|].
    destruct (http_Get w _) as [r'|e']; [|simpl; discriminate].
    destruct (negb (StatusCode r' =? 200)); discriminate.
  - simpl. tauto.
Qed.

Section Filtering.
Context `{RL : RegexpLib}.

Lemma rawDmsaSql_loop_map (stmts acc : list string) :
  rawDmsaSql_loop stmts acc = (acc ++ map kludge stmts)%list.
Proof.
  revert acc. induction stmts as [|s stmts IH]; intros acc; simpl.
  - rewrite app_nil_r. reflexivity.
  - rewrite IH, <- app_assoc. reflexivity.
Qed.

Lemma rawDmsaSql_fetched (w : World) (d : Database) (op operand : string)
    (response : Response) (body : string) :
  http_Get w (ddlUrl d op operand) = inl response ->
  StatusCode response = 200 ->
  ReadAll_Body response = inl body ->
  rawDmsaSql w d op operand = (map kludge (Split body ";"), None).
Proof.
  intros Hget Hcode Hbody. unfold rawDmsaSql.
  rewrite Hget, Hcode, Hbody. simpl negb. cbv iota.
  rewrite rawDmsaSql_loop_map. reflexivity.
Qed.

(** C9.  When the fetch succeeds, [rawDmsaSql] returns one statement per
    piece of the body split on [";"], in order.  For a piece that contains
    both ["version_history"] and ["CREATE TABLE"] the statement is the
    piece with the first occurrence of ["dms_version VARCHAR(16)"]
    rewritten to ["dms_version VARCHAR(50)"] (the piece itself when there
    is no occurrence); every other statement is exactly its piece. *)
Theorem rawDmsaSql_statements (w : World) (d : Database) (op operand : string)
    (response : Response) (body : string) :
  http_Get w (ddlUrl d op operand) = inl response ->
  StatusCode response = 200 ->
  ReadAll_Body response = inl body ->
  exists out,
    rawDmsaSql w d op operand = (out, None)
    /\ length out = length (Split body ";")
    /\ forall i piece,
         nth_error (Split body ";") i = Some piece ->
         exists stmt,
           nth_error out i = Some stmt
           /\ if Contains piece "version_history" && Contains piece "CREATE TABLE"
              then (Contains piece "dms_version VARCHAR(16)" = false -> stmt = piece)
                   /\ forall pre post,
                        piece = (pre +:+ "dms_version VARCHAR(16)" +:+ post)%string ->
                        (forall a b,
                           piece = (a +:+ "dms_version VARCHAR(16)" +:+ b)%string ->
                           (String.length pre <= String.length a)%nat) ->
                        stmt = (pre +:+ "dms_version VARCHAR(50)" +:+ post)%string
              else stmt = piece.
Proof.
  intros Hget Hcode Hbody. exists (map kludge (Split body ";")).
  split; [eapply rawDmsaSql_fetched; eassumption|].
  split; [apply length_map|].
  intros i piece Hi. exists (kludge piece).
  split; [rewrite nth_error_map, Hi; reflexivity|].
  unfold kludge.
  destruct (Contains piece "version_history"); [|reflexivity].
  destruct (Contains piece "CREATE TABLE"); [|reflexivity].
  simpl andb. cbv iota. split.
  - intros Hno. apply Replace_absent. exact Hno.
  - intros pre post -> Hmin. apply Replace_first; [discriminate|].
    intros a b Hab. apply (Hmin a b Hab).
Qed.

Lemma index_slice_1 {A} (l : list A) :
  (1 < length l)%nat -> exists a, index_slice l 1 = Ok a /\ nth_error l 1 = Some a.
Proof.
  destruct l as [|x [|y l]]; simpl; try lia. intros _. exists y. split; reflexivity.
Qed.

Lemma shouldInclude_lifecycle (d : Database) (pattern : Regexp)
    (emap : option (gmap string string)) (stmt : string) (err : option error) :
  Contains stmt "version_history" = true ->
  shouldInclude d pattern emap stmt err = Ok (true, err).
Proof. intros H. unfold shouldInclude. rewrite H. reflexivity. Qed.

Lemma shouldInclude_total (d : Database) (pattern : Regexp)
    (emap : option (gmap string string)) (stmt : string) (err : option error) :
  has_group pattern ->
  exists b err', shouldInclude d pattern emap stmt err = Ok (b, err').
Proof.
  intros Hg. unfold shouldInclude.
  destruct (Contains stmt "version_history"); [eauto|].
  destruct (FindStringSubmatch pattern stmt) as [m|] eqn:E; [|eauto].
  destruct (index_slice_1 m (Hg _ _ E)) as (x & -> & _).
  destruct emap as [mp|]; simpl.
  - destruct (mp !! x); simpl;
      destruct (includeTables d); eauto; destruct (excludeTables d); eauto.
  - destruct (includeTables d); eauto; destruct (excludeTables d); eauto.
Qed.

Lemma dmsaSql_loop_lifecycle (d : Database) (pattern : Regexp)
    (emap : option (gmap string string)) (stmts : list string) :
  has_group pattern ->
  forall acc err,
  exists out err',
    dmsaSql_loop d pattern emap stmts acc err = Ok (out, err')
    /\ (forall x, In x acc -> In x out)
    /\ forall stmt, In stmt stmts -> Contains stmt "version_history" = true ->
                    In (TrimSpace stmt) out.
Proof.
  intros Hg. induction stmts as [|s stmts IH]; intros acc err.
  - exists acc, err. simpl. split; [reflexivity|]. split; [auto|]. intros ? [].
  - simpl.
    destruct (Contains s "version_history") eqn:Em.
    + rewrite shouldInclude_lifecycle by (apply TrimSpace_version_history; exact Em).
      simpl. destruct (IH (acc ++ [TrimSpace s])%list err) as (out & err' & -> & Hacc & Hin).
      exists out, err'. split; [reflexivity|]. split.
      * intros x Hx. apply Hacc. apply in_or_app. auto.
      * intros stmt [<-|Hs] Hc; [|auto].
        apply Hacc. apply in_or_app. right. left. reflexivity.
    + destruct (shouldInclude_total d pattern emap (TrimSpace s) err Hg)
        as (b & e1 & ->).
      simpl.
      destruct (IH (if b then (acc ++ [TrimSpace s])%list else acc) e1)
        as (out & err' & -> & Hacc & Hin).
      exists out, err'. split; [reflexivity|]. split.
      * intros x Hx. apply Hacc. destruct b; [apply in_or_app|]; auto.
      * intros stmt [<-|Hs] Hc; [congruence | auto].
Qed.

(** C5.  Once the statements are fetched and the pattern is ready, every
    fetched statement that contains the marker ["version_history"] is in
    the list [dmsaSql] returns (trimmed, as all returned statements are),
    whatever the include and exclude patterns are and whether or not the
    table-name pattern matches it. *)
Theorem lifecycle_statements_kept (w : World) (d : Database) (op operand : string)
    (patterns : patternsType) (stmts : list string)
    (emap : option (gmap string string)) (pattern : Regexp) :
  rawDmsaSql w d op operand = (stmts, None) ->
  patternSwitch w d operand patterns = Ok (inl (emap, pattern)) ->
  has_group pattern ->
  exists out err,
    dmsaSql w d op operand patterns = Ok (out, err)
    /\ forall stmt, In stmt stmts -> Contains stmt "version_history" = true ->
                    In (TrimSpace stmt) out.
Proof.
  intros Hraw Hsw Hg. unfold dmsaSql. rewrite Hraw, Hsw. simpl.
  destruct (dmsaSql_loop_lifecycle d pattern emap stmts Hg [] None)
    as (out & err & Hloop & _ & Hin).
  eauto.
Qed.

Lemma shouldInclude_resolved (d : Database) (pattern : Regexp)
    (emap : option (gmap string string)) (stmt table : string) (err : option error) :
  Contains stmt "version_history" = false ->
  resolvedTable pattern emap stmt = Some table ->
  shouldInclude d pattern emap stmt err = Ok (filterDecision d table, err).
Proof.
  intros Hm. unfold resolvedTable, shouldInclude, filterDecision. rewrite Hm.
  destruct (FindStringSubmatch pattern stmt) as [m|]; [|discriminate].
  unfold index_slice. destruct (nth_error m 1) as [x|]; [|discriminate].
  destruct emap as [mp|]; simpl.
  - intros ->. simpl. destruct (includeTables d); [reflexivity|].
    destruct (excludeTables d); reflexivity.
  - intros [= ->]. destruct (includeTables d); [reflexivity|].
    destruct (excludeTables d); reflexivity.
Qed.

Lemma shouldInclude_keeps (d : Database) (pattern : Regexp)
    (emap : option (gmap string string)) (stmt : string) (err : option error) :
  has_group pattern ->
  exists err', shouldInclude d pattern emap stmt err = Ok (keeps d pattern emap stmt, err').
Proof.
  intros Hg. unfold shouldInclude, keeps, filterDecision.
  destruct (Contains stmt "version_history"); [eauto|].
  destruct (FindStringSubmatch pattern stmt) as [m|] eqn:E; [|eauto].
  destruct (index_slice_1 m (Hg _ _ E)) as (x & -> & ->).
  destruct emap as [mp|]; simpl.
  - destruct (mp !! x); simpl;
      destruct (includeTables d); eauto; destruct (excludeTables d); eauto.
  - destruct (includeTables d); eauto; destruct (excludeTables d); eauto.
Qed.

(** The loop of [dmsaSql] only filters: what it returns is the trimmed
    statements it keeps, in their order. *)
Lemma dmsaSql_loop_filter (d : Database) (pattern : Regexp)
    (emap : option (gmap string string)) (stmts : list string) :
  has_group pattern ->
  forall acc err,
  exists err',
    dmsaSql_loop d pattern emap stmts acc err
    = Ok ((acc ++ List.filter (keeps d pattern emap) (map TrimSpace stmts))%list, err').
Proof.
  intros Hg. induction stmts as [|s stmts IH]; intros acc err.
  - exists err. simpl. rewrite app_nil_r. reflexivity.
  - cbn [dmsaSql_loop map List.filter].
    destruct (shouldInclude_keeps d pattern emap (TrimSpace s) err Hg) as [e1 ->].
    cbn [bind_result].
    destruct (keeps d pattern emap (TrimSpace s)).
    + destruct (IH (acc ++ [TrimSpace s])%list e1) as [e2 ->].
      exists e2. rewrite <- app_assoc. reflexivity.
    + apply IH.
Qed.
End Filtering.

Section Tx.
Context `{RL : RegexpLib} `{SE : SqlEngine}.

Lemma advanced_nil (st : Proc) (s : Store) :
  pending st = Some s -> advanced st s [] = st.
Proof.
  intros H. destruct st. unfold advanced. simpl in *. rewrite app_nil_r. congruence.
Qed.

Lemma advanced_advanced (st : Proc) (s s' : Store) (l l' : list string) :
  advanced (advanced st s l) s' l' = advanced st s' (l ++ l')%list.
Proof. unfold advanced. simpl. rewrite app_assoc. reflexivity. Qed.

Lemma executeSQL_ok (st : Proc) (s s' : Store) (sql : string) :
  pending st = Some s ->
  sql_exec s (TrimSpace sql) = inl s' ->
  executeSQL (Some Tx) sql st = (Ok None, advanced st s' [TrimSpace sql]).
Proof.
  intros Hp He. unfold executeSQL, bind, Exec. rewrite Hp. simpl. rewrite He.
  reflexivity.
Qed.

Lemma executeSQL_fail (st : Proc) (s : Store) (sql : string) (e : error) :
  pending st = Some s ->
  sql_exec s (TrimSpace sql) = inr e ->
  executeSQL (Some Tx) sql st
  = (Ok (Some ("Error executing SQL: " +:+ TrimSpace sql +:+ ": " +:+ e)%string),
     advanced st s [TrimSpace sql]).
Proof.
  intros Hp He. unfold executeSQL, bind, Exec. rewrite Hp. simpl. rewrite He.
  reflexivity.
Qed.

Lemma executeAll_ok (stmts : list string) :
  forall st s s',
    pending st = Some s ->
    exec_list s (map TrimSpace stmts) = Some s' ->
    executeAll (Some Tx) stmts st = (Ok None, advanced st s' (map TrimSpace stmts)).
Proof.
  induction stmts as [|q stmts IH]; intros st s s' Hp Hs.
  - simpl in *. injection Hs as <-. rewrite advanced_nil by assumption. reflexivity.
  - simpl in Hs. destruct (sql_exec s (TrimSpace q)) as [s1|] eqn:E; [|discriminate].
    change (executeAll (Some Tx) (q :: stmts) st)
      with (bind (executeSQL (Some Tx) q)
              (fun err => match err with
                          | Some err =>
                              ret (Some ("Error executing SQL: `" +:+ q +:+ "`: " +:+ err)%string)
                          | None => executeAll (Some Tx) stmts
                          end) st).
    unfold bind at 1. rewrite (executeSQL_ok st s s1 q Hp E).
    rewrite (IH (advanced st s1 [TrimSpace q]) s1 s' eq_refl Hs), advanced_advanced.
    reflexivity.
Qed.

Lemma executeAll_fail (pre : list string) (k : string) (post : list string) (e : error) :
  forall st s sk,
    pending st = Some s ->
    exec_list s (map TrimSpace pre) = Some sk ->
    sql_exec sk (TrimSpace k) = inr e ->
    executeAll (Some Tx) (pre ++ k :: post) st
    = (Ok (Some ("Error executing SQL: `" +:+ k +:+ "`: "
                 +:+ ("Error executing SQL: " +:+ TrimSpace k +:+ ": " +:+ e))%string),
       advanced st sk (map TrimSpace (pre ++ [k]))).
Proof.
  induction pre as [|q pre IH]; intros st s sk Hp Hs Hk.
  - simpl in Hs. injection Hs as <-.
    change (executeAll (Some Tx) ([] ++ k :: post) st)
      with (bind (executeSQL (Some Tx) k)
              (fun err => match err with
                          | Some err =>
                              ret (Some ("Error executing SQL: `" +:+ k +:+ "`: " +:+ err)%string)
                          | None => executeAll (Some Tx) post
                          end) st).
    unfold bind at 1. rewrite (executeSQL_fail st s k e Hp Hk). reflexivity.
  - simpl in Hs. destruct (sql_exec s (TrimSpace q)) as [s1|] eqn:E; [|discriminate].
    change (executeAll (Some Tx) ((q :: pre) ++ k :: post) st)
      with (bind (executeSQL (Some Tx) q)
              (fun err => match err with
                          | Some err =>
                              ret (Some ("Error executing SQL: `" +:+ q +:+ "`: " +:+ err)%string)
                          | None => executeAll (Some Tx) (pre ++ k :: post)
                          end) st).
    unfold bind at 1. rewrite (executeSQL_ok st s s1 q Hp E).
    rewrite (IH (advanced st s1 [TrimSpace q]) s1 sk eq_refl Hs Hk), advanced_advanced.
    reflexivity.
Qed.

(** [operateOnTables] inside an open transaction, up to its last loop. *)
Lemma operateOnTables_prelude (w : World) (d : Database) (op operand : string)
    (patterns : patternsType) (stmts : list string) (st : Proc) (s s1 : Store) :
  driverName d = "postgres" ->
  dmsaSql w d op operand patterns = Ok (stmts, None) ->
  pending st = Some s ->
  exec_list s (map TrimSpace (searchPathStatements d)) = Some s1 ->
  operateOnTables w d op operand patterns (Some Tx) st
  = executeAll (Some Tx) stmts
      (advanced st s1 (map TrimSpace (searchPathStatements d))).
Proof.
  intros Hdrv Hsql Hp Hs. unfold operateOnTables, bind at 1, lift.
  rewrite Hsql, Hdrv. unfold searchPathStatements in *.
  destruct (String.eqb (Schema d) EmptyString); cbn [negb].
  - cbn [map exec_list] in Hs. injection Hs as <-.
    rewrite advanced_nil by assumption. reflexivity.
  - cbn [map exec_list] in Hs.
    destruct (sql_exec s (TrimSpace ("SET search_path TO " +:+ Schema d))) as [s'|] eqn:E;
      [|discriminate].
    injection Hs as <-. cbn [negb]. rewrite String.eqb_refl.
    unfold bind. rewrite (executeSQL_ok st s s' _ Hp E). reflexivity.
Qed.

Lemma Contains_middle (a s b : string) : Contains (a +:+ s +:+ b) s = true.
Proof. apply Contains_iff. eauto. Qed.

(** C2.  A DDL operation on an open database runs its statements in
    order inside one transaction.  If the k-th statement fails, the
    transaction is rolled back (the database holds what it held before),
    the later statements are not executed, and the error returned
    contains the text of the k-th statement.  If every statement
    succeeds, the transaction is committed: the operation returns what
    [Commit] returns and, when that is no error, the database holds the
    result of all statements. *)
Theorem ddlOperation_atomic (w : World) (d : Database) (op operand : string)
    (patterns : patternsType) (h : sqlDB) (stmts : list string) (st : Proc)
    (s1 : Store) :
  driverName d = "postgres" ->
  db d = Some h ->
  db_Begin w h = None ->
  dmsaSql w d op operand patterns = Ok (stmts, None) ->
  exec_list (committed st) (map TrimSpace (searchPathStatements d)) = Some s1 ->
  (forall pre k post sk e,
      stmts = (pre ++ k :: post)%list ->
      exec_list s1 (map TrimSpace pre) = Some sk ->
      sql_exec sk (TrimSpace k) = inr e ->
      exists msg st',
        ddlOperation w d op operand patterns st = (Ok (Some msg), st')
        /\ Contains msg k = true
        /\ committed st' = committed st
        /\ pending st' = None
        /\ execd st'
           = (execd st ++ map TrimSpace (searchPathStatements d ++ pre ++ [k]))%list)
  /\ (forall s2,
        exec_list s1 (map TrimSpace stmts) = Some s2 ->
        exists st',
          ddlOperation w d op operand patterns st = (Ok (tx_Commit w), st')
          /\ committed st'
             = match tx_Commit w with None => s2 | Some _ => committed st end
          /\ pending st' = None
          /\ execd st'
             = (execd st ++ map TrimSpace (searchPathStatements d ++ stmts))%list).
Proof.
  intros Hdrv Hdb Hbegin Hsql Hpre.
  assert (Hop : forall st0, ddlOperation w d op operand patterns st0
                 = transact w (Some h) (operateOnTables w d op operand patterns) st0).
  { intros st0. unfold ddlOperation. rewrite Hdrv, Hdb. reflexivity. }
  assert (Hstart : operateOnTables w d op operand patterns (Some Tx)
                     (set_pending (Some (committed st)) st)
                   = executeAll (Some Tx) stmts
                       (advanced st s1 (map TrimSpace (searchPathStatements d)))).
  { rewrite (operateOnTables_prelude w d op operand patterns stmts _ (committed st) s1);
      auto. }
  split.
  - intros pre k post sk e -> Hk He.
    rewrite Hop. unfold transact, Begin. rewrite Hbegin, Hstart.
    rewrite (executeAll_fail pre k post e
               (advanced st s1 (map TrimSpace (searchPathStatements d)))
               s1 sk eq_refl Hk He).
    rewrite advanced_advanced.
    eexists _, _. split; [reflexivity|].
    split; [apply (Contains_middle "Error executing SQL: `")|].
    simpl. rewrite !map_app. auto.
  - intros s2 Hall.
    rewrite Hop. unfold transact, Begin. rewrite Hbegin, Hstart.
    rewrite (executeAll_ok stmts
               (advanced st s1 (map TrimSpace (searchPathStatements d)))
               s1 s2 eq_refl Hall).
    rewrite advanced_advanced.
    unfold transact_deferred, Commit. simpl.
    destruct (tx_Commit w); eexists; rewrite !map_app; simpl; auto.
Qed.

End Tx.

Module LoadFacts.
Import Load.

Lemma fst_bind {A B} (m : T A) (k : A -> T B) :
  fst (bind m k) = fst (k (fst m)).
Proof. unfold bind. destruct m as [a t1]. simpl. destruct (k a); reflexivity. Qed.

Lemma snd_bind {A B} (m : T A) (k : A -> T B) :
  snd (bind m k) = (snd m ++ snd (k (fst m)))%list.
Proof. unfold bind. destruct m as [a t1]. simpl. destruct (k a); reflexivity. Qed.

Lemma Count_app (a b : string) (c : ascii) :
  Count (a +:+ b) c = Count a c + Count b c.
Proof. induction a as [|x a IH]; simpl; [reflexivity | rewrite IH; lia]. Qed.

Lemma last_byte_app (a b : string) (d : ascii) :
  last_byte (a +:+ b) d = last_byte b (last_byte a d).
Proof. revert d. induction a as [|x a IH]; intros d; simpl; auto. Qed.

Lemma int_wrap_small (z : Z) : - 2 ^ 63 <= z < 2 ^ 63 -> int_wrap z = z.
Proof. intros H. unfold int_wrap. rewrite Z.mod_small; lia. Qed.

Lemma Count_nonneg (s : string) (c : ascii) : 0 <= Count s c.
Proof. induction s as [|x s IH]; simpl; [lia | destruct (Ascii.eqb x c); lia]. Qed.

Lemma lineCounter_eof_fst (count : Z) (lastByte : ascii) :
  0 <= count ->
  count + (if Ascii.eqb lastByte LF then 0 else 1) < 2 ^ 63 ->
  fst (lineCounter_eof count lastByte)
  = (count + (if Ascii.eqb lastByte LF then 0 else 1), None).
Proof.
  intros H0 Hmax. unfold lineCounter_eof. destruct (Ascii.eqb lastByte LF); simpl.
  - f_equal. lia.
  - rewrite int_wrap_small by lia. reflexivity.
Qed.

(** As long as the count stays below [2 ^ 63], it is the number of
    newlines read, and one more for a last line without its newline. *)
Lemma lineCounter_loop_fst (r : Reader) :
  reader_error r = None ->
  forall count lastByte,
    0 <= count ->
    count + Count (reader_content r) LF
    + (if Ascii.eqb (last_byte (reader_content r) lastByte) LF then 0 else 1) < 2 ^ 63 ->
    fst (lineCounter_loop r count lastByte)
    = (count + Count (reader_content r) LF
       + (if Ascii.eqb (last_byte (reader_content r) lastByte) LF then 0 else 1),
       None).
Proof.
  induction r as [|res r IH]; intros Herr count lastByte H0 Hmax.
  - simpl in *. rewrite lineCounter_eof_fst by lia. f_equal. lia.
  - simpl in *. pose proof (Count_nonneg (data res) LF) as Hd.
    destruct (rerr res) as [[|msg]|].
    + rewrite append_nil_r in *.
      assert (Hbit : 0 <= (if Ascii.eqb (last_byte (data res) lastByte) LF then 0 else 1))
        by (destruct (Ascii.eqb _ LF); lia).
      rewrite int_wrap_small by lia. rewrite lineCounter_eof_fst by lia. reflexivity.
    + discriminate.
    + rewrite Count_app, last_byte_app in *.
      pose proof (Count_nonneg (reader_content r) LF) as Hr.
      assert (Hbit : 0 <= (if Ascii.eqb (last_byte (reader_content r)
                                           (last_byte (data res) lastByte)) LF
                           then 0 else 1))
        by (destruct (Ascii.eqb _ LF); lia).
      rewrite int_wrap_small by lia. rewrite (IH Herr) by lia. f_equal. lia.
Qed.

(** [lineCounter] counts the physical lines of what it reads, however
    the reads are cut. *)
Lemma lineCounter_lines (r : Reader) :
  reader_error r = None ->
  Z.of_nat (length (physical_lines (reader_content r))) < 2 ^ 63 ->
  fst (lineCounter r)
  = (Z.of_nat (length (physical_lines (reader_content r))), None).
Proof.
  intros H Hmax. unfold lineCounter. rewrite physical_lines_count in *.
  rewrite (lineCounter_loop_fst r H) by lia. f_equal.
Qed.

Lemma copyCommand_counted (w : World)
    (databaseUrl searchPath table csvFile primarySchema cmdStr : string)
    (wg : WaitGroup) (c : Conn) (actualRows : Z) (reader : Reader) :
  copySucceeds w databaseUrl searchPath table csvFile primarySchema cmdStr ->
  OpenDatabase w databaseUrl searchPath = inl c ->
  db_QueryRow_Scan w c (countSql table) = inl actualRows ->
  os_Open w csvFile = inl reader ->
  reader_error reader = None ->
  Z.of_nat (length (physical_lines (reader_content reader))) < 2 ^ 63 ->
  let expectedRows := Z.of_nat (length (physical_lines (reader_content reader))) - 1 in
  copyCommand w databaseUrl searchPath table csvFile wg
  = (fst (verdict w databaseUrl primarySchema table actualRows expectedRows),
     [EvLog Info ("Loading " +:+ table +:+ " (search_path: " +:+ searchPath +:+ ")");
      EvOpenFile csvFile; EvLookPath "psql"; EvRun cmdStr;
      EvOpenDatabase databaseUrl searchPath; EvQuery (countSql table);
      EvOpenFile csvFile]
     ++ snd (lineCounter reader)
     ++ snd (verdict w databaseUrl primarySchema table actualRows expectedRows))%list.
Proof.
  intros (reader' & cols & path & conn & Hopen & Hcsv & Hpath & Hurl & Hschema
          & -> & Hrun) Hdb Hcount Hopen' Herr Hmax expectedRows.
  assert (reader' = reader) as -> by congruence.
  pose proof (lineCounter_lines reader Herr Hmax) as Hlines.
  destruct (lineCounter reader) as [[n e] tr] eqn:Elc. simpl in Hlines.
  injection Hlines as -> ->.
  unfold copyCommand, columnNamesFromCsvFile, rowsInTable, rowsInFile,
    open_file, open_database, log, emit, bind, ret.
  rewrite Hopen, Hcsv, Hpath, Hurl, Hschema, Hrun, Hdb.
  fold (countSql table). rewrite Hcount, Elc.
  rewrite int_wrap_small by lia.
  fold expectedRows. unfold verdict.
  destruct (negb (actualRows =? expectedRows)).
  - reflexivity.
  - destruct (analyze w databaseUrl primarySchema table) as [r tr']. simpl.
    rewrite app_nil_r. reflexivity.
Qed.

(** C3.  For a table load whose copy subprocess succeeded, with [A] the
    row count of the destination table and [R] the number of physical
    lines of the source file minus one: the load succeeds exactly when
    [A = R], and when [A <> R] it fails with a message that shows both
    numbers. *)
Theorem copyCommand_row_count (w : World)
    (databaseUrl searchPath table csvFile primarySchema cmdStr : string)
    (wg : WaitGroup) (c : Conn) (actualRows : Z) (reader : Reader) :
  copySucceeds w databaseUrl searchPath table csvFile primarySchema cmdStr ->
  OpenDatabase w databaseUrl searchPath = inl c ->
  db_QueryRow_Scan w c (countSql table) = inl actualRows ->
  os_Open w csvFile = inl reader ->
  reader_error reader = None ->
  Z.of_nat (length (physical_lines (reader_content reader))) < 2 ^ 63 ->
  let expectedRows := Z.of_nat (length (physical_lines (reader_content reader))) - 1 in
  (fst (copyCommand w databaseUrl searchPath table csvFile wg) = None
   <-> actualRows = expectedRows)
  /\ (actualRows <> expectedRows ->
      exists msg,
        fst (copyCommand w databaseUrl searchPath table csvFile wg) = Some msg
        /\ Contains msg ("(" +:+ itoa actualRows +:+ ")") = true
        /\ Contains msg ("(" +:+ itoa expectedRows +:+ ")") = true).
Proof.
  intros Hcopy Hdb Hcount Hopen Herr Hmax expectedRows.
  rewrite (copyCommand_counted w _ _ _ _ _ _ wg c actualRows reader
             Hcopy Hdb Hcount Hopen Herr Hmax).
  fold expectedRows. unfold verdict. cbn [fst].
  destruct (Z.eqb_spec actualRows expectedRows) as [E|E]; cbn [negb fst].
  - split; [tauto | contradiction].
  - split; [split; [discriminate | contradiction]|].
    intros _. eexists. split; [reflexivity|]. unfold rowCountError. split.
    + apply Contains_iff.
      exists ("Number of rows in " +:+ primarySchema +:+ "." +:+ table +:+ " ")%string.
      eexists. rewrite !append_assoc. reflexivity.
    + apply Contains_iff.
      exists ("Number of rows in " +:+ primarySchema +:+ "." +:+ table +:+ " ("
              +:+ itoa actualRows +:+ ") does not equal the number of lines ")%string.
      eexists. rewrite !append_assoc. reflexivity.
Qed.

Lemma analyze_trace (w : World) (databaseUrl schema table : string) :
  snd (analyze w databaseUrl schema table)
  = match OpenDatabase w databaseUrl EmptyString with
    | inl _ => [EvOpenDatabase databaseUrl EmptyString; EvExec (vacuumSql schema table)]
    | inr _ => [EvOpenDatabase databaseUrl EmptyString]
    end.
Proof.
  unfold analyze, open_database, emit, bind, ret.
  destruct (OpenDatabase w databaseUrl EmptyString) as [c|e]; [|reflexivity].
  fold (vacuumSql schema table).
  destruct (db_Exec w c (vacuumSql schema table)); reflexivity.
Qed.

(** C7, as the code has it.  After a load has passed the row-count check,
    the maintenance routine is called for the table: it opens a
    connection and, when that works, executes [VACUUM FREEZE ANALYZE] on
    the table.  Whatever it returns is dropped: the task returns success,
    and nothing is logged by or after the call, so a maintenance failure
    leaves no trace in the log. *)
Theorem maintenance_result_discarded (w : World)
    (databaseUrl searchPath table csvFile primarySchema cmdStr : string)
    (wg : WaitGroup) (c : Conn) (actualRows : Z) (reader : Reader) :
  copySucceeds w databaseUrl searchPath table csvFile primarySchema cmdStr ->
  OpenDatabase w databaseUrl searchPath = inl c ->
  db_QueryRow_Scan w c (countSql table) = inl actualRows ->
  os_Open w csvFile = inl reader ->
  reader_error reader = None ->
  Z.of_nat (length (physical_lines (reader_content reader))) < 2 ^ 63 ->
  actualRows = Z.of_nat (length (physical_lines (reader_content reader))) - 1 ->
  let maintenance := analyze w databaseUrl primarySchema table in
  fst (copyCommand w databaseUrl searchPath table csvFile wg) = None
  /\ (exists before,
        snd (copyCommand w databaseUrl searchPath table csvFile wg)
        = (before ++ EvLog Info ("Vacuuming " +:+ primarySchema +:+ "." +:+ table)
                  :: snd maintenance)%list)
  /\ In (EvOpenDatabase databaseUrl EmptyString) (snd maintenance)
  /\ (forall c', OpenDatabase w databaseUrl EmptyString = inl c' ->
                 In (EvExec (vacuumSql primarySchema table)) (snd maintenance))
  /\ (forall level msg, ~ In (EvLog level msg) (snd maintenance)).
Proof.
  intros Hcopy Hdb Hcount Hopen Herr Hmax Heq maintenance.
  rewrite (copyCommand_counted w _ _ _ _ _ _ wg c actualRows reader
             Hcopy Hdb Hcount Hopen Herr Hmax).
  rewrite <- Heq. unfold verdict. rewrite Z.eqb_refl. cbn [negb fst snd].
  split; [reflexivity|]. split.
  - eexists. rewrite !app_assoc. rewrite <- app_assoc.
    change (?l ++ [?a; ?b] ++ ?r)%list with (l ++ [a] ++ b :: r)%list.
    rewrite app_assoc. reflexivity.
  - unfold maintenance. rewrite analyze_trace.
    destruct (OpenDatabase w databaseUrl EmptyString) as [c'|e].
    + split; [left; reflexivity|]. split.
      * intros _ _. right. left. reflexivity.
      * intros level msg [H|[H|[]]]; discriminate.
    + split; [left; reflexivity|]. split.
      * intros c' [=].
      * intros level msg [H|[]]; discriminate.
Qed.

Lemma copyCommand_without_psql (w : World)
    (databaseUrl searchPath table csvFile : string) (wg : WaitGroup) (e : error) :
  exec_LookPath w "psql" = inr e ->
  let loading :=
    EvLog Info ("Loading " +:+ table +:+ " (search_path: " +:+ searchPath +:+ ")") in
  match os_Open w csvFile with
  | inr err =>
      copyCommand w databaseUrl searchPath table csvFile wg
      = (Some err, [loading; EvOpenFile csvFile])
  | inl reader =>
      match csv_Read w reader with
      | inr err =>
          copyCommand w databaseUrl searchPath table csvFile wg
          = (Some ("Error reading first row of `" +:+ csvFile +:+ "`: " +:+ err)%string,
             [loading; EvOpenFile csvFile])
      | inl _ =>
          copyCommand w databaseUrl searchPath table csvFile wg
          = (Some psqlMissing, [loading; EvOpenFile csvFile; EvLookPath "psql"])
      end
  end.
Proof.
  intros Hpath loading.
  unfold copyCommand, columnNamesFromCsvFile, open_file, log, emit, bind, ret.
  destruct (os_Open w csvFile) as [reader|err]; [|reflexivity].
  destruct (csv_Read w reader) as [cols|err]; [|reflexivity].
  rewrite Hpath. reflexivity.
Qed.

Lemma masterError_loop_length (taskErrors : list error) :
  forall acc,
    (String.length acc + length taskErrors
     <= String.length (masterError_loop taskErrors acc))%nat.
Proof.
  induction taskErrors as [|e l IH]; intros acc; simpl; [lia|].
  specialize (IH (acc +:+ e +:+ newline)%string).
  rewrite !length_append in IH. simpl in IH. lia.
Qed.

Lemma runWorkers_all_fail (w : World) (tasks : list CopyCommandArgs) :
  (forall args, In args tasks ->
     fst (copyCommand w (DatabaseUrl args) (SearchPath args) (Table args)
            (CsvFile args) (WaitGroup_ args)) <> None) ->
  forall finished,
    Forall (fun i => (i < length tasks)%nat) finished ->
    length (fst (runWorkers w tasks finished)) = length finished.
Proof.
  intros Hfail. induction finished as [|i finished IH]; intros Hall; [reflexivity|].
  inversion Hall as [|? ? Hi Hrest]; subst.
  cbn [runWorkers]. rewrite !fst_bind. cbn [ret fst].
  destruct (nth_error tasks i) as [args|] eqn:E.
  - apply nth_error_In in E. specialize (Hfail args E).
    destruct (fst (copyCommand w _ _ _ _ _)); [|congruence].
    simpl. rewrite IH; auto.
  - apply nth_error_None in E. lia.
Qed.

(** C6, as the code has it.  Where [psql] is not on the [PATH], every
    task fails, but only after it has logged its start and opened its CSV
    file: the check is made inside each task, and a task whose header row
    was read fails with the [psql] message, before any copy or database
    access.  The run itself returns an error exactly when it has between
    1 and 100 tasks; with no task it returns success, and with more
    errors than the error channel holds it never returns. *)
Theorem psql_checked_per_task (w : World) (e : error) :
  exec_LookPath w "psql" = inr e ->
  (forall databaseUrl searchPath table csvFile wg,
      (exists err, fst (copyCommand w databaseUrl searchPath table csvFile wg) = Some err)
      /\ (exists rest,
            snd (copyCommand w databaseUrl searchPath table csvFile wg)
            = EvLog Info ("Loading " +:+ table +:+ " (search_path: "
                          +:+ searchPath +:+ ")")
                :: EvOpenFile csvFile :: rest
            /\ forallb before_copy rest = true)
      /\ (forall reader columnNames,
            os_Open w csvFile = inl reader ->
            csv_Read w reader = inl columnNames ->
            fst (copyCommand w databaseUrl searchPath table csvFile wg)
            = Some psqlMissing))
  /\ (forall d datadirectory finished n,
        numJobs w = (n, None) ->
        Permutation finished (seq 0 (length (RecordMaps datadirectory))) ->
        match fst (load w d datadirectory finished) with
        | Returned None => RecordMaps datadirectory = []
        | Returned (Some _) =>
            (0 < length (RecordMaps datadirectory) <= taskErrorsCap)%nat
        | Deadlock => (taskErrorsCap < length (RecordMaps datadirectory))%nat
        end).
Proof.
  intros Hpath.
  assert (Htask : forall databaseUrl searchPath table csvFile wg,
             fst (copyCommand w databaseUrl searchPath table csvFile wg) <> None).
  { intros databaseUrl searchPath table csvFile wg.
    pose proof (copyCommand_without_psql w databaseUrl searchPath table csvFile wg e Hpath)
      as H. cbv zeta in H.
    destruct (os_Open w csvFile) as [reader|err]; [|rewrite H; discriminate].
    destruct (csv_Read w reader); rewrite H; discriminate. }
  split.
  - intros databaseUrl searchPath table csvFile wg.
    pose proof (copyCommand_without_psql w databaseUrl searchPath table csvFile wg e Hpath)
      as H. cbv zeta in H.
    destruct (os_Open w csvFile) as [reader|err] eqn:Eo.
    + destruct (csv_Read w reader) as [cols|err] eqn:Ec; rewrite H; cbn [fst snd].
      * split; [eauto|]. split; [eexists; split; reflexivity|]. reflexivity.
      * split; [eauto|]. split; [eexists; split; reflexivity|].
        intros r cs [= <-] Hcs. congruence.
    + rewrite H. cbn [fst snd].
      split; [eauto|]. split; [eexists; split; reflexivity|]. intros ? ? [=].
  - intros d datadirectory finished n Hjobs Hperm.
    assert (Hlen : length finished = length (RecordMaps datadirectory)).
    { rewrite (Permutation_length Hperm). apply length_seq. }
    assert (Hlt : Forall (fun i => (i < length (loadTasks w d datadirectory))%nat) finished).
    { apply List.Forall_forall. intros i Hi.
      apply (Permutation_in _ Hperm), in_seq in Hi.
      unfold loadTasks. rewrite length_map. lia. }
    pose proof (runWorkers_all_fail w (loadTasks w d datadirectory)
                  (fun args _ => Htask _ _ _ _ _) finished Hlt) as Herrs.
    unfold load. rewrite Hjobs, fst_bind.
    destruct (fst (runWorkers w (loadTasks w d datadirectory) finished)) as [|e1 errs] eqn:E.
    + simpl in Herrs. simpl.
      destruct (RecordMaps datadirectory); [reflexivity | simpl in Hlen; lia].
    + destruct (Nat.ltb_spec taskErrorsCap (length (e1 :: errs))) as [Hcap|Hcap].
      * cbn [fst ret]. rewrite <- Hlen, <- Herrs. exact Hcap.
      * pose proof (masterError_loop_length (e1 :: errs) EmptyString) as Hm.
        destruct (masterError_loop (e1 :: errs) EmptyString) as [|x m] eqn:Em;
          [simpl in Hm; lia|].
        cbn [String.eqb negb]. cbn [append String.eqb negb fst ret].
        rewrite <- Hlen, <- Herrs. split; [simpl; lia | exact Hcap].
Qed.

End LoadFacts.

(** * Further properties of the code *)

Section Selection.
Context `{RL : RegexpLib}.

(** X1.  [dmsaSql] only selects: what it returns are the fetched
    statements, trimmed, that the filter keeps, each as often as it was
    fetched and in the order of the page. *)
Theorem dmsaSql_filters_in_order (w : World) (d : Database) (op operand : string)
    (patterns : patternsType) (stmts : list string)
    (emap : option (gmap string string)) (pattern : Regexp) :
  rawDmsaSql w d op operand = (stmts, None) ->
  patternSwitch w d operand patterns = Ok (inl (emap, pattern)) ->
  has_group pattern ->
  exists err,
    dmsaSql w d op operand patterns
    = Ok (List.filter (keeps d pattern emap) (map TrimSpace stmts), err).
Proof.
  intros Hraw Hsw Hg. unfold dmsaSql. rewrite Hraw, Hsw. cbn [bind_result].
  destruct (dmsaSql_loop_filter d pattern emap stmts Hg [] None) as [err Hloop].
  exists err. exact Hloop.
Qed.

Lemma shouldInclude_withExclude (d : Database) (exclude : option Regexp)
    (pattern : Regexp) (emap : option (gmap string string)) (stmt : string)
    (err : option error) :
  is_Some (includeTables d) ->
  shouldInclude (withExclude d exclude) pattern emap stmt err
  = shouldInclude d pattern emap stmt err.
Proof.
  intros [inc Hinc]. unfold shouldInclude. cbn [withExclude includeTables].
  rewrite Hinc. reflexivity.
Qed.

Lemma dmsaSql_loop_withExclude (d : Database) (exclude : option Regexp)
    (pattern : Regexp) (emap : option (gmap string string)) (stmts : list string) :
  is_Some (includeTables d) ->
  forall acc err,
    dmsaSql_loop (withExclude d exclude) pattern emap stmts acc err
    = dmsaSql_loop d pattern emap stmts acc err.
Proof.
  intros Hinc. induction stmts as [|s stmts IH]; intros acc err; [reflexivity|].
  cbn [dmsaSql_loop]. rewrite shouldInclude_withExclude by assumption.
  destruct (shouldInclude d pattern emap (TrimSpace s) err) as [[b e]|p]; [|reflexivity].
  cbn [bind_result]. apply IH.
Qed.

(** X2.  With an include pattern the exclude pattern is never
    consulted: any other exclude pattern, or none, gives the same
    statements and the same error. *)
Theorem include_overrides_exclude (w : World) (d : Database) (exclude : option Regexp)
    (op operand : string) (patterns : patternsType) :
  is_Some (includeTables d) ->
  dmsaSql w (withExclude d exclude) op operand patterns
  = dmsaSql w d op operand patterns.
Proof.
  intros Hinc. unfold dmsaSql.
  change (rawDmsaSql w (withExclude d exclude) op operand) with (rawDmsaSql w d op operand).
  destruct (rawDmsaSql w d op operand) as [stmts [e|]]; [reflexivity|].
  change (patternSwitch w (withExclude d exclude) operand patterns)
    with (patternSwitch w d operand patterns).
  destruct (patternSwitch w d operand patterns) as [[[emap pattern]|e]|p]; try reflexivity.
  cbn [bind_result]. apply dmsaSql_loop_withExclude. exact Hinc.
Qed.

End Selection.

Section EntityMap.
Context `{RL : RegexpLib}.

Lemma dmsaSqlMap_loop_cons (patterns : mapPatternsType) (tp ep : Regexp)
    (s : string) (rest : list string) (m : gmap string string) :
  has_group tp -> has_group ep ->
  dmsaSqlMap_loop patterns tp ep (s :: rest) m
  = if Contains s "version_history" then dmsaSqlMap_loop patterns tp ep rest m
    else
      match FindStringSubmatch tp s with
      | None => dmsaSqlMap_loop patterns tp ep rest m
      | Some tm =>
          match FindStringSubmatch ep s with
          | None => Ok (m, Some (entityCreateError patterns s))
          | Some em =>
              dmsaSqlMap_loop patterns tp ep rest
                (<[default EmptyString (nth_error em 1)
                   := default EmptyString (nth_error tm 1)]> m)
          end
      end.
Proof.
  intros Htp Hep. cbn [dmsaSqlMap_loop].
  destruct (Contains s "version_history"); [reflexivity|]. cbn [negb].
  destruct (FindStringSubmatch tp s) as [tm|] eqn:Et; [|reflexivity].
  destruct (index_slice_1 tm (Htp _ _ Et)) as (t & -> & ->). cbn [bind_result].
  destruct (FindStringSubmatch ep s) as [em|] eqn:Ee; [|reflexivity].
  destruct (index_slice_1 em (Hep _ _ Ee)) as (e & -> & ->). reflexivity.
Qed.

Lemma dmsaSqlMap_loop_step (patterns : mapPatternsType) (tp ep : Regexp)
    (x : string) (rest : list string) (m : gmap string string) :
  has_group tp -> has_group ep ->
  consistent tp ep x ->
  exists m1, dmsaSqlMap_loop patterns tp ep (x :: rest) m
             = dmsaSqlMap_loop patterns tp ep rest m1.
Proof.
  intros Htp Hep Hx. rewrite dmsaSqlMap_loop_cons by assumption.
  destruct (Contains x "version_history") eqn:Em; [eauto|].
  destruct (FindStringSubmatch tp x) as [tm|] eqn:Et; [|eauto].
  destruct Hx as [Hx|[Hx|[em Hx]]]; try congruence.
  rewrite Hx. eauto.
Qed.

Lemma dmsaSqlMap_loop_consistent (patterns : mapPatternsType) (tp ep : Regexp)
    (stmts : list string) :
  has_group tp -> has_group ep ->
  Forall (consistent tp ep) stmts ->
  forall m, exists m', dmsaSqlMap_loop patterns tp ep stmts m = Ok (m', None).
Proof.
  intros Htp Hep Hall. induction Hall as [|x rest Hx _ IH]; intros m.
  - exists m. reflexivity.
  - destruct (dmsaSqlMap_loop_step patterns tp ep x rest m Htp Hep Hx) as [m1 ->].
    apply IH.
Qed.

(** X3.  The first statement with a table name and no entity name ends
    the classification with an error that shows it; without such a
    statement there is no error. *)
Theorem dmsaSqlMap_loop_error (patterns : mapPatternsType) (tp ep : Regexp)
    (stmts : list string) (m : gmap string string) :
  has_group tp -> has_group ep ->
  (Forall (consistent tp ep) stmts ->
   exists m', dmsaSqlMap_loop patterns tp ep stmts m = Ok (m', None))
  /\ (forall pre s post tm,
        stmts = (pre ++ s :: post)%list ->
        Forall (consistent tp ep) pre ->
        Contains s "version_history" = false ->
        FindStringSubmatch tp s = Some tm ->
        FindStringSubmatch ep s = None ->
        exists m',
          dmsaSqlMap_loop patterns tp ep stmts m
          = Ok (m', Some (entityCreateError patterns s))).
Proof.
  intros Htp Hep. split.
  - intros Hall. apply dmsaSqlMap_loop_consistent; assumption.
  - intros pre s post tm -> Hpre Hm Ht He. revert m.
    induction Hpre as [|x pre Hx _ IH]; intros m.
    + exists m. cbn [app]. rewrite dmsaSqlMap_loop_cons by assumption.
      rewrite Hm, Ht, He. reflexivity.
    + cbn [app].
      destruct (dmsaSqlMap_loop_step patterns tp ep x (pre ++ s :: post)%list m
                  Htp Hep Hx) as [m1 ->].
      apply IH.
Qed.

Lemma dmsaSqlMap_loop_untouched (patterns : mapPatternsType) (tp ep : Regexp)
    (e : string) (stmts : list string) :
  has_group tp -> has_group ep ->
  (forall x t, In x stmts -> ~ defines tp ep x e t) ->
  forall m m' err,
    dmsaSqlMap_loop patterns tp ep stmts m = Ok (m', err) ->
    m' !! e = m !! e.
Proof.
  intros Htp Hep. induction stmts as [|s stmts IH]; intros Hno m m' err.
  - cbn. intros [= <- _]. reflexivity.
  - rewrite dmsaSqlMap_loop_cons by assumption.
    assert (Hrest : forall x t, In x stmts -> ~ defines tp ep x e t)
      by (intros x t Hx; apply Hno; right; exact Hx).
    destruct (Contains s "version_history") eqn:Em; [apply IH; exact Hrest|].
    destruct (FindStringSubmatch tp s) as [tm|] eqn:Et; [|apply IH; exact Hrest].
    destruct (FindStringSubmatch ep s) as [em|] eqn:Ee.
    + intros H. rewrite (IH Hrest _ _ _ H).
      destruct (index_slice_1 tm (Htp _ _ Et)) as (t & _ & Ht).
      destruct (index_slice_1 em (Hep _ _ Ee)) as (e0 & _ & He0).
      rewrite Ht, He0. cbn [default from_option id].
      apply lookup_insert_ne. intros ->.
      apply (Hno s t (or_introl eq_refl)). split; [exact Em|].
      exists tm, em. auto.
    + intros [= <- _]. reflexivity.
Qed.

Lemma dmsaSqlMap_loop_last (patterns : mapPatternsType) (tp ep : Regexp) :
  has_group tp -> has_group ep ->
  forall pre s post e t,
    defines tp ep s e t ->
    (forall x t', In x post -> ~ defines tp ep x e t') ->
    forall m m',
      dmsaSqlMap_loop patterns tp ep (pre ++ s :: post) m = Ok (m', None) ->
      m' !! e = Some t.
Proof.
  intros Htp Hep pre s post e t Hdef Hlast.
  induction pre as [|x pre IH]; intros m m' Hloop.
  - cbn [app] in Hloop. rewrite dmsaSqlMap_loop_cons in Hloop by assumption.
    destruct Hdef as (Hm & tm & em & Ht & Htn & He & Hen).
    rewrite Hm, Ht, He, Htn, Hen in Hloop. cbn [default from_option id] in Hloop.
    rewrite (dmsaSqlMap_loop_untouched patterns tp ep e post Htp Hep Hlast _ _ _ Hloop).
    apply lookup_insert_eq.
  - cbn [app] in Hloop. rewrite dmsaSqlMap_loop_cons in Hloop by assumption.
    destruct (Contains x "version_history"); [eapply IH; eassumption|].
    destruct (FindStringSubmatch tp x); [|eapply IH; eassumption].
    destruct (FindStringSubmatch ep x); [eapply IH; eassumption | discriminate].
Qed.

(** X4.  The map holds, for an entity, the table of the last creation
    statement that names it, and nothing that no statement gives. *)
Theorem dmsaSqlMap_loop_lookup (patterns : mapPatternsType) (tp ep : Regexp)
    (stmts : list string) (m m' : gmap string string) :
  has_group tp -> has_group ep ->
  dmsaSqlMap_loop patterns tp ep stmts m = Ok (m', None) ->
  (forall pre s post e t,
      stmts = (pre ++ s :: post)%list ->
      defines tp ep s e t ->
      (forall x t', In x post -> ~ defines tp ep x e t') ->
      m' !! e = Some t)
  /\ (forall e t,
        m' !! e = Some t ->
        m !! e = Some t \/ exists s, In s stmts /\ defines tp ep s e t).
Proof.
  intros Htp Hep Hloop. split.
  - intros pre s post e t -> Hdef Hlast.
    exact (dmsaSqlMap_loop_last patterns tp ep Htp Hep pre s post e t Hdef Hlast m m' Hloop).
  - revert m Hloop. induction stmts as [|s stmts IH]; intros m Hloop e t Hlook.
    + cbn in Hloop. injection Hloop as <-. auto.
    + rewrite dmsaSqlMap_loop_cons in Hloop by assumption.
      assert (Hweak : m !! e = Some t \/ (exists s0, In s0 stmts /\ defines tp ep s0 e t) ->
                      m !! e = Some t \/ exists s0, In s0 (s :: stmts) /\ defines tp ep s0 e t).
      { intros [H|(s0 & Hin & Hd)]; [auto|]. right. exists s0. split; [right|]; auto. }
      destruct (Contains s "version_history") eqn:Em; [apply Hweak; eauto|].
      destruct (FindStringSubmatch tp s) as [tm|] eqn:Et; [|apply Hweak; eauto].
      destruct (FindStringSubmatch ep s) as [em|] eqn:Ee; [|discriminate].
      destruct (index_slice_1 tm (Htp _ _ Et)) as (t0 & _ & Ht0).
      destruct (index_slice_1 em (Hep _ _ Ee)) as (e0 & _ & He0).
      rewrite Ht0, He0 in Hloop. cbn [default from_option id] in Hloop.
      destruct (IH _ Hloop e t Hlook) as [H|H]; [|apply Hweak; auto].
      destruct (decide (e0 = e)) as [->|Hne].
      * rewrite lookup_insert_eq in H. injection H as ->.
        right. exists s. split; [left; reflexivity|].
        split; [exact Em|]. exists tm, em. auto.
      * rewrite lookup_insert_ne in H by exact Hne. auto.
Qed.

End EntityMap.

Section Trimming.

Lemma TrimSpace_substring (s : string) :
  exists a b, s = (a +:+ TrimSpace s +:+ b)%string.
Proof.
  unfold TrimSpace, TrimLeftSpace, TrimRightSpace.
  destruct (trim_go_decomp unicodeSpace eq_refl s O eq_refl) as (w & Hw & _).
  set (tl := trim_go unicodeSpace 0 s) in *.
  destruct (trim_go_decomp (map string_rev unicodeSpace) eq_refl (string_rev tl) O eq_refl)
    as (w' & Hw' & _).
  exists w, (string_rev w').
  rewrite <- string_rev_app, <- Hw', string_rev_involutive. exact Hw.
Qed.

(** Trimming makes no occurrence. *)
Lemma TrimSpace_Contains_inv (s sub : string) :
  Contains (TrimSpace s) sub = true -> Contains s sub = true.
Proof.
  intros H. apply Contains_iff in H as (a & b & H).
  destruct (TrimSpace_substring s) as (x & y & Hs).
  apply Contains_iff. exists (x +:+ a)%string, (b +:+ y)%string.
  rewrite Hs at 1. rewrite H, !append_assoc. reflexivity.
Qed.

End Trimming.

Section Drops.
Context `{RL : RegexpLib}.

Lemma patternSwitch_map (w : World) (d : Database) (operand : string)
    (pat : mapPatternsType) (creates : list string) (tp ep dp : Regexp) :
  rawDmsaSql w d "ddl" operand = (creates, None) ->
  Compile (tableCreate pat) = inl tp ->
  Compile (entityCreate pat) = inl ep ->
  Compile (entityDrop pat) = inl dp ->
  patternSwitch w d operand (mapPatterns pat)
  = bind_result (dmsaSqlMap_loop pat tp ep creates ∅) (fun '(m, err) =>
      match err with
      | Some e => Ok (inr e)
      | None => Ok (inl (Some m, dp))
      end).
Proof.
  intros Hraw Htp Hep Hdp. unfold patternSwitch, dmsaSqlMap, MustCompile.
  rewrite Hraw, Htp, Hep, Hdp. cbn [bind_result].
  destruct (dmsaSqlMap_loop pat tp ep creates ∅) as [[m [e|]]|p]; reflexivity.
Qed.

(** X5.  A drop statement is kept exactly when the table of the entity it
    names, as the creation statements give it, passes the filter. *)
Theorem drop_follows_creation (w : World) (d : Database) (op operand : string)
    (pat : mapPatternsType) (creates drops : list string) (tp ep dp : Regexp) :
  rawDmsaSql w d "ddl" operand = (creates, None) ->
  rawDmsaSql w d op operand = (drops, None) ->
  Compile (tableCreate pat) = inl tp ->
  Compile (entityCreate pat) = inl ep ->
  Compile (entityDrop pat) = inl dp ->
  has_group tp -> has_group ep -> has_group dp ->
  Forall (consistent tp ep) creates ->
  exists out err,
    dmsaSql w d op operand (mapPatterns pat) = Ok (out, err)
    /\ forall pre c post e t stmt sub,
         creates = (pre ++ c :: post)%list ->
         defines tp ep c e t ->
         (forall x t', In x post -> ~ defines tp ep x e t') ->
         In stmt drops ->
         Contains stmt "version_history" = false ->
         FindStringSubmatch dp (TrimSpace stmt) = Some sub ->
         nth_error sub 1 = Some e ->
         (In (TrimSpace stmt) out <-> filterDecision d t = true).
Proof.
  intros Hcreates Hdrops Htp Hep Hdp Hgt Hge Hgd Hcons.
  destruct (dmsaSqlMap_loop_consistent pat tp ep creates Hgt Hge Hcons ∅) as [m Hm].
  assert (Hsw : patternSwitch w d operand (mapPatterns pat) = Ok (inl (Some m, dp))).
  { rewrite (patternSwitch_map w d operand pat creates tp ep dp) by assumption.
    rewrite Hm. reflexivity. }
  destruct (dmsaSql_loop_filter d dp (Some m) drops Hgd [] None) as [err Hloop].
  exists (List.filter (keeps d dp (Some m)) (map TrimSpace drops)), err. split.
  { unfold dmsaSql. rewrite Hdrops, Hsw. exact Hloop. }
  intros pre c post e t stmt sub Hc Hdef Hlast Hin Hnm Hfind Hnth.
  pose proof (dmsaSqlMap_loop_last pat tp ep Hgt Hge pre c post e t Hdef Hlast
                ∅ m (eq_ind _ (fun l => dmsaSqlMap_loop pat tp ep l ∅ = Ok (m, None))
                       Hm _ Hc)) as Hlook.
  rewrite filter_In.
  assert (Hk : keeps d dp (Some m) (TrimSpace stmt) = filterDecision d t).
  { unfold keeps.
    destruct (Contains (TrimSpace stmt) "version_history") eqn:E.
    - apply TrimSpace_Contains_inv in E. congruence.
    - rewrite Hfind, Hnth, Hlook. reflexivity. }
  rewrite Hk. split; [tauto|]. intros H. split; [|exact H].
  apply in_map. exact Hin.
Qed.

Lemma dmsaSql_loop_lookup_step (d : Database) (dp : Regexp) (m : gmap string string)
    (x : string) (stmts : list string) :
  has_group dp ->
  forall acc err,
  exists acc',
    dmsaSql_loop d dp (Some m) (x :: stmts) acc err
    = dmsaSql_loop d dp (Some m) stmts acc'
        match unmappedEntity dp m (TrimSpace x) with
        | Some e => Some (lookupError e (TrimSpace x))
        | None => err
        end.
Proof.
  intros Hg acc err. cbn [dmsaSql_loop]. unfold shouldInclude, unmappedEntity.
  destruct (Contains (TrimSpace x) "version_history"); [eauto|].
  destruct (FindStringSubmatch dp (TrimSpace x)) as [sub|] eqn:Ef; [|eauto].
  destruct (index_slice_1 sub (Hg _ _ Ef)) as (e1 & -> & ->). cbn [bind_result].
  destruct (m !! e1); cbn [bind_result];
    (destruct (includeTables d); [|destruct (excludeTables d)]); eauto.
Qed.

Lemma dmsaSql_loop_mapped (d : Database) (dp : Regexp) (m : gmap string string)
    (stmts : list string) :
  has_group dp ->
  (forall x, In x stmts -> unmappedEntity dp m (TrimSpace x) = None) ->
  forall acc err, exists out, dmsaSql_loop d dp (Some m) stmts acc err = Ok (out, err).
Proof.
  intros Hg. induction stmts as [|x stmts IH]; intros Hall acc err.
  - exists acc. reflexivity.
  - destruct (dmsaSql_loop_lookup_step d dp m x stmts Hg acc err) as [acc' ->].
    rewrite (Hall x (or_introl eq_refl)).
    apply IH. intros y Hy. apply Hall. right. exact Hy.
Qed.

Lemma dmsaSql_loop_last_unmapped (d : Database) (dp : Regexp) (m : gmap string string)
    (pre post : list string) (s e : string) :
  has_group dp ->
  unmappedEntity dp m (TrimSpace s) = Some e ->
  (forall x, In x post -> unmappedEntity dp m (TrimSpace x) = None) ->
  forall acc err,
  exists out,
    dmsaSql_loop d dp (Some m) (pre ++ s :: post) acc err
    = Ok (out, Some (lookupError e (TrimSpace s))).
Proof.
  intros Hg Hs Hpost. induction pre as [|x pre IH]; intros acc err; cbn [app].
  - destruct (dmsaSql_loop_lookup_step d dp m s post Hg acc err) as [acc' ->].
    rewrite Hs. apply dmsaSql_loop_mapped; assumption.
  - destruct (dmsaSql_loop_lookup_step d dp m x (pre ++ s :: post) Hg acc err)
      as [acc' ->].
    apply IH.
Qed.

(** X6.  A statement that names an entity the creation statements do not
    give makes the operation fail before it executes or prints anything;
    the error shows the last such statement. *)
Theorem unmapped_entity_fails (w : World) (d : Database) (op operand : string)
    (pat : mapPatternsType) (creates pre post : list string) (s e : string)
    (tp ep dp : Regexp) (m : gmap string string) `{SE : SqlEngine}
    (tx : option sqlTx) (st : Proc) :
  rawDmsaSql w d "ddl" operand = (creates, None) ->
  rawDmsaSql w d op operand = ((pre ++ s :: post)%list, None) ->
  Compile (tableCreate pat) = inl tp ->
  Compile (entityCreate pat) = inl ep ->
  Compile (entityDrop pat) = inl dp ->
  has_group dp ->
  dmsaSqlMap_loop pat tp ep creates ∅ = Ok (m, None) ->
  unmappedEntity dp m (TrimSpace s) = Some e ->
  (forall x, In x post -> unmappedEntity dp m (TrimSpace x) = None) ->
  operateOnTables w d op operand (mapPatterns pat) tx st
  = (Ok (Some (lookupError e (TrimSpace s))), st).
Proof.
  intros Hcreates Hdrops Htp Hep Hdp Hg Hm Hs Hpost.
  destruct (dmsaSql_loop_last_unmapped d dp m pre post s e Hg Hs Hpost [] None)
    as [out Hloop].
  unfold operateOnTables, bind, lift, dmsaSql.
  rewrite Hdrops, (patternSwitch_map w d operand pat creates tp ep dp) by assumption.
  rewrite Hm. cbn [bind_result]. rewrite Hloop. reflexivity.
Qed.

End Drops.

Section Operations.
Context `{RL : RegexpLib} `{SE : SqlEngine}.

Lemma printed_nil (st : Proc) : printed st [] = st.
Proof. destruct st. unfold printed. cbn. rewrite app_nil_r. reflexivity. Qed.

Lemma printed_printed (st : Proc) (l l' : list string) :
  printed (printed st l) l' = printed st (l ++ l')%list.
Proof. unfold printed. cbn. rewrite app_assoc. reflexivity. Qed.

Lemma executeAll_dry (stmts : list string) (st : Proc) :
  executeAll None stmts st = (Ok None, printed st (map printedLine stmts)).
Proof.
  revert st. induction stmts as [|q stmts IH]; intros st.
  - cbn. rewrite printed_nil. reflexivity.
  - cbn [executeAll]. unfold bind at 1.
    change (executeSQL None q st) with (Ok (@None error), printed st [printedLine q]).
    cbv iota. rewrite IH, printed_printed. reflexivity.
Qed.

(** X7.  Without a database handle an operation prints its statements,
    in order, and touches nothing else. *)
Theorem dry_run_prints (w : World) (d : Database) (op operand : string)
    (patterns : patternsType) (stmts : list string) (st : Proc) :
  driverName d = "postgres" ->
  db d = None ->
  dmsaSql w d op operand patterns = Ok (stmts, None) ->
  ddlOperation w d op operand patterns st
  = (Ok None, printed st (map printedLine (searchPathStatements d ++ stmts))).
Proof.
  intros Hdrv Hdb Hsql. unfold ddlOperation, transact, operateOnTables, bind, lift.
  rewrite Hdrv, Hdb, Hsql, String.eqb_refl. unfold searchPathStatements.
  destruct (String.eqb (Schema d) EmptyString); cbn [negb app].
  - rewrite executeAll_dry. reflexivity.
  - change (executeSQL None ("SET search_path TO " +:+ Schema d) st)
      with (Ok (@None error), printed st [printedLine ("SET search_path TO " +:+ Schema d)]).
    cbv iota beta. rewrite executeAll_dry, printed_printed. reflexivity.
Qed.

Lemma executeSQL_inTx (st0 st : Proc) (sql : string) :
  inTx st0 st ->
  exists err st', executeSQL (Some Tx) sql st = (Ok err, st') /\ inTx st0 st'.
Proof.
  intros (Hc & [s Hp] & Ho). unfold executeSQL, bind, Exec, ret. rewrite Hp.
  destruct (sql_exec s (TrimSpace sql)) as [s'|e]; eexists _, _;
    (split; [reflexivity|]); repeat split; cbn; eauto.
Qed.

Lemma executeAll_inTx (stmts : list string) (st0 : Proc) :
  forall st,
    inTx st0 st ->
    exists err st', executeAll (Some Tx) stmts st = (Ok err, st') /\ inTx st0 st'.
Proof.
  induction stmts as [|q stmts IH]; intros st Hin.
  - exists None, st. split; [reflexivity | exact Hin].
  - cbn [executeAll]. unfold bind at 1.
    destruct (executeSQL_inTx st0 st q Hin) as ([e|] & st1 & -> & Hin1).
    + eexists _, st1. split; [reflexivity | exact Hin1].
    + apply IH. exact Hin1.
Qed.

Lemma operateOnTables_inTx (w : World) (d : Database) (op operand : string)
    (patterns : patternsType) (st0 st : Proc) :
  inTx st0 st ->
  exists r st', operateOnTables w d op operand patterns (Some Tx) st = (r, st')
                /\ inTx st0 st'.
Proof.
  intros Hin. unfold operateOnTables, bind at 1, lift.
  destruct (dmsaSql w d op operand patterns) as [[stmts [e|]]|p].
  - eexists _, st. split; [reflexivity | exact Hin].
  - destruct (negb (String.eqb (Schema d) EmptyString)).
    + destruct (String.eqb (driverName d) "postgres").
      * unfold bind.
        destruct (executeSQL_inTx st0 st ("SET search_path TO " +:+ Schema d) Hin)
          as ([e|] & st1 & -> & Hin1).
        -- eexists _, st1. split; [reflexivity | exact Hin1].
        -- destruct (executeAll_inTx stmts st0 st1 Hin1) as (err & st2 & -> & Hin2).
           eexists _, st2. split; [reflexivity | exact Hin2].
      * eexists _, st. split; [reflexivity | exact Hin].
    + destruct (executeAll_inTx stmts st0 st Hin) as (err & st2 & -> & Hin2).
      eexists _, st2. split; [reflexivity | exact Hin2].
  - eexists _, st. split; [reflexivity | exact Hin].
Qed.

(** X8.  An operation on a database never panics and is all or nothing:
    it ends with no transaction left open, and whenever it returns an
    error the database holds what it held before. *)
Theorem ddlOperation_all_or_nothing (w : World) (d : Database) (op operand : string)
    (patterns : patternsType) (h : sqlDB) (st : Proc) :
  driverName d = "postgres" ->
  db d = Some h ->
  db_Begin w h = None ->
  exists err st',
    ddlOperation w d op operand patterns st = (Ok err, st')
    /\ pending st' = None
    /\ stdout st' = stdout st
    /\ (is_Some err -> committed st' = committed st).
Proof.
  intros Hdrv Hdb Hbegin. unfold ddlOperation, transact, Begin.
  rewrite Hdrv, Hdb, Hbegin, String.eqb_refl.
  destruct (operateOnTables_inTx w d op operand patterns st
              (set_pending (Some (committed st)) st))
    as (r & st1 & -> & Hc & [s Hp] & Ho).
  { repeat split; cbn; eauto. }
  assert (Hroll : forall e,
             exists st', transact_deferred w (Some Tx) (Some e) st1 = (Ok (Some e), st')
                         /\ pending st' = None /\ stdout st' = stdout st
                         /\ committed st' = committed st).
  { intros e. unfold transact_deferred, bind, Rollback, ret. rewrite Hp.
    eexists. split; [reflexivity|]. cbn. auto. }
  destruct r as [[e|]|p].
  - destruct (Hroll e) as (st' & -> & ? & ? & ?). exists (Some e), st'. auto.
  - unfold transact_deferred, Commit. rewrite Hp.
    destruct (tx_Commit w) as [e|]; eexists _, _; (split; [reflexivity|]); cbn.
    + auto.
    + repeat split; auto. intros [x [=]].
  - destruct (Hroll p) as (st' & Heq & ? & ? & ?). exists (Some p), st'.
    split; [exact Heq | auto].
Qed.

End Operations.

Section Service.

Lemma take_drop (n : nat) (s : string) : (take n s +:+ drop n s)%string = s.
Proof.
  revert n. induction s as [|c s IH]; intros [|n]; cbn; try reflexivity.
  rewrite IH. reflexivity.
Qed.

Lemma HasSuffix_iff (s suf : string) :
  HasSuffix s suf = true <-> exists b, s = (b +:+ suf)%string.
Proof.
  unfold HasSuffix. split.
  - intros H. apply andb_true_iff in H as [_ H]. apply String.eqb_eq in H.
    exists (take (String.length s - String.length suf) s).
    pose proof (take_drop (String.length s - String.length suf) s) as Htd.
    rewrite H in Htd. symmetry. exact Htd.
  - intros [b ->]. rewrite length_append. apply andb_true_iff. split.
    + apply Nat.leb_le. lia.
    + replace (String.length b + String.length suf - String.length suf)%nat
        with (String.length b) by lia.
      rewrite drop_app. apply String.eqb_refl.
Qed.

(** X9.  [joinUrlPath] puts exactly one slash between the two parts: one
    slash that ends the base or begins the path is used, and a slash is
    added when there is neither. *)
Theorem joinUrlPath_one_slash (base path : string) :
  exists b p,
    joinUrlPath base path = (b +:+ "/" +:+ p)%string
    /\ (base = (b +:+ "/")%string \/ (base = b /\ HasSuffix base "/" = false))
    /\ (path = ("/" +:+ p)%string \/ (path = p /\ HasPrefix path "/" = false)).
Proof.
  unfold joinUrlPath.
  destruct (HasSuffix base "/") eqn:Eb; destruct (HasPrefix path "/") eqn:Ep; cbn.
  - apply HasSuffix_iff in Eb as [b ->]. apply HasPrefix_iff in Ep as [p ->].
    exists b, p. rewrite append_assoc. cbn. auto.
  - apply HasSuffix_iff in Eb as [b ->]. exists b, path.
    rewrite append_assoc. auto.
  - apply HasPrefix_iff in Ep as [p ->]. exists base, p. auto.
  - exists base, path. auto.
Qed.

(** X10.  The validity cache has no key: once a model and version were
    found valid, every later check answers valid, for any model, version
    and service, without a request; a check that does not find them valid
    leaves an empty cache empty. *)
Theorem isValidModelVersion_cache_sticks (w : World) (model version dmsaUrl : string) :
  let r := isValidModelVersion w None model version dmsaUrl in
  (fst (fst r) = true ->
   forall w' model' version' dmsaUrl',
     isValidModelVersion w' (snd r) model' version' dmsaUrl' = ((true, None), Some true))
  /\ (fst (fst r) = false -> snd r = None).
Proof.
  unfold isValidModelVersion.
  destruct (negb (length (Split version ".") =? 3)%nat); cbn.
  { split; [discriminate | reflexivity]. }
  destruct (http_Get w dmsaUrl) as [resp|e]; cbn; [|split; [discriminate | reflexivity]].
  destruct (negb (StatusCode resp =? 200)); cbn; [split; [discriminate | reflexivity]|].
  destruct (http_Get w _) as [resp'|e']; cbn; [|split; [discriminate | reflexivity]].
  destruct (negb (StatusCode resp' =? 200)); cbn; split;
    try discriminate; reflexivity.
Qed.

End Service.

Section Opening.
Context `{RL : RegexpLib} `{SE : SqlEngine}.

Lemma compileOptional_stored (what pat : string) (re : option Regexp) :
  compileOptional what pat = (re, None) -> storedPattern pat re.
Proof.
  unfold compileOptional.
  destruct (String.eqb_spec pat EmptyString) as [->|Hne]; cbn [negb].
  - intros [= <-]. reflexivity.
  - destruct (Compile pat) as [r|e] eqn:E; [|discriminate]. intros [= <-].
    split; [exact Hne | exact E].
Qed.

(** [Open] returns an error and no database, or no error and a database
    of this shape. *)
Lemma Open_shape (w : World)
    (model modelVersion databaseUrl schema dmsaUrl includeTablesPat excludeTablesPat : string)
    (st st' : Proc) (od : option Database) (err : option error) :
  Open w model modelVersion databaseUrl schema dmsaUrl includeTablesPat excludeTablesPat st
  = (Ok (od, err), st') ->
  (od = None /\ is_Some err)
  \/ (err = None
      /\ exists inc exc h,
           od = Some {| Model := resolvedModel model; ModelVersion := modelVersion;
                        DatabaseUrl := databaseUrl; Schema := schema;
                        DmsaUrl := if String.eqb dmsaUrl EmptyString
                                   then defaultDmsaUrl else dmsaUrl;
                        db := Some h; driverName := "postgres";
                        includeTables := inc; excludeTables := exc |}
           /\ compileOptional "includeTablesPat" (resolvedInclude model includeTablesPat)
              = (inc, None)
           /\ compileOptional "excludeTablesPat" (resolvedExclude model excludeTablesPat)
              = (exc, None)
           /\ cachedIsValidVersion st' = Some true
           /\ (cachedIsValidVersion st = None -> length (Split modelVersion ".") = 3%nat)).
Proof.
  unfold Open.
  set (url := if String.eqb dmsaUrl EmptyString then defaultDmsaUrl else dmsaUrl).
  unfold bind at 1.
  set (alias := if String.eqb model "pedsnet-core" then _ else _).
  assert (Halias : (exists p, alias st = (Panic p, st))
                   \/ exists st1,
                        alias st = (Ok (resolvedModel model,
                                        resolvedInclude model includeTablesPat,
                                        resolvedExclude model excludeTablesPat), st1)
                        /\ cachedIsValidVersion st1 = cachedIsValidVersion st).
  { unfold alias, resolvedModel, resolvedInclude, resolvedExclude, warnMinorVersion,
      bind, lift, ret, Fprintf_Stderr.
    destruct (String.eqb_spec model "pedsnet-core") as [->|Hc]; cbn [orb andb].
    - destruct (String.eqb excludeTablesPat EmptyString); [|right; eauto].
      destruct (versionMatchesMinorVersion modelVersion pedsnetMinorVersionSupported)
        as [[|]|p]; [right; eauto | right; eauto | left; eauto].
    - destruct (String.eqb model "pedsnet-vocab"); cbn [orb andb]; [|right; eauto].
      destruct (String.eqb includeTablesPat EmptyString); [|right; eauto].
      destruct (versionMatchesMinorVersion modelVersion pedsnetMinorVersionSupported)
        as [[|]|p]; [right; eauto | right; eauto | left; eauto]. }
  destruct Halias as [[p ->]|(st1 & -> & Hcache)]; [discriminate|].
  clearbody alias. cbv iota beta.
  destruct (compileOptional "includeTablesPat" (resolvedInclude model includeTablesPat))
    as [inc [e|]] eqn:Einc.
  { intros [= <- <- <-]. left. eauto. }
  destruct (compileOptional "excludeTablesPat" (resolvedExclude model excludeTablesPat))
    as [exc [e|]] eqn:Eexc.
  { intros [= <- <- <-]. left. eauto. }
  unfold bind, with_cache, checkModelAndVersion. cbn [Model ModelVersion DmsaUrl].
  destruct (isValidModelVersion w (cachedIsValidVersion st1) (resolvedModel model)
              modelVersion url) as [[valid verr] cache'] eqn:Evalid.
  assert (Hvalid : valid = true -> verr = None ->
                   cache' = Some true
                   /\ (cachedIsValidVersion st = None ->
                       length (Split modelVersion ".") = 3%nat)).
  { intros -> ->. rewrite Hcache in Evalid. unfold isValidModelVersion in Evalid.
    destruct (cachedIsValidVersion st) as [b|].
    - injection Evalid as -> <-. split; [reflexivity | discriminate].
    - destruct (Nat.eqb_spec (length (Split modelVersion ".")) 3) as [E3|E3];
        cbn [negb] in Evalid; [|discriminate].
      destruct (http_Get w url) as [r|]; [|discriminate].
      destruct (negb (StatusCode r =? 200)); [discriminate|].
      destruct (http_Get w _) as [r'|]; [|discriminate].
      destruct (negb (StatusCode r' =? 200)); [discriminate|].
      injection Evalid as <-. auto. }
  destruct verr as [e|].
  { intros [= <- <- <-]. left. eauto. }
  destruct valid; cbn [negb].
  2: { intros [= <- <- <-]. left. eauto. }
  destruct (Hvalid eq_refl eq_refl) as [-> Hthree].
  unfold driverNameFromUrl.
  destruct (url_Parse_Scheme w databaseUrl) as [scheme|e].
  2: { intros [= <- <- <-]. left. eauto. }
  destruct (String.eqb scheme "postgres" || String.eqb scheme "postgresql").
  2: { intros [= <- <- <-]. left. eauto. }
  unfold openDatabase.
  destruct (sql_Open w "postgres" databaseUrl) as [h|e].
  2: { intros [= <- <- <-]. left. eauto. }
  destruct (db_Ping w h) as [e|].
  { intros [= <- <- <-]. left. eauto. }
  intros [= <- <- <-]. right. split; [reflexivity|].
  exists inc, exc, h. cbn. auto.
Qed.

(** X11.  What [Open] returns: an error or a database, never both, and a
    database that is ready for the DDL operations. *)
Theorem Open_result (w : World)
    (model modelVersion databaseUrl schema dmsaUrl includeTablesPat excludeTablesPat : string)
    (st st' : Proc) (od : option Database) (err : option error) :
  Open w model modelVersion databaseUrl schema dmsaUrl includeTablesPat excludeTablesPat st
  = (Ok (od, err), st') ->
  (od = None <-> is_Some err)
  /\ forall d,
       od = Some d ->
       Model d = resolvedModel model
       /\ ModelVersion d = modelVersion
       /\ DmsaUrl d = (if String.eqb dmsaUrl EmptyString then defaultDmsaUrl else dmsaUrl)
       /\ driverName d = "postgres"
       /\ is_Some (db d)
       /\ storedPattern (resolvedInclude model includeTablesPat) (includeTables d)
       /\ storedPattern (resolvedExclude model excludeTablesPat) (excludeTables d)
       /\ cachedIsValidVersion st' = Some true
       /\ (cachedIsValidVersion st = None -> length (Split modelVersion ".") = 3%nat).
Proof.
  intros H.
  destruct (Open_shape _ _ _ _ _ _ _ _ _ _ _ _ H)
    as [[-> [e ->]]|(-> & inc & exc & h & -> & Hinc & Hexc & Hcache & Hthree)].
  - split; [split; eauto | discriminate].
  - split.
    + split; [discriminate | intros [x [=]]].
    + intros d [= <-]. cbn.
      apply compileOptional_stored in Hinc, Hexc.
      repeat split; eauto.
Qed.

End Opening.

Section Versions.

Lemma Contains_true_cons (c : ascii) (s sub : string) :
  HasPrefix (String c s) sub = false ->
  Contains (String c s) sub = true -> Contains s sub = true.
Proof.
  unfold Contains, Index. rewrite index_from_unfold. intros ->.
  destruct (index_from sub s) as [i|]; cbn; [|discriminate].
  intros _. apply Z.leb_le. lia.
Qed.

Lemma split_go_unfold (sep : string) (c : ascii) (s : string) :
  split_go sep O (String c s)
  = if HasPrefix (String c s) sep
    then EmptyString :: split_go sep (String.length sep - 1) s
    else match split_go sep O s with
         | p :: ps => String c p :: ps
         | [] => [String c EmptyString]
         end.
Proof. reflexivity. Qed.

(** With a separator in it the string has at least two pieces. *)
Lemma Split_with_sep (s sep : string) :
  sep <> EmptyString -> Contains s sep = true ->
  exists p q rest, Split s sep = p :: q :: rest.
Proof.
  intros Hsep. unfold Split. destruct sep as [|d sep]; [congruence|].
  induction s as [|c s IH]; intros H.
  - discriminate H.
  - rewrite split_go_unfold.
    destruct (HasPrefix (String c s) (String d sep)) eqn:Ep.
    + destruct (split_go (String d sep) (String.length (String d sep) - 1) s)
        as [|q rest] eqn:E.
      * exfalso. revert E. apply split_go_nonempty.
      * eauto.
    + destruct (IH (Contains_true_cons _ _ _ Ep H)) as (p & q & rest & ->). eauto.
Qed.

(** A piece without the one-byte separator, then the separator. *)
Lemma Split_piece (x rest : string) (c : ascii) :
  Contains x (String c EmptyString) = false ->
  Split (x +:+ String c rest) (String c EmptyString)
  = x :: Split rest (String c EmptyString).
Proof.
  unfold Split. induction x as [|a x IH]; intros H.
  - cbn [append]. rewrite split_go_unfold.
    assert (HasPrefix (String c rest) (String c EmptyString) = true) as ->
      by (apply HasPrefix_cons; split; [reflexivity | apply HasPrefix_nil]).
    reflexivity.
  - apply Contains_false_cons in H as [Hp Hc].
    rewrite append_cons, split_go_unfold.
    assert (HasPrefix (String a (x +:+ String c rest)) (String c EmptyString) = false) as ->.
    { destruct (HasPrefix (String a (x +:+ String c rest)) (String c EmptyString)) eqn:E;
        [|reflexivity].
      apply HasPrefix_cons in E as [-> _].
      assert (HasPrefix (String a x) (String a EmptyString) = true)
        by (apply HasPrefix_cons; split; [reflexivity | apply HasPrefix_nil]).
      congruence. }
    rewrite (IH Hc). reflexivity.
Qed.

Lemma Split_two (x y : string) :
  Contains x "." = false -> Contains y "." = false ->
  Split (x +:+ "." +:+ y) "." = [x; y].
Proof.
  intros Hx Hy. change (x +:+ "." +:+ y)%string with (x +:+ String "." y)%string.
  rewrite (Split_piece x y "." Hx), (Split_no_sep y "."); [reflexivity | discriminate | exact Hy].
Qed.

Lemma Split_three (x y z : string) :
  Contains x "." = false -> Contains y "." = false -> Contains z "." = false ->
  Split (x +:+ "." +:+ y +:+ "." +:+ z) "." = [x; y; z].
Proof.
  intros Hx Hy Hz.
  change (x +:+ "." +:+ y +:+ "." +:+ z)%string
    with (x +:+ String "." (y +:+ "." +:+ z))%string.
  rewrite (Split_piece x _ "." Hx), Split_two by assumption. reflexivity.
Qed.

End Versions.

Section OpenPanics.
Context `{RL : RegexpLib} `{SE : SqlEngine}.

(** Case analysis on the innermost scrutinee, until a constructor clash. *)
Ltac open_cases :=
  cbv beta iota;
  repeat match goal with
         | |- context [match ?x with _ => _ end] =>
             lazymatch x with
             | context [match _ with _ => _ end] => fail
             | _ => destruct x; cbv beta iota
             end
         end;
  discriminate.

(** X12.  The comparison with the supported version panics exactly on a
    version without a dot; otherwise it compares the first two pieces and
    ignores the rest. *)
Theorem versionMatchesMinorVersion_result (version reference : string) :
  (Contains version "." = false ->
   versionMatchesMinorVersion version reference
   = Panic "runtime error: index out of range [1] with length 1")
  /\ (Contains version "." = true ->
      exists x y rest,
        Split version "." = x :: y :: rest
        /\ versionMatchesMinorVersion version reference
           = Ok (String.eqb (x +:+ "." +:+ y) reference)).
Proof.
  split.
  - apply versionMatchesMinorVersion_panics.
  - intros H. destruct (Split_with_sep version "." ltac:(discriminate) H)
      as (x & y & rest & Hs).
    exists x, y, rest. split; [exact Hs|].
    unfold versionMatchesMinorVersion. rewrite Hs. reflexivity.
Qed.

(** X13.  [Open] panics in no other case than a version without a dot
    under a model alias whose pattern is left to the default. *)
Theorem Open_panics_iff (w : World)
    (model modelVersion databaseUrl schema dmsaUrl includeTablesPat excludeTablesPat : string)
    (st : Proc) :
  (exists p st',
     Open w model modelVersion databaseUrl schema dmsaUrl includeTablesPat
       excludeTablesPat st = (Panic p, st'))
  <-> Contains modelVersion "." = false
      /\ ((model = "pedsnet-core" /\ excludeTablesPat = EmptyString)
          \/ (model = "pedsnet-vocab" /\ includeTablesPat = EmptyString)).
Proof.
  split.
  - intros (p & st' & H).
    destruct (Contains modelVersion ".") eqn:Edot.
    + exfalso. revert H.
      destruct (Split_with_sep modelVersion "." ltac:(discriminate) Edot)
        as (x & y & rest & Hs).
      assert (Hvm : versionMatchesMinorVersion modelVersion pedsnetMinorVersionSupported
                    = Ok (String.eqb (x +:+ "." +:+ y) pedsnetMinorVersionSupported))
        by (unfold versionMatchesMinorVersion; rewrite Hs; reflexivity).
      unfold Open, warnMinorVersion, bind, lift, with_cache, ret, Fprintf_Stderr.
      rewrite Hvm.
      open_cases.
    + split; [reflexivity|]. revert H.
      unfold Open, warnMinorVersion, bind, lift, with_cache, ret, Fprintf_Stderr.
      destruct (String.eqb_spec model "pedsnet-core") as [->|Hc].
      * destruct (String.eqb_spec excludeTablesPat EmptyString) as [->|He]; [auto|].
        intros H. exfalso. revert H.
        open_cases.
      * destruct (String.eqb_spec model "pedsnet-vocab") as [->|Hv].
        -- destruct (String.eqb_spec includeTablesPat EmptyString) as [->|Hi]; [auto|].
           intros H. exfalso. revert H.
           open_cases.
        -- intros H. exfalso. revert H.
           open_cases.
  - intros [Hdot Hcase]. exists "runtime error: index out of range [1] with length 1", st.
    unfold Open, warnMinorVersion, bind, lift.
    rewrite (versionMatchesMinorVersion_panics _ _ Hdot).
    destruct Hcase as [[-> ->]|[-> ->]]; reflexivity.
Qed.

End OpenPanics.

Section Aliases.
Context `{RL : RegexpLib} `{SE : SqlEngine}.

Lemma keeps_resolved (d : Database) (pattern : Regexp)
    (emap : option (gmap string string)) (stmt table : string) :
  Contains stmt "version_history" = false ->
  resolvedTable pattern emap stmt = Some table ->
  keeps d pattern emap stmt = filterDecision d table.
Proof.
  intros Hm. unfold resolvedTable, keeps. rewrite Hm.
  destruct (FindStringSubmatch pattern stmt) as [sub|]; [|discriminate].
  destruct (nth_error sub 1) as [x|]; [|discriminate].
  destruct emap as [m|]; [intros -> | intros [= ->]]; reflexivity.
Qed.

(** X14.  The two model aliases, opened with their default patterns, split
    the tables between them: a statement with a resolved table name is
    kept under exactly one of [pedsnet-core] and [pedsnet-vocab]. *)
Theorem core_and_vocab_partition (w1 w2 : World)
    (version1 version2 url1 url2 schema1 schema2 dmsa1 dmsa2 : string)
    (st1 st2 st1' st2' : Proc) (core vocab : Database) (err1 err2 : option error)
    (pattern : Regexp) (emap : option (gmap string string)) (stmt table : string) :
  Open w1 "pedsnet-core" version1 url1 schema1 dmsa1 "" "" st1
  = (Ok (Some core, err1), st1') ->
  Open w2 "pedsnet-vocab" version2 url2 schema2 dmsa2 "" "" st2
  = (Ok (Some vocab, err2), st2') ->
  Contains stmt "version_history" = false ->
  resolvedTable pattern emap stmt = Some table ->
  keeps core pattern emap stmt = negb (keeps vocab pattern emap stmt).
Proof.
  intros Hcore Hvocab Hm Ht.
  destruct (Open_shape _ _ _ _ _ _ _ _ _ _ _ _ Hcore)
    as [[[=] _]|(_ & ic & ec & hc & [= ->] & Hci & Hce & _)].
  destruct (Open_shape _ _ _ _ _ _ _ _ _ _ _ _ Hvocab)
    as [[[=] _]|(_ & iv & ev & hv & [= ->] & Hvi & Hve & _)].
  apply compileOptional_stored in Hci, Hce, Hvi, Hve.
  rewrite !(keeps_resolved _ _ _ _ _ Hm Ht). unfold filterDecision.
  cbn in *.
  destruct ic; [destruct Hci; congruence|].
  destruct ec as [rc|]; [|discriminate Hce].
  destruct iv as [rv|]; [|discriminate Hvi].
  destruct Hce as [_ Hc]. destruct Hvi as [_ Hv].
  assert (rc = rv) as -> by congruence. reflexivity.
Qed.

End Aliases.

Module LoadRun.
Import Load.
Import LoadFacts.

Lemma int_wrap_add_l (a b : Z) : int_wrap (int_wrap a + b) = int_wrap (a + b).
Proof.
  unfold int_wrap.
  replace ((a + 2 ^ 63) mod 2 ^ 64 - 2 ^ 63 + b + 2 ^ 63)
    with ((a + 2 ^ 63) mod 2 ^ 64 + b) by lia.
  rewrite Zplus_mod_idemp_l. do 2 f_equal. lia.
Qed.

(** Without a read error the loop ends as one read of the whole content
    does. *)
Lemma lineCounter_loop_content (r : Reader) :
  reader_error r = None ->
  forall count lastByte,
    lineCounter_loop r (int_wrap count) lastByte
    = lineCounter_eof (int_wrap (count + Count (reader_content r) LF))
        (last_byte (reader_content r) lastByte).
Proof.
  induction r as [|res r IH]; intros Herr count lastByte.
  - cbn. rewrite Z.add_0_r. reflexivity.
  - cbn [lineCounter_loop reader_error reader_content] in *.
    destruct (rerr res) as [[|msg]|].
    + rewrite append_nil_r, int_wrap_add_l. reflexivity.
    + discriminate.
    + rewrite int_wrap_add_l, (IH Herr), Count_app, last_byte_app.
      rewrite Z.add_assoc. reflexivity.
Qed.

(** With a read error the loop stops at it. *)
Lemma lineCounter_loop_stopped (r : Reader) (e : error) :
  reader_error r = Some e ->
  forall count lastByte,
    lineCounter_loop r (int_wrap count) lastByte
    = ((int_wrap (count + Count (reader_content r) LF), Some e), []).
Proof.
  induction r as [|res r IH]; intros Herr count lastByte.
  - discriminate.
  - cbn [lineCounter_loop reader_error reader_content] in *.
    destruct (rerr res) as [[|msg]|].
    + discriminate.
    + injection Herr as ->. rewrite append_nil_r, int_wrap_add_l. reflexivity.
    + rewrite int_wrap_add_l, (IH Herr), Count_app, Z.add_assoc. reflexivity.
Qed.

(** X15.  The count does not depend on how the reads cut the file: two
    readers that deliver the same bytes without a read error give the
    same count and the same warning. *)
Theorem lineCounter_any_chunking (r1 r2 : Reader) :
  reader_error r1 = None ->
  reader_error r2 = None ->
  reader_content r1 = reader_content r2 ->
  lineCounter r1 = lineCounter r2.
Proof.
  intros H1 H2 Hc. unfold lineCounter.
  change 0 with (int_wrap 0).
  rewrite (lineCounter_loop_content r1 H1), (lineCounter_loop_content r2 H2), Hc.
  reflexivity.
Qed.

(** X16.  A read error ends the count: the newlines read so far are
    returned with the error, a last line without newline is not added,
    and nothing is logged. *)
Theorem lineCounter_read_error (r : Reader) (e : error) :
  reader_error r = Some e ->
  lineCounter r = ((int_wrap (Count (reader_content r) LF), Some e), []).
Proof.
  intros H. unfold lineCounter. change 0 with (int_wrap 0) at 1.
  rewrite (lineCounter_loop_stopped r e H). reflexivity.
Qed.

Lemma lineCounter_eof_logs (count : Z) (lastByte : ascii) :
  forallb is_log (snd (lineCounter_eof count lastByte)) = true.
Proof. unfold lineCounter_eof. destruct (negb _); reflexivity. Qed.

Lemma lineCounter_loop_logs (r : Reader) :
  forall count lastByte, forallb is_log (snd (lineCounter_loop r count lastByte)) = true.
Proof.
  induction r as [|res r IH]; intros count lastByte; cbn [lineCounter_loop].
  - apply lineCounter_eof_logs.
  - destruct (rerr res) as [[|msg]|]; [apply lineCounter_eof_logs | reflexivity | apply IH].
Qed.

Lemma forallb_is_log_In (tr : list Event) (e : Event) :
  forallb is_log tr = true -> In e tr -> is_log e = true.
Proof. intros H Hin. rewrite forallb_forall in H. auto. Qed.

Lemma lineCounter_no_event (r : Reader) (e : Event) :
  is_log e = false -> ~ In e (snd (lineCounter r)).
Proof.
  intros He Hin.
  pose proof (forallb_is_log_In _ e (lineCounter_loop_logs r 0 LF) Hin). congruence.
Qed.

(** Settles a goal [In e trace -> _] on a trace that is written out. *)
Ltac trace_leaf :=
  cbn; rewrite ?in_app_iff; cbn;
  let H := fresh in
  intros H; decompose [or] H; clear H;
  first [discriminate | congruence | contradiction | tauto].

(** X17.  The copy subprocess is started only after the header row was
    read, [psql] found, the URL parsed and the schema found, and with the
    command line made from them. *)
Theorem copy_runs_after_checks (w : World)
    (databaseUrl searchPath table csvFile : string) (wg : WaitGroup) (cmdStr : string) :
  In (EvRun cmdStr) (snd (copyCommand w databaseUrl searchPath table csvFile wg)) ->
  exists reader columnNames path connectionString primarySchema,
    os_Open w csvFile = inl reader
    /\ csv_Read w reader = inl columnNames
    /\ exec_LookPath w "psql" = inl path
    /\ pq_ParseURL w databaseUrl = inl connectionString
    /\ primarySchemaInSearchPath w searchPath = (primarySchema, None)
    /\ cmdStr = copyCmdStr connectionString primarySchema table
                  (Join columnNames ", ") csvFile.
Proof.
  unfold copyCommand, columnNamesFromCsvFile, rowsInTable, rowsInFile, analyze,
    open_database, open_file, log, emit, bind, ret.
  destruct (os_Open w csvFile) as [reader|e] eqn:Eo; [|trace_leaf].
  destruct (csv_Read w reader) as [cols|e] eqn:Ec; [|trace_leaf].
  destruct (exec_LookPath w "psql") as [path|e] eqn:El; [|trace_leaf].
  destruct (pq_ParseURL w databaseUrl) as [conn|e] eqn:Ep; [|trace_leaf].
  destruct (primarySchemaInSearchPath w searchPath) as [schema [e|]] eqn:Es; [trace_leaf|].
  intros Hin. exists reader, cols, path, conn, schema.
  repeat (split; [first [reflexivity | assumption]|]).
  remember (copyCmdStr conn schema table (Join cols ", ") csvFile) as c eqn:Hc.
  clear Hc. revert Hin.
  destruct (sh_Run w c) as [[e1 e2]|]; [trace_leaf|].
  destruct (OpenDatabase w databaseUrl searchPath) as [db|e]; [|trace_leaf].
  destruct (db_QueryRow_Scan w db _) as [n|e]; [|trace_leaf].
  pose proof (lineCounter_no_event reader (EvRun cmdStr) eq_refl) as Hl.
  destruct (lineCounter reader) as [[m [e|]] ltr]; [trace_leaf|].
  destruct (negb (n =? int_wrap (m - 1))); [trace_leaf|].
  destruct (OpenDatabase w databaseUrl EmptyString) as [db'|e]; [|trace_leaf].
  destruct (db_Exec w db' _); trace_leaf.
Qed.

(** X18.  A task that reports success has run the copy, and has found in
    the table as many rows as the file has lines after the header. *)
Theorem copyCommand_success_verified (w : World)
    (databaseUrl searchPath table csvFile : string) (wg : WaitGroup) :
  fst (copyCommand w databaseUrl searchPath table csvFile wg) = None ->
  exists primarySchema cmdStr c reader actualRows lines,
    copySucceeds w databaseUrl searchPath table csvFile primarySchema cmdStr
    /\ In (EvRun cmdStr) (snd (copyCommand w databaseUrl searchPath table csvFile wg))
    /\ OpenDatabase w databaseUrl searchPath = inl c
    /\ db_QueryRow_Scan w c (countSql table) = inl actualRows
    /\ os_Open w csvFile = inl reader
    /\ fst (lineCounter reader) = (lines, None)
    /\ actualRows = int_wrap (lines - 1).
Proof.
  unfold copyCommand, columnNamesFromCsvFile, rowsInTable, rowsInFile, analyze,
    open_database, open_file, log, emit, bind, ret.
  fold (countSql table).
  destruct (os_Open w csvFile) as [reader|e] eqn:Eo; [|discriminate].
  destruct (csv_Read w reader) as [cols|e] eqn:Ec; [|discriminate].
  destruct (exec_LookPath w "psql") as [path|e] eqn:El; [|discriminate].
  destruct (pq_ParseURL w databaseUrl) as [conn|e] eqn:Ep; [|discriminate].
  destruct (primarySchemaInSearchPath w searchPath) as [schema [e|]] eqn:Es; [discriminate|].
  remember (copyCmdStr conn schema table (Join cols ", ") csvFile) as cmd eqn:Hcmd.
  destruct (sh_Run w cmd) as [[e1 e2]|] eqn:Er; [discriminate|].
  destruct (OpenDatabase w databaseUrl searchPath) as [c|e] eqn:Ed; [|discriminate].
  destruct (db_QueryRow_Scan w c (countSql table)) as [n|e] eqn:Eq; [|discriminate].
  destruct (lineCounter reader) as [[m [e|]] ltr] eqn:Elc; [discriminate|].
  destruct (Z.eqb_spec n (int_wrap (m - 1))) as [En|En]; cbn [negb]; [|discriminate].
  intros _. exists schema, cmd, c, reader, n, m.
  split.
  { exists reader, cols, path, conn. auto 10. }
  split.
  { destruct (OpenDatabase w databaseUrl EmptyString) as [db'|e]; [|cbn; tauto].
    destruct (db_Exec w db' _); cbn; tauto. }
  rewrite Elc. auto.
Qed.

(** X19.  The table is vacuumed only by a task that reports success: a
    task that returns an error has executed no statement. *)
Theorem vacuum_only_after_success (w : World)
    (databaseUrl searchPath table csvFile : string) (wg : WaitGroup) (sql : string) :
  In (EvExec sql) (snd (copyCommand w databaseUrl searchPath table csvFile wg)) ->
  fst (copyCommand w databaseUrl searchPath table csvFile wg) = None
  /\ exists primarySchema,
       primarySchemaInSearchPath w searchPath = (primarySchema, None)
       /\ sql = vacuumSql primarySchema table.
Proof.
  unfold copyCommand, columnNamesFromCsvFile, rowsInTable, rowsInFile, analyze,
    open_database, open_file, log, emit, bind, ret.
  destruct (os_Open w csvFile) as [reader|e] eqn:Eo; [|trace_leaf].
  destruct (csv_Read w reader) as [cols|e] eqn:Ec; [|trace_leaf].
  destruct (exec_LookPath w "psql") as [path|e] eqn:El; [|trace_leaf].
  destruct (pq_ParseURL w databaseUrl) as [conn|e] eqn:Ep; [|trace_leaf].
  destruct (primarySchemaInSearchPath w searchPath) as [schema [e|]] eqn:Es; [trace_leaf|].
  destruct (sh_Run w _) as [[e1 e2]|]; [trace_leaf|].
  destruct (OpenDatabase w databaseUrl searchPath) as [db|e]; [|trace_leaf].
  destruct (db_QueryRow_Scan w db _) as [n|e]; [|trace_leaf].
  pose proof (lineCounter_no_event reader (EvExec sql) eq_refl) as Hl.
  destruct (lineCounter reader) as [[m [e|]] ltr]; [trace_leaf|].
  destruct (negb (n =? int_wrap (m - 1))); [trace_leaf|].
  fold (vacuumSql schema table).
  assert (Hgoal : EvExec (vacuumSql schema table) = EvExec sql ->
                  @None error = None
                  /\ exists primarySchema,
                       (schema, @None error) = (primarySchema, None)
                       /\ sql = vacuumSql primarySchema table).
  { intros [= <-]. eauto. }
  destruct (OpenDatabase w databaseUrl EmptyString) as [db'|e]; [|trace_leaf].
  destruct (db_Exec w db' _); trace_leaf.
Qed.

Lemma masterError_loop_acc (taskErrors : list error) :
  forall acc,
    masterError_loop taskErrors acc = acc +:+ masterError_loop taskErrors EmptyString.
Proof.
  induction taskErrors as [|e l IH]; intros acc; cbn [masterError_loop].
  - rewrite append_nil_r. reflexivity.
  - rewrite (IH (acc +:+ e +:+ newline)), (IH (EmptyString +:+ e +:+ newline)).
    cbn [append]. rewrite !append_assoc. reflexivity.
Qed.

Lemma masterError_loop_Contains (taskErrors : list error) (e : error) :
  In e taskErrors ->
  exists a b, masterError_loop taskErrors EmptyString = a +:+ (e +:+ newline) +:+ b.
Proof.
  induction taskErrors as [|x l IH]; intros Hin; [destruct Hin|].
  cbn [masterError_loop]. rewrite masterError_loop_acc. cbn [append].
  destruct Hin as [->|Hin].
  - exists EmptyString, (masterError_loop l EmptyString).
    cbn [append]. rewrite append_assoc. reflexivity.
  - destruct (IH Hin) as (a & b & ->).
    exists (x +:+ newline +:+ a), b. rewrite !append_assoc. reflexivity.
Qed.

Lemma runWorkers_errors (w : World) (tasks : list CopyCommandArgs) (e : error) :
  forall finished,
    In e (fst (runWorkers w tasks finished))
    <-> exists i args,
          In i finished /\ nth_error tasks i = Some args /\ fst (runTask w args) = Some e.
Proof.
  induction finished as [|i finished IH]; cbn [runWorkers].
  - cbn. split; [tauto | intros (i & args & [] & _)].
  - rewrite !fst_bind. cbn [ret fst].
    destruct (nth_error tasks i) as [args|] eqn:E.
    + fold (runTask w args).
      destruct (fst (runTask w args)) as [e'|] eqn:Er.
      * cbn [In]. rewrite IH. split.
        -- intros [<-|(j & a & Hj & Ha & He)].
           ++ exists i, args. cbn [In]. auto.
           ++ exists j, a. cbn [In]. auto.
        -- intros (j & a & [<-|Hj] & Ha & He).
           ++ left. congruence.
           ++ right. eauto.
      * rewrite IH. split.
        -- intros (j & a & Hj & Ha & He). exists j, a. cbn [In]. auto.
        -- intros (j & a & [<-|Hj] & Ha & He); [congruence | eauto].
    + cbn [fst]. rewrite IH. split.
      * intros (j & a & Hj & Ha & He). exists j, a. cbn [In]. auto.
      * intros (j & a & [<-|Hj] & Ha & He); [congruence | eauto].
Qed.

Lemma runWorkers_length (w : World) (tasks : list CopyCommandArgs) :
  forall finished,
    (length (fst (runWorkers w tasks finished)) <= length finished)%nat.
Proof.
  induction finished as [|i finished IH]; cbn [runWorkers]; [apply Nat.le_refl|].
  rewrite !fst_bind. cbn [ret fst].
  set (errs := fst (runWorkers w tasks finished)) in *.
  match goal with
  | |- (length (match ?x with Some _ => _ | None => _ end) <= _)%nat => destruct x
  end; cbn [length].
  - apply le_n_S, IH.
  - apply Nat.le_le_succ_r, IH.
Qed.

Lemma runWorkers_trace (w : World) (tasks : list CopyCommandArgs) :
  forall finished i args,
    In i finished -> nth_error tasks i = Some args ->
    exists pre post,
      snd (runWorkers w tasks finished) = (pre ++ snd (runTask w args) ++ post)%list.
Proof.
  induction finished as [|j finished IH]; intros i args Hin Hnth; [destruct Hin|].
  cbn [runWorkers]. rewrite !snd_bind. cbn [ret snd]. rewrite app_nil_r.
  destruct Hin as [->|Hin].
  - rewrite Hnth. exists [], (snd (runWorkers w tasks finished)). reflexivity.
  - destruct (IH i args Hin Hnth) as (pre & post & ->).
    eexists (_ ++ pre)%list, post. rewrite <- app_assoc. reflexivity.
Qed.

(** X20.  A failing task does not stop the run: every task of the manifest
    is still run, the run returns success exactly when every task did,
    and the error it returns otherwise shows the message of every task
    that failed. *)
Theorem load_reports_every_failure (w : World) (d : Database)
    (datadirectory : DataDirectory) (finished : list nat) (n : Z) :
  numJobs w = (n, None) ->
  Permutation finished (seq 0 (length (RecordMaps datadirectory))) ->
  (length (RecordMaps datadirectory) <= taskErrorsCap)%nat ->
  let tasks := loadTasks w d datadirectory in
  let run := load w d datadirectory finished in
  (forall args, In args tasks ->
     exists pre post, snd run = (pre ++ snd (runTask w args) ++ post)%list)
  /\ (fst run = Returned None
      <-> forall args, In args tasks -> fst (runTask w args) = None)
  /\ (forall args e,
        In args tasks -> fst (runTask w args) = Some e ->
        exists masterError,
          fst run = Returned (Some (fmt_Errorf w masterError))
          /\ Contains masterError (e +:+ newline) = true).
Proof.
  intros Hjobs Hperm Hcap tasks run.
  assert (Hlen : length finished = length (RecordMaps datadirectory)).
  { rewrite (Permutation_length Hperm). apply length_seq. }
  assert (Hidx : forall args, In args tasks ->
                 exists i, In i finished /\ nth_error tasks i = Some args).
  { intros args Hin. apply In_nth_error in Hin. destruct Hin as [i Hi].
    exists i. split; [|exact Hi].
    apply (Permutation_in _ (Permutation_sym Hperm)), in_seq.
    assert (i < length tasks)%nat by (apply nth_error_Some; congruence).
    unfold tasks, loadTasks in H. rewrite length_map in H. lia. }
  pose proof (runWorkers_length w tasks finished) as Hle.
  set (errs := fst (runWorkers w tasks finished)) in *.
  assert (Hrun : fst run
                 = match errs with
                   | [] => Returned None
                   | _ => Returned (Some (fmt_Errorf w
                            (masterError_loop errs EmptyString +:+ newline)))
                   end).
  { unfold run, load. rewrite Hjobs, fst_bind. fold tasks. fold errs.
    destruct (Nat.ltb_spec taskErrorsCap (length errs)) as [Hc|Hc]; [lia|].
    destruct errs as [|e1 errs']; [reflexivity|].
    pose proof (masterError_loop_length (e1 :: errs') EmptyString) as Hm.
    destruct (masterError_loop (e1 :: errs') EmptyString) as [|x m] eqn:Em;
      [simpl in Hm; lia|].
    reflexivity. }
  split; [|split].
  - intros args Hin. destruct (Hidx args Hin) as (i & Hi & Hnth).
    destruct (runWorkers_trace w tasks finished i args Hi Hnth) as (pre & post & Htr).
    unfold run, load. rewrite Hjobs, snd_bind. fold tasks. rewrite Htr.
    eexists pre, (post ++ _)%list. rewrite <- !app_assoc. reflexivity.
  - rewrite Hrun. split.
    + intros Hnone args Hin.
      destruct (fst (runTask w args)) as [e|] eqn:Er; [|reflexivity].
      destruct (Hidx args Hin) as (i & Hi & Hnth).
      assert (He : In e errs) by (apply runWorkers_errors; eauto).
      destruct errs; [destruct He | discriminate].
    + intros Hall. destruct errs as [|e1 errs'] eqn:Ee; [reflexivity|].
      assert (He : In e1 (fst (runWorkers w tasks finished)))
        by (fold errs; rewrite Ee; left; reflexivity).
      apply runWorkers_errors in He. destruct He as (i & args & Hi & Hnth & Her).
      apply nth_error_In in Hnth. rewrite (Hall args Hnth) in Her. discriminate.
  - intros args e Hin Her. destruct (Hidx args Hin) as (i & Hi & Hnth).
    assert (He : In e errs) by (apply runWorkers_errors; eauto).
    exists (masterError_loop errs EmptyString +:+ newline). split.
    + rewrite Hrun. destruct errs; [destruct He | reflexivity].
    + destruct (masterError_loop_Contains errs e He) as (a & b & ->).
      apply Contains_iff. exists a, (b +:+ newline). rewrite !append_assoc. reflexivity.
Qed.

(** X21.  The database name is made of the first two of two or three
    pieces of the version, and a third piece makes no difference; no
    version makes it panic. *)
Theorem databaseName_components :
  (forall x y z,
      Contains x "." = false -> Contains y "." = false -> Contains z "." = false ->
      databaseName (x +:+ "." +:+ y) = Ok (("pedsnet_dcc_v" +:+ x +:+ y)%string, None)
      /\ databaseName (x +:+ "." +:+ y +:+ "." +:+ z) = databaseName (x +:+ "." +:+ y))
  /\ (forall version, exists r, databaseName version = Ok r).
Proof.
  split.
  - intros x y z Hx Hy Hz. unfold databaseName, versionToShorthand.
    rewrite Split_two, Split_three by assumption. split; reflexivity.
  - intros version. unfold databaseName, versionToShorthand.
    destruct (Split version ".") as [|x [|y [|z [|t l]]]]; cbn; eauto.
Qed.

End LoadRun.

(** * The theorems at work on the examples *)

Import Example.

Lemma MiniRE_find_length (c : MiniRE.compiled) (s : string) (m : list string) :
  MiniRE.find c s = Some m -> length m = S (MiniRE.NumSubexp c).
Proof.
  unfold MiniRE.find. destruct (MiniRE.search _ _ _); [|discriminate].
  intros [= <-]. cbn [length]. rewrite length_map, length_seq. reflexivity.
Qed.

Lemma createTables_has_group : has_group (compiled "CREATE TABLE.* (\w+) \(").
Proof.
  intros s m H. apply MiniRE_find_length in H. rewrite H. vm_compute. lia.
Qed.

(** C1, where the code departs from it.  With neither an include nor an
    exclude pattern, a fetched statement whose table name resolves (here
    [person]) is not kept: of the five statements fetched only the
    lifecycle statement is returned. *)
Theorem dmsaSql_without_patterns_keeps_no_table :
  includeTables (database None None) = None
  /\ excludeTables (database None None) = None
  /\ rawDmsaSql world (database None None) "ddl" "tables"
     = (["CREATE TABLE person (id INT)";
         newline +:+ "CREATE TABLE visit (id INT)";
         newline +:+ "CREATE TABLE person (id INT)";
         newline +:+ "CREATE TABLE concept (id INT)";
         newline +:+ "CREATE TABLE version_history (dms_version VARCHAR(50))"]%string,
        None)
  /\ resolvedTable (compiled "CREATE TABLE.* (\w+) \(") None "CREATE TABLE person (id INT)"
     = Some "person"
  /\ dmsaSql world (database None None) "ddl" "tables" createTablesPatterns
     = Ok (["CREATE TABLE version_history (dms_version VARCHAR(50))"], None).
Proof. repeat split; vm_compute; reflexivity. Qed.

(** C2 on the example: the third of five statements repeats the first and
    fails; nothing persists, the fourth statement is not executed, and the
    error shows the third statement. *)
Lemma ddlOperation_atomic_witness :
  let d := database None (Some vocabulary) in
  let person := "CREATE TABLE person (id INT)" in
  let visit := "CREATE TABLE visit (id INT)" in
  (driverName d = "postgres"
   /\ db d = Some {| dsn := "postgres://localhost/dcc" |}
   /\ db_Begin world {| dsn := "postgres://localhost/dcc" |} = None
   /\ dmsaSql world d "ddl" "tables" createTablesPatterns
      = Ok ([person; visit; person;
             "CREATE TABLE version_history (dms_version VARCHAR(50))"], None)
   /\ exec_list (committed start) (map TrimSpace (searchPathStatements d)) = Some []
   /\ exec_list [] (map TrimSpace [person; visit]) = Some [person; visit]
   /\ sql_exec [person; visit] (TrimSpace person)
      = inr ("relation already exists: " +:+ person)%string)
  /\ exists msg st',
       CreateTables world d start = (Ok (Some msg), st')
       /\ Contains msg person = true
       /\ committed st' = []
       /\ pending st' = None
       /\ execd st' = [person; visit; person].
Proof.
  intros d person visit.
  assert (H1 : driverName d = "postgres") by reflexivity.
  assert (H2 : db d = Some {| dsn := "postgres://localhost/dcc" |}) by reflexivity.
  assert (H3 : db_Begin world {| dsn := "postgres://localhost/dcc" |} = None)
    by reflexivity.
  assert (H4 : dmsaSql world d "ddl" "tables" createTablesPatterns
               = Ok ([person; visit; person;
                      "CREATE TABLE version_history (dms_version VARCHAR(50))"], None))
    by (vm_compute; reflexivity).
  assert (H5 : exec_list (committed start) (map TrimSpace (searchPathStatements d))
               = Some []) by reflexivity.
  assert (H6 : exec_list [] (map TrimSpace [person; visit]) = Some [person; visit])
    by (vm_compute; reflexivity).
  assert (H7 : sql_exec [person; visit] (TrimSpace person)
               = inr ("relation already exists: " +:+ person)%string)
    by (vm_compute; reflexivity).
  split; [repeat split; assumption|].
  exact (proj1 (ddlOperation_atomic world d "ddl" "tables" createTablesPatterns _ _
                  start [] H1 H2 H3 H4 H5)
           [person; visit] person
           ["CREATE TABLE version_history (dms_version VARCHAR(50))"]
           [person; visit] _ eq_refl H6 H7).
Defined.

(** C5 on the example: with only [person] included, the lifecycle
    statement is still returned. *)
Lemma lifecycle_statements_kept_witness :
  let d := database (Some (compiled "^person$")) None in
  let history := "CREATE TABLE version_history (dms_version VARCHAR(50))" in
  (rawDmsaSql world d "ddl" "tables"
   = (["CREATE TABLE person (id INT)";
       newline +:+ "CREATE TABLE visit (id INT)";
       newline +:+ "CREATE TABLE person (id INT)";
       newline +:+ "CREATE TABLE concept (id INT)";
       newline +:+ history]%string, None)
   /\ patternSwitch world d "tables" createTablesPatterns
      = Ok (inl (None, compiled "CREATE TABLE.* (\w+) \("))
   /\ has_group (compiled "CREATE TABLE.* (\w+) \("))
  /\ exists out err,
       dmsaSql world d "ddl" "tables" createTablesPatterns = Ok (out, err)
       /\ In history out.
Proof.
  intros d history.
  assert (H1 : rawDmsaSql world d "ddl" "tables"
               = (["CREATE TABLE person (id INT)";
                   newline +:+ "CREATE TABLE visit (id INT)";
                   newline +:+ "CREATE TABLE person (id INT)";
                   newline +:+ "CREATE TABLE concept (id INT)";
                   newline +:+ history]%string, None))
    by (vm_compute; reflexivity).
  assert (H2 : patternSwitch world d "tables" createTablesPatterns
               = Ok (inl (None, compiled "CREATE TABLE.* (\w+) \(")))
    by (vm_compute; reflexivity).
  split; [repeat split; try assumption; apply createTables_has_group|].
  destruct (lifecycle_statements_kept world d "ddl" "tables" createTablesPatterns
              _ _ _ H1 H2 createTables_has_group) as (out & err & Hsql & Hin).
  exists out, err. split; [exact Hsql|].
  apply (Hin (newline +:+ history)%string).
  - simpl. tauto.
  - vm_compute. reflexivity.
Defined.

(** C9 on the example: the first statement is its piece, the lifecycle
    table's column is widened. *)
Lemma rawDmsaSql_statements_witness :
  let d := database None None in
  let response := {| StatusCode := 200; ReadAll_Body := inl tablesDdl |} in
  (http_Get world (ddlUrl d "ddl" "tables") = inl response
   /\ StatusCode response = 200
   /\ ReadAll_Body response = inl tablesDdl)
  /\ exists out,
       rawDmsaSql world d "ddl" "tables" = (out, None)
       /\ nth_error out 0 = Some "CREATE TABLE person (id INT)"
       /\ nth_error out 4
          = Some (newline +:+ "CREATE TABLE version_history (dms_version VARCHAR(50))")%string.
Proof.
  intros d response.
  assert (H1 : http_Get world (ddlUrl d "ddl" "tables") = inl response)
    by (vm_compute; reflexivity).
  assert (H2 : StatusCode response = 200) by reflexivity.
  assert (H3 : ReadAll_Body response = inl tablesDdl) by reflexivity.
  split; [auto|].
  destruct (rawDmsaSql_statements world d "ddl" "tables" response tablesDdl H1 H2 H3)
    as (out & Hraw & Hlen & Hpieces).
  exists out. split; [exact Hraw|]. split.
  - destruct (Hpieces 0%nat "CREATE TABLE person (id INT)" eq_refl) as (stmt & Hnth & Hstmt).
    vm_compute in Hstmt. rewrite Hnth, Hstmt. reflexivity.
  - destruct (Hpieces 4%nat
                (newline +:+ "CREATE TABLE version_history (dms_version VARCHAR(16))")%string
                eq_refl) as (stmt & Hnth & Hstmt).
    change (Contains _ "version_history" && Contains _ "CREATE TABLE") with true in Hstmt.
    cbv iota in Hstmt. destruct Hstmt as [_ Hfirst].
    rewrite Hnth. f_equal.
    apply (Hfirst (newline +:+ "CREATE TABLE version_history (")%string ")").
    + reflexivity.
    + intros a b Hab.
      exact (index_from_least "dms_version VARCHAR(16)"
               (newline +:+ "CREATE TABLE version_history (dms_version VARCHAR(16))")
               a b 31 eq_refl Hab).
Defined.

(** C10 on the version ["2"]. *)
Lemma Open_panics_on_single_component_witness :
  Contains "2" "." = false
  /\ Open world "pedsnet-core" "2" "postgres://localhost/dcc" "" "http://dmsa/" "" "" start
     = (Panic "runtime error: index out of range [1] with length 1", start)
  /\ Open world "pedsnet-vocab" "2" "postgres://localhost/dcc" "" "http://dmsa/" "" "" start
     = (Panic "runtime error: index out of range [1] with length 1", start).
Proof.
  split; [reflexivity|].
  apply (Open_panics_on_single_component world start "2"). reflexivity.
Defined.

(** C4 fails on the code: the two-component version ["2.2"] is rejected
    with the format error. *)
Lemma two_component_version_rejected :
  length (Split "2.2" ".") = 2%nat
  /\ isValidModelVersion world None "pedsnet" "2.2" "http://dmsa/"
     = ((false, Some "Model version must look like X.Y.Z, not '2.2'"), None).
Proof. split; reflexivity. Qed.

Lemma copySucceeds_example (rows : Z) (vacuumFails : bool) :
  Load.copySucceeds (loadWorld true rows vacuumFails) url "dcc,public" "person" csv
    "dcc" personCmd.
Proof.
  exists personReader, ["id"; "name"], "/usr/bin/psql", "dbname=dcc host=localhost".
  repeat split.
Qed.

(** C3 on the example: three lines in the file, one row in the table. *)
Lemma copyCommand_row_count_witness :
  let w := loadWorld true 1 false in
  let c := {| Load.conn_url := url; Load.conn_searchPath := "dcc,public" |} in
  (Load.copySucceeds w url "dcc,public" "person" csv "dcc" personCmd
   /\ Load.OpenDatabase w url "dcc,public" = inl c
   /\ Load.db_QueryRow_Scan w c (Load.countSql "person") = inl 1
   /\ Load.os_Open w csv = inl personReader
   /\ Load.reader_error personReader = None
   /\ Z.of_nat (length (Load.physical_lines (Load.reader_content personReader))) < 2 ^ 63
   /\ Z.of_nat (length (Load.physical_lines (Load.reader_content personReader))) - 1 = 2)
  /\ exists msg,
       fst (Load.copyCommand w url "dcc,public" "person" csv Load.waitGroup) = Some msg
       /\ Contains msg "(1)" = true
       /\ Contains msg "(2)" = true.
Proof.
  intros w c.
  split; [repeat split; apply copySucceeds_example|].
  apply (LoadFacts.copyCommand_row_count w url "dcc,public" "person" csv "dcc" personCmd
           Load.waitGroup c 1 personReader (copySucceeds_example 1 false)
           eq_refl eq_refl eq_refl eq_refl eq_refl).
  vm_compute. discriminate.
Defined.

(** C7 fails on the code: the maintenance statement fails, the task
    returns success, and its events end with the maintenance call; the
    run is the same, log included, as the one in which maintenance
    succeeds. *)
Lemma maintenance_failure_not_logged :
  let w := loadWorld true 2 true in
  Load.analyze w url "dcc" "person"
  = (Some "Error executing `VACUUM FREEZE ANALYZE dcc.person`: disk full",
     [Load.EvOpenDatabase url EmptyString;
      Load.EvExec "VACUUM FREEZE ANALYZE dcc.person"])
  /\ Load.copyCommand w url "dcc,public" "person" csv Load.waitGroup
     = (None,
        [Load.EvLog Load.Info "Loading person (search_path: dcc,public)";
         Load.EvOpenFile csv; Load.EvLookPath "psql"; Load.EvRun personCmd;
         Load.EvOpenDatabase url "dcc,public";
         Load.EvQuery "select count(*) as count from person";
         Load.EvOpenFile csv;
         Load.EvLog Load.Info "Loaded 2 rows into dcc.person";
         Load.EvLog Load.Info "Vacuuming dcc.person";
         Load.EvOpenDatabase url EmptyString;
         Load.EvExec "VACUUM FREEZE ANALYZE dcc.person"])
  /\ Load.copyCommand (loadWorld true 2 false) url "dcc,public" "person" csv Load.waitGroup
     = Load.copyCommand w url "dcc,public" "person" csv Load.waitGroup.
Proof. repeat split. Qed.

(** C7, as the code has it, on the example with a failing [VACUUM]. *)
Lemma maintenance_result_discarded_witness :
  let w := loadWorld true 2 true in
  let c := {| Load.conn_url := url; Load.conn_searchPath := "dcc,public" |} in
  (Load.copySucceeds w url "dcc,public" "person" csv "dcc" personCmd
   /\ Load.OpenDatabase w url "dcc,public" = inl c
   /\ Load.db_QueryRow_Scan w c (Load.countSql "person") = inl 2
   /\ Load.os_Open w csv = inl personReader
   /\ Load.reader_error personReader = None
   /\ Z.of_nat (length (Load.physical_lines (Load.reader_content personReader))) < 2 ^ 63
   /\ 2 = Z.of_nat (length (Load.physical_lines (Load.reader_content personReader))) - 1)
  /\ fst (Load.analyze w url "dcc" "person")
     = Some "Error executing `VACUUM FREEZE ANALYZE dcc.person`: disk full"
  /\ fst (Load.copyCommand w url "dcc,public" "person" csv Load.waitGroup) = None
  /\ In (Load.EvExec "VACUUM FREEZE ANALYZE dcc.person")
       (snd (Load.analyze w url "dcc" "person")).
Proof.
  intros w c.
  split; [repeat split; apply copySucceeds_example|].
  split; [reflexivity|].
  destruct (LoadFacts.maintenance_result_discarded w url "dcc,public" "person" csv "dcc"
              personCmd Load.waitGroup c 2 personReader (copySucceeds_example 2 true)
              eq_refl eq_refl eq_refl eq_refl eq_refl eq_refl)
    as (Hres & _ & _ & Hexec & _).
  split; [exact Hres|].
  exact (Hexec {| Load.conn_url := url; Load.conn_searchPath := EmptyString |} eq_refl).
Defined.

(** C6 fails on the code: without [psql], a run with no task returns
    success, and a run with one task has opened the task's file before it
    looks for [psql]. *)
Lemma load_without_psql_not_preflight :
  let w := loadWorld false 2 false in
  let d := {| Load.Database_DatabaseUrl := url; Load.Database_SearchPath := "dcc" |} in
  Load.exec_LookPath w "psql" = inr "exec: psql: executable file not found in $PATH"
  /\ Load.load w d {| Load.RecordMaps := []; Load.DirPath := "/data" |} []
     = (Load.Returned None, [])
  /\ snd (Load.load w d
            {| Load.RecordMaps := [ {[ "table" := "person"; "filename" := "person.csv" ]} ];
               Load.DirPath := "/data" |} [0%nat])
     = [Load.EvLog Load.Info "Loading person (search_path: dcc)";
        Load.EvOpenFile csv; Load.EvLookPath "psql"].
Proof. repeat split; vm_compute; reflexivity. Qed.

(** C6, as the code has it, on the example without [psql]. *)
Lemma psql_checked_per_task_witness :
  let w := loadWorld false 2 false in
  let d := {| Load.Database_DatabaseUrl := url; Load.Database_SearchPath := "dcc" |} in
  let manifest :=
    {| Load.RecordMaps := [ {[ "table" := "person"; "filename" := "person.csv" ]} ];
       Load.DirPath := "/data" |} in
  Load.exec_LookPath w "psql" = inr "exec: psql: executable file not found in $PATH"
  /\ fst (Load.copyCommand w url "dcc" "person" csv Load.waitGroup) = Some Load.psqlMissing
  /\ exists err, fst (Load.load w d manifest [0%nat]) = Load.Returned (Some err).
Proof.
  intros w d manifest.
  destruct (LoadFacts.psql_checked_per_task w
              "exec: psql: executable file not found in $PATH" eq_refl)
    as [Htask Hrun].
  split; [reflexivity|]. split.
  - destruct (Htask url "dcc" "person" csv Load.waitGroup) as (_ & _ & Hpsql).
    exact (Hpsql personReader ["id"; "name"] eq_refl eq_refl).
  - specialize (Hrun d manifest [0%nat] 4 eq_refl (Permutation_refl _)).
    destruct (fst (Load.load w d manifest [0%nat])) as [[err|]|].
    + eauto.
    + discriminate Hrun.
    + vm_compute in Hrun. lia.
Defined.

Lemma compiled_has_group (pat : string) :
  (1 <= MiniRE.NumSubexp (compiled pat))%nat -> has_group (compiled pat).
Proof.
  intros Hn s m H. apply MiniRE_find_length in H. rewrite H. lia.
Qed.

Lemma tableOfIndex_has_group : has_group tableOfIndex.
Proof. apply compiled_has_group. vm_compute. lia. Qed.

Lemma createdIndex_has_group : has_group createdIndex.
Proof. apply compiled_has_group. vm_compute. lia. Qed.

Lemma droppedIndex_has_group : has_group droppedIndex.
Proof. apply compiled_has_group. vm_compute. lia. Qed.

(** X1 on the example: with only [person] included, the two [person]
    statements and the lifecycle statement are returned, in the order of
    the page. *)
Lemma dmsaSql_filters_in_order_witness :
  let d := database (Some (compiled "^person$")) None in
  let history := "CREATE TABLE version_history (dms_version VARCHAR(50))" in
  (rawDmsaSql world d "ddl" "tables"
   = (["CREATE TABLE person (id INT)";
       newline +:+ "CREATE TABLE visit (id INT)";
       newline +:+ "CREATE TABLE person (id INT)";
       newline +:+ "CREATE TABLE concept (id INT)";
       newline +:+ history]%string, None)
   /\ patternSwitch world d "tables" createTablesPatterns
      = Ok (inl (None, compiled "CREATE TABLE.* (\w+) \("))
   /\ has_group (compiled "CREATE TABLE.* (\w+) \("))
  /\ exists err,
       dmsaSql world d "ddl" "tables" createTablesPatterns
       = Ok (["CREATE TABLE person (id INT)"; "CREATE TABLE person (id INT)"; history], err).
Proof.
  intros d history.
  assert (H1 : rawDmsaSql world d "ddl" "tables"
               = (["CREATE TABLE person (id INT)";
                   newline +:+ "CREATE TABLE visit (id INT)";
                   newline +:+ "CREATE TABLE person (id INT)";
                   newline +:+ "CREATE TABLE concept (id INT)";
                   newline +:+ history]%string, None))
    by (vm_compute; reflexivity).
  assert (H2 : patternSwitch world d "tables" createTablesPatterns
               = Ok (inl (None, compiled "CREATE TABLE.* (\w+) \(")))
    by (vm_compute; reflexivity).
  split; [repeat split; try assumption; apply createTables_has_group|].
  destruct (dmsaSql_filters_in_order world d "ddl" "tables" createTablesPatterns
              _ _ _ H1 H2 createTables_has_group) as (err & Hsql).
  exists err. rewrite Hsql. vm_compute. reflexivity.
Defined.

(** X2 on the example: [person] is included and excluded, and is kept. *)
Lemma include_overrides_exclude_witness :
  let d := database (Some (compiled "^person$")) None in
  is_Some (includeTables d)
  /\ dmsaSql world (withExclude d (Some (compiled "^person$"))) "ddl" "tables"
       createTablesPatterns
     = dmsaSql world d "ddl" "tables" createTablesPatterns.
Proof.
  intros d.
  assert (H : is_Some (includeTables d)) by (eexists; reflexivity).
  split; [exact H|].
  exact (include_overrides_exclude world d (Some (compiled "^person$")) "ddl" "tables"
           createTablesPatterns H).
Defined.

(** X3 on the example: a unique index is not read by the index name
    pattern. *)
Lemma dmsaSqlMap_loop_error_witness :
  let person := "CREATE INDEX idx_person_id ON person (id)" in
  let visit := "CREATE UNIQUE INDEX idx_visit_id ON visit (id)" in
  (has_group tableOfIndex /\ has_group createdIndex
   /\ Forall (consistent tableOfIndex createdIndex) [person]
   /\ Contains visit "version_history" = false
   /\ FindStringSubmatch tableOfIndex visit = Some [" ON visit ("; "visit"]
   /\ FindStringSubmatch createdIndex visit = None)
  /\ exists m',
       dmsaSqlMap_loop dropIndexesPatterns tableOfIndex createdIndex [person; visit] ∅
       = Ok (m', Some (entityCreateError dropIndexesPatterns visit)).
Proof.
  intros person visit.
  assert (H1 : Forall (consistent tableOfIndex createdIndex) [person]).
  { constructor; [|constructor]. right. right. vm_compute. eexists. reflexivity. }
  assert (H2 : Contains visit "version_history" = false) by reflexivity.
  assert (H3 : FindStringSubmatch tableOfIndex visit = Some [" ON visit ("; "visit"])
    by (vm_compute; reflexivity).
  assert (H4 : FindStringSubmatch createdIndex visit = None) by (vm_compute; reflexivity).
  split.
  { repeat split; try assumption;
      [apply tableOfIndex_has_group | apply createdIndex_has_group]. }
  exact (proj2 (dmsaSqlMap_loop_error dropIndexesPatterns tableOfIndex createdIndex
                  [person; visit] ∅ tableOfIndex_has_group createdIndex_has_group)
           [person] visit [] _ eq_refl H1 H2 H3 H4).
Defined.

Lemma concept_index_not_person (x t' : string) :
  In x ["CREATE INDEX idx_concept_code ON concept (code)"] ->
  ~ defines tableOfIndex createdIndex x "idx_person_id" t'.
Proof.
  intros [<-|[]] (_ & tm & em & _ & _ & He & Hen).
  vm_compute in He. injection He as <-. discriminate Hen.
Qed.

(** X4 on the example: the map gives [person] for the person index. *)
Lemma dmsaSqlMap_loop_lookup_witness :
  let person := "CREATE INDEX idx_person_id ON person (id)" in
  let concept := "CREATE INDEX idx_concept_code ON concept (code)" in
  (has_group tableOfIndex /\ has_group createdIndex
   /\ dmsaSqlMap_loop dropIndexesPatterns tableOfIndex createdIndex [person; concept] ∅
      = Ok (indexTables, None)
   /\ defines tableOfIndex createdIndex person "idx_person_id" "person")
  /\ indexTables !! "idx_person_id" = Some "person".
Proof.
  intros person concept.
  assert (H1 : dmsaSqlMap_loop dropIndexesPatterns tableOfIndex createdIndex
                 [person; concept] ∅ = Ok (indexTables, None))
    by reflexivity.
  assert (H2 : defines tableOfIndex createdIndex person "idx_person_id" "person").
  { split; [reflexivity|].
    exists [" ON person ("; "person"], ["CREATE INDEX idx_person_id ON"; "idx_person_id"].
    repeat split; vm_compute; reflexivity. }
  split.
  { split; [apply tableOfIndex_has_group|]. split; [apply createdIndex_has_group|].
    split; assumption. }
  exact (proj1 (dmsaSqlMap_loop_lookup dropIndexesPatterns tableOfIndex createdIndex
                  [person; concept] ∅ indexTables tableOfIndex_has_group
                  createdIndex_has_group H1)
           [] person [concept] "idx_person_id" "person" eq_refl H2
           concept_index_not_person).
Defined.

(** X5 on the example: the vocabulary is excluded; the drop of the
    person index is kept and the drop of the concept index is not. *)
Lemma drop_follows_creation_witness :
  let w := indexWorld dropIndexesSql in
  let d := database None (Some vocabulary) in
  let person := "CREATE INDEX idx_person_id ON person (id)" in
  let concept := (newline +:+ "CREATE INDEX idx_concept_code ON concept (code)")%string in
  let dropPerson := "DROP INDEX idx_person_id" in
  let dropConcept := (newline +:+ "DROP INDEX idx_concept_code")%string in
  (rawDmsaSql w d "ddl" "indexes" = ([person; concept], None)
   /\ rawDmsaSql w d "drop" "indexes" = ([dropPerson; dropConcept], None)
   /\ Compile (tableCreate dropIndexesPatterns) = inl tableOfIndex
   /\ Compile (entityCreate dropIndexesPatterns) = inl createdIndex
   /\ Compile (entityDrop dropIndexesPatterns) = inl droppedIndex
   /\ Forall (consistent tableOfIndex createdIndex) [person; concept])
  /\ filterDecision d "person" = true
  /\ filterDecision d "concept" = false
  /\ exists out err,
       dmsaSql w d "drop" "indexes" (mapPatterns dropIndexesPatterns) = Ok (out, err)
       /\ In dropPerson out
       /\ ~ In "DROP INDEX idx_concept_code" out.
Proof.
  intros w d person concept dropPerson dropConcept.
  assert (H1 : rawDmsaSql w d "ddl" "indexes" = ([person; concept], None))
    by (vm_compute; reflexivity).
  assert (H2 : rawDmsaSql w d "drop" "indexes" = ([dropPerson; dropConcept], None))
    by (vm_compute; reflexivity).
  assert (H3 : Compile (tableCreate dropIndexesPatterns) = inl tableOfIndex)
    by (vm_compute; reflexivity).
  assert (H4 : Compile (entityCreate dropIndexesPatterns) = inl createdIndex)
    by (vm_compute; reflexivity).
  assert (H5 : Compile (entityDrop dropIndexesPatterns) = inl droppedIndex)
    by (vm_compute; reflexivity).
  assert (H6 : Forall (consistent tableOfIndex createdIndex) [person; concept]).
  { constructor; [right; right; vm_compute; eexists; reflexivity|].
    constructor; [right; right; vm_compute; eexists; reflexivity|]. constructor. }
  assert (Hp : defines tableOfIndex createdIndex person "idx_person_id" "person").
  { split; [reflexivity|].
    exists [" ON person ("; "person"], ["CREATE INDEX idx_person_id ON"; "idx_person_id"].
    repeat split; vm_compute; reflexivity. }
  assert (Hc : defines tableOfIndex createdIndex concept "idx_concept_code" "concept").
  { split; [reflexivity|].
    exists [" ON concept ("; "concept"],
           ["CREATE INDEX idx_concept_code ON"; "idx_concept_code"].
    repeat split; vm_compute; reflexivity. }
  assert (Hlast : forall x t', In x [concept] ->
                    ~ defines tableOfIndex createdIndex x "idx_person_id" t').
  { intros x t' [<-|[]] (_ & tm & em & _ & _ & He & Hen).
    vm_compute in He. injection He as <-. discriminate Hen. }
  split; [repeat (split; [assumption|]); assumption|].
  split; [vm_compute; reflexivity|]. split; [vm_compute; reflexivity|].
  destruct (drop_follows_creation w d "drop" "indexes" dropIndexesPatterns
              [person; concept] [dropPerson; dropConcept]
              tableOfIndex createdIndex droppedIndex H1 H2 H3 H4 H5
              tableOfIndex_has_group createdIndex_has_group droppedIndex_has_group H6)
    as (out & err & Hsql & Hkept).
  exists out, err. split; [exact Hsql|]. split.
  - apply (Hkept [] person [concept] "idx_person_id" "person" dropPerson
             ["DROP INDEX idx_person_id"; "idx_person_id"] eq_refl Hp Hlast).
    + left. reflexivity.
    + reflexivity.
    + vm_compute. reflexivity.
    + reflexivity.
    + vm_compute. reflexivity.
  - intros Hin.
    apply (Hkept [person] concept [] "idx_concept_code" "concept" dropConcept
             ["DROP INDEX idx_concept_code"; "idx_concept_code"] eq_refl Hc) in Hin.
    + vm_compute in Hin. discriminate Hin.
    + intros x t' [].
    + right. left. reflexivity.
    + reflexivity.
    + vm_compute. reflexivity.
    + reflexivity.
Defined.

(** X6 on the example: the drop page names an index the creation page
    does not have. *)
Lemma unmapped_entity_fails_witness :
  let w := indexWorld staleDropIndexesSql in
  let d := database None (Some vocabulary) in
  let person := "CREATE INDEX idx_person_id ON person (id)" in
  let concept := (newline +:+ "CREATE INDEX idx_concept_code ON concept (code)")%string in
  let dropPerson := "DROP INDEX idx_person_id" in
  let dropConcept := (newline +:+ "DROP INDEX idx_concept_code")%string in
  let dropVisit := (newline +:+ "DROP INDEX idx_visit_id")%string in
  (rawDmsaSql w d "ddl" "indexes" = ([person; concept], None)
   /\ rawDmsaSql w d "drop" "indexes" = ([dropPerson; dropConcept] ++ dropVisit :: [], None)
   /\ dmsaSqlMap_loop dropIndexesPatterns tableOfIndex createdIndex [person; concept] ∅
      = Ok (indexTables, None)
   /\ unmappedEntity droppedIndex indexTables (TrimSpace dropVisit) = Some "idx_visit_id")
  /\ operateOnTables w d "drop" "indexes" (mapPatterns dropIndexesPatterns) (Some Tx) start
     = (Ok (Some "Failed to look up table name for entity `idx_visit_id` in SQL `DROP INDEX idx_visit_id`"),
        start).
Proof.
  intros w d person concept dropPerson dropConcept dropVisit.
  assert (H1 : rawDmsaSql w d "ddl" "indexes" = ([person; concept], None))
    by (vm_compute; reflexivity).
  assert (H2 : rawDmsaSql w d "drop" "indexes"
               = ([dropPerson; dropConcept] ++ dropVisit :: [], None))
    by (vm_compute; reflexivity).
  assert (H3 : dmsaSqlMap_loop dropIndexesPatterns tableOfIndex createdIndex
                 [person; concept] ∅ = Ok (indexTables, None))
    by reflexivity.
  assert (H4 : unmappedEntity droppedIndex indexTables (TrimSpace dropVisit)
               = Some "idx_visit_id") by (vm_compute; reflexivity).
  split; [repeat (split; [assumption|]); assumption|].
  apply (unmapped_entity_fails w d "drop" "indexes" dropIndexesPatterns
           [person; concept] [dropPerson; dropConcept] [] dropVisit "idx_visit_id"
           tableOfIndex createdIndex droppedIndex indexTables (Some Tx) start
           H1 H2 eq_refl eq_refl eq_refl droppedIndex_has_group H3 H4).
  intros x [].
Defined.

(** X7 on the example: without a connection, creating the tables prints
    the directive and the statements kept. *)
Lemma dry_run_prints_witness :
  let person := "CREATE TABLE person (id INT)" in
  let history := "CREATE TABLE version_history (dms_version VARCHAR(50))" in
  (driverName dryDatabase = "postgres"
   /\ db dryDatabase = None
   /\ dmsaSql world dryDatabase "ddl" "tables" createTablesPatterns
      = Ok ([person; person; history], None))
  /\ CreateTables world dryDatabase start
     = (Ok None,
        printed start
          [("SET search_path TO dcc;" +:+ newline)%string;
           (person +:+ ";" +:+ newline)%string;
           (person +:+ ";" +:+ newline)%string;
           (history +:+ ";" +:+ newline)%string]).
Proof.
  intros person history.
  assert (H : dmsaSql world dryDatabase "ddl" "tables" createTablesPatterns
              = Ok ([person; person; history], None)) by (vm_compute; reflexivity).
  split; [repeat split; exact H|].
  exact (dry_run_prints world dryDatabase "ddl" "tables" createTablesPatterns
           [person; person; history] start eq_refl eq_refl H).
Defined.

(** X8 on the example: creating the tables fails on the repeated
    statement and leaves the database as it was. *)
Lemma ddlOperation_all_or_nothing_witness :
  let d := database None (Some vocabulary) in
  (driverName d = "postgres"
   /\ db d = Some {| dsn := "postgres://localhost/dcc" |}
   /\ db_Begin world {| dsn := "postgres://localhost/dcc" |} = None)
  /\ exists err st',
       CreateTables world d start = (Ok err, st')
       /\ pending st' = None
       /\ stdout st' = stdout start
       /\ (is_Some err -> committed st' = committed start).
Proof.
  intros d. split; [repeat split|].
  exact (ddlOperation_all_or_nothing world d "ddl" "tables" createTablesPatterns
           {| dsn := "postgres://localhost/dcc" |} start eq_refl eq_refl eq_refl).
Defined.

(** X10 on the example: after one valid check, a model that does not
    exist is found valid at a service that does not answer. *)
Lemma isValidModelVersion_cache_sticks_witness :
  isValidModelVersion (indexWorld dropIndexesSql) None "pedsnet" "2.2.0" "http://dmsa/"
  = ((true, None), Some true)
  /\ isValidModelVersion world (Some true) "nonsense" "1" "http://elsewhere/"
     = ((true, None), Some true).
Proof.
  split; [vm_compute; reflexivity|].
  exact (proj1 (isValidModelVersion_cache_sticks (indexWorld dropIndexesSql)
                  "pedsnet" "2.2.0" "http://dmsa/")
           eq_refl world "nonsense" "1" "http://elsewhere/").
Defined.

(** X11 on the example: the core alias opens the [pedsnet] model with
    the vocabulary excluded. *)
Lemma Open_result_witness :
  let w := indexWorld dropIndexesSql in
  Open w "pedsnet-core" "2.2.0" "postgres://localhost/dcc" "" "http://dmsa/" "" "" start
  = (Ok (Some (database None (Some vocabulary)), None), opened)
  /\ Model (database None (Some vocabulary)) = "pedsnet"
  /\ storedPattern pedsnetVocabTablesPat (excludeTables (database None (Some vocabulary)))
  /\ length (Split "2.2.0" ".") = 3%nat.
Proof.
  intros w.
  assert (H : Open w "pedsnet-core" "2.2.0" "postgres://localhost/dcc" "" "http://dmsa/"
                "" "" start
              = (Ok (Some (database None (Some vocabulary)), None), opened))
    by reflexivity.
  split; [exact H|].
  destruct (proj2 (Open_result w "pedsnet-core" "2.2.0" "postgres://localhost/dcc" ""
                     "http://dmsa/" "" "" start opened _ _ H)
              (database None (Some vocabulary)) eq_refl)
    as (Hm & _ & _ & _ & _ & _ & Hex & _ & Hthree).
  split; [exact Hm|]. split; [exact Hex|]. exact (Hthree eq_refl).
Defined.

(** X12 on the example. *)
Lemma versionMatchesMinorVersion_result_witness :
  Contains "2.2.0" "." = true
  /\ exists x y rest,
       Split "2.2.0" "." = x :: y :: rest
       /\ versionMatchesMinorVersion "2.2.0" pedsnetMinorVersionSupported
          = Ok (String.eqb (x +:+ "." +:+ y) pedsnetMinorVersionSupported).
Proof.
  split; [reflexivity|].
  exact (proj2 (versionMatchesMinorVersion_result "2.2.0" pedsnetMinorVersionSupported)
           eq_refl).
Defined.

(** X14 on the example: the person table is created by the core alias
    and not by the vocabulary alias. *)
Lemma core_and_vocab_partition_witness :
  let w := indexWorld dropIndexesSql in
  let core := database None (Some vocabulary) in
  let vocab := database (Some vocabulary) None in
  let pattern := compiled "CREATE TABLE.* (\w+) \(" in
  let person := "CREATE TABLE person (id INT)" in
  (Open w "pedsnet-core" "2.2.0" "postgres://localhost/dcc" "" "http://dmsa/" "" "" start
   = (Ok (Some core, None), opened)
   /\ Open w "pedsnet-vocab" "2.2.0" "postgres://localhost/dcc" "" "http://dmsa/" "" "" opened
      = (Ok (Some vocab, None), opened)
   /\ Contains person "version_history" = false
   /\ resolvedTable pattern None person = Some "person")
  /\ keeps core pattern None person = negb (keeps vocab pattern None person).
Proof.
  intros w core vocab pattern person.
  assert (H1 : Open w "pedsnet-core" "2.2.0" "postgres://localhost/dcc" "" "http://dmsa/"
                 "" "" start = (Ok (Some core, None), opened))
    by reflexivity.
  assert (H2 : Open w "pedsnet-vocab" "2.2.0" "postgres://localhost/dcc" "" "http://dmsa/"
                 "" "" opened = (Ok (Some vocab, None), opened))
    by reflexivity.
  assert (H3 : resolvedTable pattern None person = Some "person")
    by (vm_compute; reflexivity).
  split; [repeat split; assumption|].
  exact (core_and_vocab_partition w w "2.2.0" "2.2.0" "postgres://localhost/dcc"
           "postgres://localhost/dcc" "" "" "http://dmsa/" "http://dmsa/"
           start opened opened opened core vocab None None pattern None person "person"
           H1 H2 eq_refl H3).
Defined.

(** X15 on the example: the person file, cut at two places. *)
Lemma lineCounter_any_chunking_witness :
  (Load.reader_error personReader = None
   /\ Load.reader_error personReader' = None
   /\ Load.reader_content personReader = Load.reader_content personReader')
  /\ Load.lineCounter personReader = Load.lineCounter personReader'.
Proof.
  split; [repeat split|].
  exact (LoadRun.lineCounter_any_chunking personReader personReader'
           eq_refl eq_refl eq_refl).
Defined.

(** X16 on the example: the read fails in the third line. *)
Lemma lineCounter_read_error_witness :
  Load.reader_error brokenReader = Some "read /data/person.csv: input/output error"
  /\ Load.lineCounter brokenReader
     = ((2, Some "read /data/person.csv: input/output error"), []).
Proof.
  split; [reflexivity|].
  exact (LoadRun.lineCounter_read_error brokenReader
           "read /data/person.csv: input/output error" eq_refl).
Defined.

(** X17 on the example. *)
Lemma copy_runs_after_checks_witness :
  let w := loadWorld true 2 false in
  In (Load.EvRun personCmd)
    (snd (Load.copyCommand w url "dcc,public" "person" csv Load.waitGroup))
  /\ exists reader columnNames path connectionString primarySchema,
       Load.os_Open w csv = inl reader
       /\ Load.csv_Read w reader = inl columnNames
       /\ Load.exec_LookPath w "psql" = inl path
       /\ Load.pq_ParseURL w url = inl connectionString
       /\ Load.primarySchemaInSearchPath w "dcc,public" = (primarySchema, None)
       /\ personCmd = Load.copyCmdStr connectionString primarySchema "person"
                        (Join columnNames ", ") csv.
Proof.
  intros w.
  assert (H : In (Load.EvRun personCmd)
                (snd (Load.copyCommand w url "dcc,public" "person" csv Load.waitGroup))).
  { right. right. right. left. reflexivity. }
  split; [exact H|].
  exact (LoadRun.copy_runs_after_checks w url "dcc,public" "person" csv Load.waitGroup
           personCmd H).
Defined.

(** X18 on the example: two rows in the table, three lines in the file. *)
Lemma copyCommand_success_verified_witness :
  let w := loadWorld true 2 false in
  fst (Load.copyCommand w url "dcc,public" "person" csv Load.waitGroup) = None
  /\ exists primarySchema cmdStr c reader actualRows lines,
       Load.copySucceeds w url "dcc,public" "person" csv primarySchema cmdStr
       /\ In (Load.EvRun cmdStr)
            (snd (Load.copyCommand w url "dcc,public" "person" csv Load.waitGroup))
       /\ Load.OpenDatabase w url "dcc,public" = inl c
       /\ Load.db_QueryRow_Scan w c (Load.countSql "person") = inl actualRows
       /\ Load.os_Open w csv = inl reader
       /\ fst (Load.lineCounter reader) = (lines, None)
       /\ actualRows = int_wrap (lines - 1).
Proof.
  intros w. split; [reflexivity|].
  exact (LoadRun.copyCommand_success_verified w url "dcc,public" "person" csv
           Load.waitGroup eq_refl).
Defined.

(** X19 on the example. *)
Lemma vacuum_only_after_success_witness :
  let w := loadWorld true 2 false in
  In (Load.EvExec "VACUUM FREEZE ANALYZE dcc.person")
    (snd (Load.copyCommand w url "dcc,public" "person" csv Load.waitGroup))
  /\ fst (Load.copyCommand w url "dcc,public" "person" csv Load.waitGroup) = None
  /\ exists primarySchema,
       Load.primarySchemaInSearchPath w "dcc,public" = (primarySchema, None)
       /\ "VACUUM FREEZE ANALYZE dcc.person" = Load.vacuumSql primarySchema "person".
Proof.
  intros w.
  assert (H : In (Load.EvExec "VACUUM FREEZE ANALYZE dcc.person")
                (snd (Load.copyCommand w url "dcc,public" "person" csv Load.waitGroup))).
  { vm_compute. tauto. }
  split; [exact H|].
  exact (LoadRun.vacuum_only_after_success w url "dcc,public" "person" csv Load.waitGroup
           "VACUUM FREEZE ANALYZE dcc.person" H).
Defined.

(** X20 on the example: the visit file is not there; the person table
    is still loaded, and the run returns an error with the message of the
    visit task. *)
Lemma load_reports_every_failure_witness :
  let w := loadWorld true 2 false in
  let d := {| Load.Database_DatabaseUrl := url; Load.Database_SearchPath := "dcc,public" |} in
  let visit := {| Load.DatabaseUrl := url; Load.SearchPath := "dcc,public";
                  Load.Table := "visit"; Load.CsvFile := "/data/visit.csv";
                  Load.WaitGroup_ := Load.waitGroup |} in
  (Load.numJobs w = (4, None)
   /\ Permutation [1; 0]%nat (seq 0 (length (Load.RecordMaps manifest)))
   /\ (length (Load.RecordMaps manifest) <= Load.taskErrorsCap)%nat
   /\ In visit (Load.loadTasks w d manifest)
   /\ fst (Load.runTask w visit) = Some "open /data/visit.csv: no such file or directory")
  /\ exists masterError,
       fst (Load.load w d manifest [1; 0]%nat)
       = Load.Returned (Some (Load.fmt_Errorf w masterError))
       /\ Contains masterError
            ("open /data/visit.csv: no such file or directory" +:+ newline) = true.
Proof.
  intros w d visit.
  assert (H1 : Permutation [1; 0]%nat (seq 0 (length (Load.RecordMaps manifest))))
    by apply perm_swap.
  assert (H2 : (length (Load.RecordMaps manifest) <= Load.taskErrorsCap)%nat)
    by (vm_compute; lia).
  assert (H3 : In visit (Load.loadTasks w d manifest))
    by (right; left; vm_compute; reflexivity).
  assert (H4 : fst (Load.runTask w visit)
               = Some "open /data/visit.csv: no such file or directory")
    by (vm_compute; reflexivity).
  split; [repeat split; assumption|].
  exact (proj2 (proj2 (LoadRun.load_reports_every_failure w d manifest [1; 0]%nat 4
                         eq_refl H1 H2))
           visit _ H3 H4).
Defined.

(** X21 on the example. *)
Lemma databaseName_components_witness :
  Load.databaseName "2.1" = Ok ("pedsnet_dcc_v21", None)
  /\ Load.databaseName "2.1.3" = Load.databaseName "2.1".
Proof.
  exact (proj1 LoadRun.databaseName_components "2" "1" "3" eq_refl eq_refl eq_refl).
Defined.
